(** * predict_mobile_lstm.py: late fusion of LSTM video classifiers

    A shallow embedding of [src/predict_mobile_lstm.py] (functions [predict],
    [predict_generator] and [main]) and the proofs of its guard conditions
    and of the numerical recipe used to fuse the four models.

    Conventions of the embedding.
    - the probabilities returned by a model are finite float32 numbers.
      [predict] and [predict_generator] only compare, index and print them,
      so there they are the real numbers ([R]) that they represent.
    - the arithmetic of [main] (the sums of lines 141, 148, 155 and the
      softmax of lines 142, 149, 156) is float32 arithmetic: its values are
      of type [f32], with the infinities and nan, and every finite result
      is rounded.  What the float32 format and numpy fix (the special
      values, the overflow of [np.exp], the comparisons of [argmax]) is
      written out; the rounding itself, the value of [np.exp] below its
      overflow threshold and the order of the additions of [np.sum] are
      parameters ([Float32Arith]).
    - the one division by a possibly-zero count ([np.mean] of an empty
      array) is written out, see [npfloat].
    - a 1-d array is a list, a 2-d array the list of its rows.
    - Python exceptions are values of [exn]; a function that prints or calls
      into Keras returns the list of its [event]s, in order, next to its
      result (type [M]).
    - Keras, numpy and pandas are libraries: their functions are modelled by
      their documented behaviour; the loaded models, the feature generator
      and the class table are parameters ([World]). *)

From Stdlib Require Import String Ascii.
From Stdlib Require Import Reals Lra Lia ZArith Bool Arith List.
From Stdlib Require Import Permutation Sorted.
Import ListNotations.

Local Open Scope string_scope.
Local Open Scope list_scope.

(** ** Exceptions and results *)

Inductive exn : Type :=
| ValueError (msg : string)
| IndexError
| KeyError.

Inductive result (A : Type) : Type :=
| Ok (a : A)
| Raise (e : exn).

Arguments Ok {A} a.
Arguments Raise {A} e.

(** The result of [np.mean]: a real number, or [nan] for the mean of an
    empty array (0/0). *)
Inductive npfloat : Type :=
| Fin (r : R)
| NaN.

(** ** Data *)

(** A numpy array of features: only its shape is inspected by the script. *)
Record ndarray : Type := mk_ndarray {
  shape : list nat;
  data : list R
}.

Definition ndarray2 : Type := list (list R).

(** Modelled from the spec: [datagenerator.VideoClasses] is not among the
    sources.  The class table [dfClass] has one row per class with a short
    code [sClass] and a detail string [sDetail]; rows are labelled by their
    position (the default integer index of a data frame), and [liClasses]
    is the list of class codes handed to the feature generator. *)
Record ClassRow : Type := mk_ClassRow {
  sClass : string;
  sDetail : string
}.

Record VideoClasses : Type := mk_VideoClasses {
  dfClass : list ClassRow;
  liClasses : list string
}.

(** Modelled from the spec: [datagenerator.FeaturesGenerator] is not among
    the sources.  The script reads its sample count [nSamples] and the
    column [dfSamples.sLabel] (the ground-truth code of each sample). *)
Record FeaturesGenerator : Type := mk_FeaturesGenerator {
  nSamples : nat;
  dfSamples_sLabel : list string
}.

(** A loaded [keras.Model].  [input_shape] starts with the batch dimension
    ([None] in Keras).  [km_predict x] is [keModel.predict(arX)[0]] for the
    batch [arX] that holds the single sample [x] (Keras returns one output
    row per input row); [km_predict_generator g] is the array returned by
    [keModel.predict_generator(generator = g, ...)]. *)
Record KerasModel : Type := mk_KerasModel {
  name : string;
  input_shape : list (option nat);
  km_predict : ndarray -> list R;
  km_predict_generator : FeaturesGenerator -> ndarray2
}.

(** What the script reads from outside: the file system and Keras. *)
Record World : Type := mk_World {
  getcwd : string;
  read_VideoClasses : string -> VideoClasses;
  load_model : string -> KerasModel;
  new_FeaturesGenerator :
    string -> nat -> list (option nat) -> list string -> bool -> FeaturesGenerator
}.

(** ** Events and the monad of the script *)

Inductive message : Type :=
| MsgText (s : string)
    (* a line of text *)
| MsgTop (rank : nat) (nLabel : nat) (sLabel : string) (confidence : R)
    (* "Top %d: [%3d] %s (confidence %.0f%%)" *)
| MsgAccuracy (caption : string) (fAcc : npfloat).
    (* "<caption>: %.2f%%" % (fAcc*100.) *)

Inductive event : Type :=
| EvPrint (m : message)
| EvLoadModel (sModelPath : string)
| EvPredict (sName : string) (arX : ndarray)
| EvPredictGenerator (sName : string) (gen : FeaturesGenerator).

Definition M (A : Type) : Type := (list event * result A)%type.

Definition ret {A} (a : A) : M A := ([], Ok a).

Definition raise {A} (e : exn) : M A := ([], Raise e).

Definition bind {A B} (m : M A) (f : A -> M B) : M B :=
  match m with
  | (t, Ok a) => let (t', r) := f a in (t ++ t', r)
  | (t, Raise e) => (t, Raise e)
  end.

Definition emit (ev : event) : M unit := ([ev], Ok tt).

Definition print (m : message) : M unit := emit (EvPrint m).

Definition lift {A} (r : result A) : M A := ([], r).

Declare Scope m_scope.
Delimit Scope m_scope with m.
Notation "x <- c ;; k" := (bind c (fun x => k))
  (at level 61, c at next level, right associativity) : m_scope.
Notation "c ;;; k" := (bind c (fun _ => k))
  (at level 61, right associativity) : m_scope.
Notation "' pat <- c ;; k" := (bind c (fun x => match x with pat => k end))
  (at level 61, pat pattern, c at next level, right associativity) : m_scope.

(** The error monad alone, for the pure array operations. *)
Definition rbind {A B} (r : result A) (f : A -> result B) : result B :=
  match r with Ok a => f a | Raise e => Raise e end.

Fixpoint mapM {A B} (f : A -> result B) (l : list A) : result (list B) :=
  match l with
  | [] => Ok []
  | x :: t => rbind (f x) (fun y => rbind (mapM f t) (fun ys => Ok (y :: ys)))
  end.

Fixpoint mapM2 {A B C} (f : A -> B -> result C) (l1 : list A) (l2 : list B)
  : result (list C) :=
  match l1, l2 with
  | x :: t1, y :: t2 =>
      rbind (f x y) (fun z => rbind (mapM2 f t1 t2) (fun zs => Ok (z :: zs)))
  | _, _ => Ok []
  end.

(** [for x in l: body(x)] *)
Fixpoint for_ {A} (l : list A) (body : A -> M unit) : M unit :=
  match l with
  | [] => ret tt
  | x :: t => bind (body x) (fun _ => for_ t body)
  end.

(** ** numpy and pandas primitives *)

Open Scope R_scope.

(** [a[i]] on a numpy array, with a non-negative index. *)
Definition getitem {A} (a : list A) (i : nat) : result A :=
  match nth_error a i with Some x => Ok x | None => Raise IndexError end.

(** [a[idx]] where [idx] is an integer array (fancy indexing). *)
Definition take {A} (a : list A) (idx : list nat) : result (list A) :=
  mapM (getitem a) idx.

(** [a[k:]] for a Python integer [k]: a negative [k] counts from the end,
    and the start is clamped to the array. *)
Definition py_slice_from {A} (k : Z) (a : list A) : list A :=
  if (k <? 0)%Z
  then skipn (Z.to_nat (Z.max 0 (Z.of_nat (length a) + k))) a
  else skipn (Z.to_nat k) a.

(** [range(n)] for a Python integer [n]: empty when [n <= 0]. *)
Definition range (n : Z) : list nat := seq 0 (Z.to_nat n).

(** [a.argmax()] on a 1-d array: the first index of the largest value;
    [ValueError] on an empty array. *)
Fixpoint argmax_from (best_i : nat) (best : R) (i : nat) (l : list R) : nat :=
  match l with
  | [] => best_i
  | x :: t =>
      if Rlt_dec best x then argmax_from i x (S i) t
      else argmax_from best_i best (S i) t
  end.

Definition np_argmax (a : list R) : result nat :=
  match a with
  | [] => Raise (ValueError "attempt to get argmax of an empty sequence")
  | x :: t => Ok (argmax_from 0 x 1 t)
  end.

(** [a.argmax(axis=1)] on a 2-d array. *)
Definition argmax_axis1 (a : ndarray2) : result (list nat) :=
  mapM np_argmax a.

(** Broadcasting of a binary operation along one axis: equal lengths pair
    up, an axis of length 1 is stretched, anything else is a [ValueError]. *)
Definition np_broadcast {A B} (op : A -> A -> result B) (xs ys : list A)
  : result (list B) :=
  if Nat.eqb (length xs) (length ys) then mapM2 op xs ys
  else match xs, ys with
       | [x], _ => mapM (op x) ys
       | _, [y] => mapM (fun x => op x y) xs
       | _, _ => Raise (ValueError "operands could not be broadcast together")
       end.

(** ** float32 arithmetic *)

(** A float32 value: a finite number, given by the real number that it
    represents (the two zeros are one value), an infinity, or nan. *)
Inductive f32 : Type :=
| F32 (r : R)
| F32_inf (negative : bool)
| F32_nan.

Definition ndarray32 : Type := list (list f32).

(** The output of a model, as the float32 array that it is. *)
Definition as_f32 (a : ndarray2) : ndarray32 := map (map F32) a.

(** What the format and numpy decide and the embedding does not compute:
    - [f32_round x]: the float32 value of the exact result [x], that is
      [x] rounded to a float32, or an infinity when [x] is out of range;
    - [np_exp_finite x]: [np.exp] at a finite [x] below 89 (a rounded
      value of [exp x]; 0 when it underflows, [inf] when it overflows,
      which happens from about 88.72 on);
    - [np_sum row]: [np.sum] of one row, in numpy's order of additions;
    - [f32_div_zero x]: [x / 0] for a non-zero [x], an infinity whose sign
      is that of [x] times the sign of the zero. *)
Class Float32Arith : Type := {
  f32_round : R -> f32;
  np_exp_finite : R -> f32;
  np_sum : list f32 -> f32;
  f32_div_zero : f32 -> f32
}.

(** [x + y] on float32 scalars, for a given rounding. *)
Definition f32_add_by (round : R -> f32) (x y : f32) : f32 :=
  match x, y with
  | F32_nan, _ | _, F32_nan => F32_nan
  | F32_inf s1, F32_inf s2 => if Bool.eqb s1 s2 then F32_inf s1 else F32_nan
  | F32_inf s, F32 _ | F32 _, F32_inf s => F32_inf s
  | F32 a, F32 b => round (a + b)
  end.

Definition f32_add {ar : Float32Arith} (x y : f32) : f32 :=
  f32_add_by f32_round x y.

(** [x / y] on float32 scalars. *)
Definition f32_div {ar : Float32Arith} (x y : f32) : f32 :=
  match x, y with
  | F32_nan, _ | _, F32_nan => F32_nan
  | F32_inf _, F32_inf _ => F32_nan
  | F32_inf s, F32 b =>
      if Req_dec_T b 0 then f32_div_zero x
      else F32_inf (xorb s (if Rlt_dec b 0 then true else false))
  | F32 _, F32_inf _ => F32 0
  | F32 a, F32 b =>
      if Req_dec_T b 0
      then (if Req_dec_T a 0 then F32_nan else f32_div_zero x)
      else f32_round (a / b)
  end.

(** [np.exp] on a float32 scalar: [exp 89] is beyond the largest float32
    (about [3.4e38]), so from 89 on the result overflows to [inf]. *)
Definition np_exp {ar : Float32Arith} (x : f32) : f32 :=
  match x with
  | F32_nan => F32_nan
  | F32_inf false => F32_inf false
  | F32_inf true => F32 0
  | F32 a => if Rle_dec 89 a then F32_inf false else np_exp_finite a
  end.

(** [x <= y] on float32 scalars: false as soon as one side is nan. *)
Definition f32_leb (x y : f32) : bool :=
  match x, y with
  | F32_nan, _ | _, F32_nan => false
  | F32_inf true, _ => true
  | _, F32_inf false => true
  | F32_inf false, _ => false
  | _, F32_inf true => false
  | F32 a, F32 b => if Rle_dec a b then true else false
  end.

Definition f32_isnan (x : f32) : bool :=
  match x with F32_nan => true | _ => false end.

(** [a.argmax()] on a 1-d float32 array, as numpy's loop runs: the
    current maximum is replaced by an element [x] when [x <= maximum] is
    false, and a nan ends the search. *)
Fixpoint argmax32_from (best_i : nat) (best : f32) (i : nat) (l : list f32)
  : nat :=
  match l with
  | [] => best_i
  | x :: t =>
      if f32_leb x best then argmax32_from best_i best (S i) t
      else if f32_isnan x then i
      else argmax32_from i x (S i) t
  end.

Definition np_argmax32 (a : list f32) : result nat :=
  match a with
  | [] => Raise (ValueError "attempt to get argmax of an empty sequence")
  | x :: t => if f32_isnan x then Ok 0%nat else Ok (argmax32_from 0 x 1 t)
  end.

Definition argmax32_axis1 (a : ndarray32) : result (list nat) :=
  mapM np_argmax32 a.

Definition row_add {ar : Float32Arith} (r1 r2 : list f32) : result (list f32) :=
  np_broadcast (fun x y => Ok (f32_add x y)) r1 r2.

(** [a + b] on 2-d float32 arrays. *)
Definition np_add {ar : Float32Arith} (a b : ndarray32) : result ndarray32 :=
  np_broadcast row_add a b.

(** [np.exp(a) / np.sum(np.exp(a), axis=1).reshape(-1,1)]: every row of
    exponentials is divided by its own sum. *)
Definition softmax_row {ar : Float32Arith} (row : list f32) : list f32 :=
  let e := map np_exp row in
  let s := np_sum e in
  map (fun x => f32_div x s) e.

Definition softmax {ar : Float32Arith} (a : ndarray32) : ndarray32 :=
  map softmax_row a.

(** [oClasses.dfClass.sClass[k]] and [oClasses.dfClass.sDetail[k]]: lookup
    of the row labelled [k]; [KeyError] when there is none. *)
Definition series_get (oClasses : VideoClasses) (col : ClassRow -> string) (k : nat)
  : result string :=
  match nth_error (dfClass oClasses) k with
  | Some row => Ok (col row)
  | None => Raise KeyError
  end.

(** [oClasses.dfClass.loc[arPred, "sClass"]] *)
Definition loc_sClass (oClasses : VideoClasses) (arPred : list nat)
  : result (list string) :=
  mapM (series_get oClasses sClass) arPred.

(** [liLabels == series]: elementwise comparison of a list with a pandas
    series; [ValueError] when the lengths differ. *)
Definition list_eq_series (liLabels : list string) (se : list string)
  : result (list bool) :=
  if Nat.eqb (length liLabels) (length se)
  then Ok (map (fun p => String.eqb (fst p) (snd p)) (combine liLabels se))
  else Raise (ValueError "Lengths must match to compare").

Definition count_true (l : list bool) : nat :=
  length (filter (fun b => b) l).

(** [np.mean] of a boolean array. *)
Definition np_mean (l : list bool) : npfloat :=
  match l with
  | [] => NaN
  | _ => Fin (INR (count_true l) / INR (length l))
  end.

(** [fAcc * 100.] *)
Definition percent (f : npfloat) : npfloat :=
  match f with Fin r => Fin (r * 100) | NaN => NaN end.

(** [np.expand_dims(a, axis=0)] *)
Definition expand_dims (a : ndarray) : ndarray :=
  mk_ndarray (1%nat :: shape a) (data a).

(** Equality of the tuple [keModel.input_shape[1:]] with the tuple
    [arFeatures.shape]; a dimension [None] equals no integer. *)
Definition dim_eqb (d : option nat) (n : nat) : bool :=
  match d with Some m => Nat.eqb m n | None => false end.

Fixpoint shape_eqb (s : list (option nat)) (t : list nat) : bool :=
  match s, t with
  | [], [] => true
  | d :: s', n :: t' => dim_eqb d n && shape_eqb s' t'
  | _, _ => false
  end.

(** [l1 != l2] on two lists of strings. *)
Definition labels_neqb (l1 l2 : list string) : bool :=
  if list_eq_dec string_dec l1 l2 then false else true.

Definition nl : string := String (ascii_of_nat 10) EmptyString.

(** * The script *)

Local Open Scope m_scope.

Section Predict.

(** [a.argsort()]: numpy's default sort is not stable, so the order in
    which equal values are listed is left open; the function is a
    parameter, constrained where needed by [argsort_spec] below. *)
Variable np_argsort : list R -> list nat.

(** One round of the loop [for i in range(nTop)] of [predict].  The
    source evaluates [arTopLabels[i]] several times; it is read once. *)
Definition predict_print_top (oClasses : VideoClasses)
    (arTopLabels : list nat) (arTopProbas : list R) (i : nat) : M unit :=
  k <- lift (getitem arTopLabels i) ;;
  c <- lift (series_get oClasses sClass k) ;;
  d <- lift (series_get oClasses sDetail k) ;;
  p <- lift (getitem arTopProbas i) ;;
  print (MsgTop (i + 1) k (c ++ " " ++ d)%string (p * 100)).

Definition predict (arFeatures : ndarray) (keModel : KerasModel)
    (oClasses : VideoClasses) (nTop : Z) : M (nat * string * R) :=
  if negb (shape_eqb (skipn 1 (input_shape keModel)) (shape arFeatures))
  then raise (ValueError "Incorrect shapes")
  else
    let arX := expand_dims arFeatures in
    print (MsgText ("Predict video category with " ++ name keModel ++ " ...")%string) ;;;
    emit (EvPredict (name keModel) arX) ;;;
    let arProbas := km_predict keModel arFeatures in
    let arTopLabels := rev (py_slice_from (- nTop) (np_argsort arProbas)) in
    arTopProbas <- lift (take arProbas arTopLabels) ;;
    for_ (range nTop) (predict_print_top oClasses arTopLabels arTopProbas) ;;;
    k <- lift (getitem arTopLabels 0) ;;
    c <- lift (series_get oClasses sClass k) ;;
    d <- lift (series_get oClasses sDetail k) ;;
    p <- lift (getitem arTopProbas 0) ;;
    ret (k, (c ++ " " ++ d)%string, p).

End Predict.

Definition predict_generator (w : World) (sFeatureDir sModelPath : string)
    (oClasses : VideoClasses) (nBatchSize : nat)
  : M (npfloat * list nat * ndarray2 * list string) :=
  print (MsgText ("Load model " ++ sModelPath ++ " ...")%string) ;;;
  emit (EvLoadModel sModelPath) ;;;
  let keModel := load_model w sModelPath in
  let genFeatures :=
    new_FeaturesGenerator w sFeatureDir nBatchSize
      (skipn 1 (input_shape keModel)) (liClasses oClasses) false in
  if Nat.eqb (nSamples genFeatures) 0
  then raise (ValueError "No feature files detected, prediction stopped")
  else
    print (MsgText ("Predict with generator on " ++ sFeatureDir ++ " ...")%string) ;;;
    emit (EvPredictGenerator (name keModel) genFeatures) ;;;
    let arProba := km_predict_generator keModel genFeatures in
    if negb (Nat.eqb (length arProba) (nSamples genFeatures))
    then raise (ValueError "Unexpected number of predictions")
    else
      arPred <- lift (argmax_axis1 arProba) ;;
      let liLabels := dfSamples_sLabel genFeatures in
      sePred <- lift (loc_sClass oClasses arPred) ;;
      arEq <- lift (list_eq_series liLabels sePred) ;;
      let fAcc := np_mean arEq in
      ret (fAcc, arPred, arProba, liLabels).

(** The three lines that follow each sum in [main] (142-144, 149-151 and
    156-158): softmax, prediction and accuracy of a summed score array. *)
Definition fuse {ar : Float32Arith} (arSoftmax : ndarray32)
    (liLabels : list string) (oClasses : VideoClasses)
  : result (ndarray32 * list nat * npfloat) :=
  let arProba := softmax arSoftmax in
  rbind (argmax32_axis1 arProba) (fun arPred =>
  rbind (loc_sClass oClasses arPred) (fun sePred =>
  rbind (list_eq_series liLabels sePred) (fun arEq =>
  Ok (arProba, arPred, np_mean arEq)))).

(** The sums of lines 141, 148 and 155; [+] associates to the left. *)
Definition sum_last {ar : Float32Arith} (il ol : ndarray2)
  : result ndarray32 :=
  np_add (as_f32 il) (as_f32 ol).

Definition sum_oflow {ar : Float32Arith} (ob ol : ndarray2)
  : result ndarray32 :=
  np_add (as_f32 ob) (as_f32 ol).

Definition sum_all {ar : Float32Arith} (ib il ob ol : ndarray2)
  : result ndarray32 :=
  rbind (rbind (np_add (as_f32 ib) (as_f32 il))
               (fun s => np_add s (as_f32 ob)))
        (fun s => np_add s (as_f32 ol)).

Definition sClassFile : string := "data-set/01-ledasila/021/class.csv".
Definition sImageFeatureDir : string :=
  "data-temp/01-ledasila/021/image-mobilenet/val".
Definition sOflowFeatureDir : string :=
  "data-temp/01-ledasila/021/oflow-mobilenet/val".
Definition sModelDir : string := "model".
Definition sModelImageBest : string :=
  (sModelDir ++ "/20180620-1653-ledasila021-image-mobile-lstm-best.h5")%string.
Definition sModelImageLast : string :=
  (sModelDir ++ "/20180620-1653-ledasila021-image-mobile-lstm-last.h5")%string.
Definition sModelOflowBest : string :=
  (sModelDir ++ "/20180620-1701-ledasila021-oflow-mobile-lstm-best.h5")%string.
Definition sModelOflowLast : string :=
  (sModelDir ++ "/20180620-1701-ledasila021-oflow-mobile-lstm-last.h5")%string.

Definition caption_last : string :=
  (nl ++ "Last image & last optical flow model combined accuracy")%string.
Definition caption_oflow : string :=
  (nl ++ "Combined 2 optical flow model accuracy")%string.
Definition caption_all : string :=
  (nl ++ "Combined 4-model accuracy")%string.

(** The default batch size of [predict_generator]. *)
Definition nBatchSize_default : nat := 16.

Definition main {ar : Float32Arith} (w : World) : M unit :=
  print (MsgText (nl ++ "Predict with combined rgb + flow models ... ")%string) ;;;
  print (MsgText (getcwd w)) ;;;
  let oClasses := read_VideoClasses w sClassFile in
  ' (fAcc_image_best, _, arProba_image_best, liLabels_image_best) <-
    predict_generator w sImageFeatureDir sModelImageBest oClasses nBatchSize_default ;;
  print (MsgAccuracy "Image best model accuracy" (percent fAcc_image_best)) ;;;
  ' (fAcc_image_last, _, arProba_image_last, liLabels_image_last) <-
    predict_generator w sImageFeatureDir sModelImageLast oClasses nBatchSize_default ;;
  print (MsgAccuracy "Image last model accuracy" (percent fAcc_image_last)) ;;;
  ' (fAcc_oflow_best, _, arProba_oflow_best, liLabels_oflow_best) <-
    predict_generator w sOflowFeatureDir sModelOflowBest oClasses nBatchSize_default ;;
  print (MsgAccuracy "Optical flow best model accuracy" (percent fAcc_oflow_best)) ;;;
  ' (fAcc_oflow_last, _, arProba_oflow_last, liLabels_oflow_last) <-
    predict_generator w sOflowFeatureDir sModelOflowLast oClasses nBatchSize_default ;;
  print (MsgAccuracy "Optical flow last model accuracy" (percent fAcc_oflow_last)) ;;;
  if labels_neqb liLabels_image_best liLabels_oflow_best
  then raise (ValueError "The rgb and flwo labels do not match")
  else
    arSoftmax <- lift (sum_last arProba_image_last arProba_oflow_last) ;;
    ' (arProba, arPred, fAcc) <- lift (fuse arSoftmax liLabels_image_best oClasses) ;;
    print (MsgAccuracy caption_last (percent fAcc)) ;;;
    arSoftmax <- lift (sum_oflow arProba_oflow_best arProba_oflow_last) ;;
    ' (arProba, arPred, fAcc) <- lift (fuse arSoftmax liLabels_image_best oClasses) ;;
    print (MsgAccuracy caption_oflow (percent fAcc)) ;;;
    arSoftmax <- lift (sum_all arProba_image_best arProba_image_last
                               arProba_oflow_best arProba_oflow_last) ;;
    ' (arProba, arPred, fAcc) <- lift (fuse arSoftmax liLabels_image_best oClasses) ;;
    print (MsgAccuracy caption_all (percent fAcc)) ;;;
    ret tt.

(** * Specifications *)

(** [k] is the first index at which [l] takes its largest value. *)
Definition is_first_max (l : list R) (k : nat) : Prop :=
  (k < length l)%nat /\
  (forall j, (j < length l)%nat -> nth j l 0 <= nth k l 0) /\
  (forall j, (j < k)%nat -> nth j l 0 < nth k l 0).

(** [m] is a rectangular array with [n] rows and [c] columns. *)
Definition has_shape {A} (n c : nat) (m : list (list A)) : Prop :=
  length m = n /\ Forall (fun r => length r = c) m.


Definition entry32 (m : ndarray32) (i j : nat) : f32 :=
  nth j (nth i m []) (F32 0).

(** The order in which [argmax] ranks float32 values: that of the
    numbers, with nan above everything. *)
Definition np_le (x y : f32) : Prop :=
  f32_isnan y = true \/ f32_leb x y = true.

(** [k] is the first index at which [l] takes its largest value, in the
    order of [argmax]. *)
Definition is_first_max32 (l : list f32) (k : nat) : Prop :=
  (k < length l)%nat /\
  (forall j, (j < length l)%nat -> np_le (nth j l (F32 0)) (nth k l (F32 0))) /\
  (forall j, (j < k)%nat -> ~ np_le (nth k l (F32 0)) (nth j l (F32 0))).

(** Sample [i] is classified correctly: the short code of the predicted
    class is the ground-truth label of the sample. *)
Definition correct_at (oClasses : VideoClasses) (liLabels : list string)
    (arPred : list nat) (i : nat) : bool :=
  match nth_error arPred i, nth_error liLabels i with
  | Some k, Some lab =>
      match nth_error (dfClass oClasses) k with
      | Some row => String.eqb lab (sClass row)
      | None => false
      end
  | _, _ => false
  end.

(** The mean over the [n] samples of the indicator of [correct_at]. *)
Definition accuracy_spec (oClasses : VideoClasses) (liLabels : list string)
    (arPred : list nat) (n : nat) : R :=
  INR (length (filter (correct_at oClasses liLabels arPred) (seq 0 n))) / INR n.

(** The contract of [argsort]: a permutation of the indices that lists the
    values in non-decreasing order. *)
Definition argsort_spec (argsort : list R -> list nat) : Prop :=
  forall a : list R,
    Permutation (argsort a) (seq 0 (length a)) /\
    StronglySorted (fun i j => nth i a 0 <= nth j a 0) (argsort a).

(** An [argsort] that meets the contract: insertion sort on the indices. *)
Fixpoint insert_index (a : list R) (i : nat) (l : list nat) : list nat :=
  match l with
  | [] => [i]
  | j :: t =>
      if Rle_dec (nth i a 0) (nth j a 0) then i :: j :: t
      else j :: insert_index a i t
  end.

Definition insertion_argsort (a : list R) : list nat :=
  fold_right (insert_index a) [] (seq 0 (length a)).

(** The exact sum of a list of real numbers. *)
Definition real_sum (l : list R) : R := fold_right Rplus 0 l.

(** ** The fusion recipe *)

(** [arProba] is the row-wise softmax of [arSoftmax]: each entry is the
    float32 exponential of the score divided, in float32, by the float32
    sum of the exponentials of its row. *)
Definition is_softmax_of {ar : Float32Arith} (arSoftmax arProba : ndarray32)
  : Prop :=
  length arProba = length arSoftmax /\
  forall i, (i < length arSoftmax)%nat ->
    length (nth i arProba []) = length (nth i arSoftmax []) /\
    forall j, (j < length (nth i arSoftmax []))%nat ->
      entry32 arProba i j =
      f32_div (np_exp (entry32 arSoftmax i j))
              (np_sum (map np_exp (nth i arSoftmax []))).

(** The recipe of the spec, on a score array that is already summed. *)
Definition ensemble_spec {ar : Float32Arith} (arSoftmax arProba : ndarray32)
    (arPred : list nat) (fAcc : npfloat) (liLabels : list string)
    (oClasses : VideoClasses) : Prop :=
  is_softmax_of arSoftmax arProba /\
  length arPred = length arProba /\
  (forall i, (i < length arProba)%nat ->
     is_first_max32 (nth i arProba []) (nth i arPred 0%nat)) /\
  fAcc = Fin (accuracy_spec oClasses liLabels arPred (length liLabels)).

(** One entry of the softmax of [row]: the value computed from the score
    [v] of that row. *)
Definition softmax_entry {ar : Float32Arith} (row : list f32) (v : f32) : f32 :=
  f32_div (np_exp v) (np_sum (map np_exp row)).

(** The softmax keeps the order of the scores of [row]: two scores compare
    as their probabilities do.  It keeps it weakly when it never reverses
    two scores, but may merge them. *)
Definition keeps_order {ar : Float32Arith} (row : list f32) : Prop :=
  forall a b, In a row -> In b row ->
    (np_le (softmax_entry row a) (softmax_entry row b) <-> np_le a b).


(** The entries of [row] are finite numbers and their sum is 1. *)
Definition sums_to_one (row : list f32) : Prop :=
  exists ps, row = map F32 ps /\ real_sum ps = 1.

(** The recipe with the softmax left out: prediction and accuracy taken
    from the summed scores directly. *)
Definition fuse_without_softmax (arSoftmax : ndarray32) (liLabels : list string)
    (oClasses : VideoClasses) : result (list nat * npfloat) :=
  rbind (argmax32_axis1 arSoftmax) (fun arPred =>
  rbind (loc_sClass oClasses arPred) (fun sePred =>
  rbind (list_eq_series liLabels sePred) (fun arEq =>
  Ok (arPred, np_mean arEq)))).


(** ** Traces *)

(** An inference call into Keras. *)
Definition is_inference (ev : event) : bool :=
  match ev with
  | EvPredict _ _ | EvPredictGenerator _ _ => true
  | _ => false
  end.

(** The trace of [predict_generator] up to the check of the sample count,
    and what it adds when inference is run. *)
Definition pg_trace_load (sModelPath : string) : list event :=
  [EvPrint (MsgText ("Load model " ++ sModelPath ++ " ...")%string);
   EvLoadModel sModelPath].

Definition pg_trace_infer (sFeatureDir : string) (keModel : KerasModel)
    (genFeatures : FeaturesGenerator) : list event :=
  [EvPrint (MsgText ("Predict with generator on " ++ sFeatureDir ++ " ...")%string);
   EvPredictGenerator (name keModel) genFeatures].

(** What [predict_generator] computes once both guards are passed. *)
Definition pg_result (oClasses : VideoClasses) (arProba : ndarray2)
    (liLabels : list string)
  : result (npfloat * list nat * ndarray2 * list string) :=
  rbind (argmax_axis1 arProba) (fun arPred =>
  rbind (loc_sClass oClasses arPred) (fun sePred =>
  rbind (list_eq_series liLabels sePred) (fun arEq =>
  Ok (np_mean arEq, arPred, arProba, liLabels)))).

(** [main] in two parts, for the proofs: the four per-model runs (lines
    112-134), and the fusion of their outputs (lines 136-159). *)
Definition main_models (w : World)
  : M (ndarray2 * ndarray2 * ndarray2 * ndarray2 * list string * list string) :=
  print (MsgText (nl ++ "Predict with combined rgb + flow models ... ")%string) ;;;
  print (MsgText (getcwd w)) ;;;
  let oClasses := read_VideoClasses w sClassFile in
  ' (fAcc_image_best, _, arProba_image_best, liLabels_image_best) <-
    predict_generator w sImageFeatureDir sModelImageBest oClasses nBatchSize_default ;;
  print (MsgAccuracy "Image best model accuracy" (percent fAcc_image_best)) ;;;
  ' (fAcc_image_last, _, arProba_image_last, liLabels_image_last) <-
    predict_generator w sImageFeatureDir sModelImageLast oClasses nBatchSize_default ;;
  print (MsgAccuracy "Image last model accuracy" (percent fAcc_image_last)) ;;;
  ' (fAcc_oflow_best, _, arProba_oflow_best, liLabels_oflow_best) <-
    predict_generator w sOflowFeatureDir sModelOflowBest oClasses nBatchSize_default ;;
  print (MsgAccuracy "Optical flow best model accuracy" (percent fAcc_oflow_best)) ;;;
  ' (fAcc_oflow_last, _, arProba_oflow_last, liLabels_oflow_last) <-
    predict_generator w sOflowFeatureDir sModelOflowLast oClasses nBatchSize_default ;;
  print (MsgAccuracy "Optical flow last model accuracy" (percent fAcc_oflow_last)) ;;;
  ret (arProba_image_best, arProba_image_last, arProba_oflow_best,
       arProba_oflow_last, liLabels_image_best, liLabels_oflow_best).

Definition main_fusion {ar : Float32Arith} (oClasses : VideoClasses)
    (arProba_image_best arProba_image_last arProba_oflow_best
     arProba_oflow_last : ndarray2)
    (liLabels_image_best liLabels_oflow_best : list string) : M unit :=
  if labels_neqb liLabels_image_best liLabels_oflow_best
  then raise (ValueError "The rgb and flwo labels do not match")
  else
    arSoftmax <- lift (sum_last arProba_image_last arProba_oflow_last) ;;
    ' (arProba, arPred, fAcc) <- lift (fuse arSoftmax liLabels_image_best oClasses) ;;
    print (MsgAccuracy caption_last (percent fAcc)) ;;;
    arSoftmax <- lift (sum_oflow arProba_oflow_best arProba_oflow_last) ;;
    ' (arProba, arPred, fAcc) <- lift (fuse arSoftmax liLabels_image_best oClasses) ;;
    print (MsgAccuracy caption_oflow (percent fAcc)) ;;;
    arSoftmax <- lift (sum_all arProba_image_best arProba_image_last
                               arProba_oflow_best arProba_oflow_last) ;;
    ' (arProba, arPred, fAcc) <- lift (fuse arSoftmax liLabels_image_best oClasses) ;;
    print (MsgAccuracy caption_all (percent fAcc)) ;;;
    ret tt.

(** A print of one of the three fused accuracies. *)
Definition is_fused_accuracy (ev : event) : bool :=
  match ev with
  | EvPrint (MsgAccuracy caption _) =>
      String.eqb caption caption_last || String.eqb caption caption_oflow
      || String.eqb caption caption_all
  | _ => false
  end.

Definition no_fused (tr : list event) : Prop :=
  Forall (fun ev => is_fused_accuracy ev = false) tr.

(** The labels of a feature stream, as [predict_generator] reads them in
    [main] for the model stored at [sModelPath]. *)
Definition stream_labels (w : World) (sFeatureDir sModelPath : string)
  : list string :=
  dfSamples_sLabel
    (new_FeaturesGenerator w sFeatureDir nBatchSize_default
       (skipn 1 (input_shape (load_model w sModelPath)))
       (liClasses (read_VideoClasses w sClassFile)) false).

(** The whole trace of the four per-model runs when all of them return. *)
Definition models_trace (w : World) (t1 : list event) (a1 : npfloat)
    (t2 : list event) (a2 : npfloat) (t3 : list event) (a3 : npfloat)
    (t4 : list event) (a4 : npfloat) : list event :=
  [EvPrint (MsgText (nl ++ "Predict with combined rgb + flow models ... ")%string)]
  ++ [EvPrint (MsgText (getcwd w))]
  ++ t1 ++ [EvPrint (MsgAccuracy "Image best model accuracy" (percent a1))]
  ++ t2 ++ [EvPrint (MsgAccuracy "Image last model accuracy" (percent a2))]
  ++ t3 ++ [EvPrint (MsgAccuracy "Optical flow best model accuracy" (percent a3))]
  ++ t4 ++ [EvPrint (MsgAccuracy "Optical flow last model accuracy" (percent a4))].

(** The result is not a [ValueError]. *)
Definition no_ValueError {A} (r : result A) : Prop :=
  match r with Raise (ValueError _) => False | _ => True end.

(** ** Concrete inputs *)

(** Two classes, two validation samples, one of each class. *)
Definition demo_classes : VideoClasses :=
  {| dfClass := [mk_ClassRow "A" "alpha"; mk_ClassRow "B" "beta"];
     liClasses := ["A"; "B"]%string |}.

Definition demo_gen (liLabels : list string) : FeaturesGenerator :=
  {| nSamples := 2; dfSamples_sLabel := liLabels |}.

Definition demo_input_shape : list (option nat) :=
  [None; Some 20%nat; Some 1024%nat].

(** The image models classify both samples correctly; the optical-flow
    models answer class 0 for both. *)
Definition demo_proba_image : ndarray2 := [[1; 0]; [0; 1]].
Definition demo_proba_oflow : ndarray2 := [[1; 0]; [1; 0]].

Definition demo_model (sName : string) (arProba : ndarray2) : KerasModel :=
  {| name := sName;
     input_shape := demo_input_shape;
     km_predict := fun _ => [0; 1; 0];
     km_predict_generator := fun _ => arProba |}.

Definition is_image_model (sModelPath : string) : bool :=
  String.eqb sModelPath sModelImageBest || String.eqb sModelPath sModelImageLast.

(** A world in which both streams list the samples as [A; B]. *)
Definition demo_world (sCwd sName : string) : World :=
  {| getcwd := sCwd;
     read_VideoClasses := fun _ => demo_classes;
     load_model := fun sModelPath =>
       if is_image_model sModelPath
       then demo_model sName demo_proba_image
       else demo_model sName demo_proba_oflow;
     new_FeaturesGenerator := fun _ _ _ _ _ => demo_gen ["A"; "B"]%string |}.

(** A world in which the optical-flow stream lists them as [B; A]. *)
Definition demo_world_mismatch : World :=
  {| getcwd := "/work";
     read_VideoClasses := fun _ => demo_classes;
     load_model := fun _ => demo_model "lstm" demo_proba_image;
     new_FeaturesGenerator := fun sFeatureDir _ _ _ _ =>
       if String.eqb sFeatureDir sImageFeatureDir
       then demo_gen ["A"; "B"]%string
       else demo_gen ["B"; "A"]%string |}.

(** A world whose feature directories are empty. *)
Definition demo_world_empty : World :=
  {| getcwd := "/work";
     read_VideoClasses := fun _ => demo_classes;
     load_model := fun _ => demo_model "lstm" demo_proba_image;
     new_FeaturesGenerator := fun _ _ _ _ _ =>
       {| nSamples := 0; dfSamples_sLabel := [] |} |}.

(** A world whose model answers for one sample where two were detected. *)
Definition demo_world_short : World :=
  {| getcwd := "/work";
     read_VideoClasses := fun _ => demo_classes;
     load_model := fun _ => demo_model "lstm" [[1; 0]];
     new_FeaturesGenerator := fun _ _ _ _ _ => demo_gen ["A"; "B"]%string |}.

Definition demo_features : ndarray :=
  {| shape := [20%nat; 1024%nat]; data := [] |}.

Definition demo_features_bad : ndarray :=
  {| shape := [20%nat; 2048%nat]; data := [] |}.

Definition demo_classes3 : VideoClasses :=
  {| dfClass := [mk_ClassRow "A" "alpha"; mk_ClassRow "B" "beta";
                 mk_ClassRow "C" "gamma"];
     liClasses := ["A"; "B"; "C"]%string |}.

(** An arithmetic for the concrete runs: a finite result is not rounded,
    [np.sum] adds from left to right, and the quotient of a non-zero
    number by zero has the sign of the number. *)
Definition exact_arith : Float32Arith :=
  {| f32_round := F32;
     np_exp_finite := fun x => F32 (exp x);
     np_sum := fun row => fold_left (f32_add_by F32) row (F32 0);
     f32_div_zero := fun x =>
       match x with
       | F32 r => F32_inf (if Rlt_dec r 0 then true else false)
       | _ => x
       end |}.

(** Evaluation of the comparisons of [argmax] and [argsort] on literals. *)
Ltac decide_R :=
  repeat match goal with
  | |- context [Rlt_dec ?a ?b] => destruct (Rlt_dec a b); try lra
  | |- context [Rle_dec ?a ?b] => destruct (Rle_dec a b); try lra
  end.

(** Case analysis on the float32 values of a goal. *)
Ltac f32_cases :=
  repeat match goal with
  | x : f32 |- _ => destruct x as [? | [] |]
  end;
  simpl in *; intros;
  repeat match goal with
  | |- context [Rle_dec ?a ?b] => destruct (Rle_dec a b)
  | H : context [Rle_dec ?a ?b] |- _ => destruct (Rle_dec a b)
  end;
  try reflexivity; try discriminate; try lra; auto.

(** * Further specifications *)

(** The lookups of one "Top" line of [predict]: label [arTopLabels[i]],
    its text in the class table and its probability [arTopProbas[i]].
    The last three lines of [predict] are these lookups at [i = 0]. *)
Definition top_lookup (oClasses : VideoClasses) (arTopLabels : list nat)
    (arTopProbas : list R) (i : nat) : result (nat * string * R) :=
  rbind (getitem arTopLabels i) (fun k =>
  rbind (series_get oClasses sClass k) (fun c =>
  rbind (series_get oClasses sDetail k) (fun d =>
  rbind (getitem arTopProbas i) (fun p =>
  Ok (k, (c ++ " " ++ d)%string, p))))).

(** The "Top" lines of a trace, in order: rank, label, text, confidence. *)
Definition top_line (ev : event) : list (nat * nat * string * R) :=
  match ev with
  | EvPrint (MsgTop rank k s c) => [(rank, k, s, c)]
  | _ => []
  end.

Definition top_lines (tr : list event) : list (nat * nat * string * R) :=
  flat_map top_line tr.

(** The text of class [k]: short code, a space, the detail string. *)
Definition class_text (oClasses : VideoClasses) (k : nat) : string :=
  match nth_error (dfClass oClasses) k with
  | Some row => (sClass row ++ " " ++ sDetail row)%string
  | None => EmptyString
  end.

(** The "Top" line that [predict] prints at rank [i + 1] for label [k]. *)
Definition top_line_of (oClasses : VideoClasses) (arProbas : list R)
    (i k : nat) : nat * nat * string * R :=
  ((i + 1)%nat, k, class_text oClasses k, nth k arProbas 0 * 100).

(** The paths of the models loaded along a trace, in order. *)
Definition loaded_model (ev : event) : list string :=
  match ev with EvLoadModel sModelPath => [sModelPath] | _ => [] end.

Definition loaded_models (tr : list event) : list string :=
  flat_map loaded_model tr.

(** The number of inference calls of a trace. *)
Definition count_inference (tr : list event) : nat :=
  length (filter is_inference tr).

(** A printed accuracy is a percentage: a number between 0 and 100. *)
Definition is_percentage (f : npfloat) : Prop :=
  match f with Fin p => 0 <= p <= 100 | NaN => False end.

Definition accuracy_ok (ev : event) : Prop :=
  match ev with
  | EvPrint (MsgAccuracy _ f) => is_percentage f
  | _ => True
  end.

(** The four model files of [main], in the order in which it loads them. *)
Definition main_model_paths : list string :=
  [sModelImageBest; sModelImageLast; sModelOflowBest; sModelOflowLast].

(** The event printed by one round of the loop of [predict]. *)
Definition top_event (x : nat * (nat * string * R)) : event :=
  match x with
  | (i, (k, s, p)) => EvPrint (MsgTop (i + 1) k s (p * 100))
  end.

(** The [k]-th per-model run of [main] (lines 119-133), counted from 0. *)
Definition main_run_of (w : World) (k : nat)
  : M (npfloat * list nat * ndarray2 * list string) :=
  let oClasses := read_VideoClasses w sClassFile in
  match k with
  | 0%nat => predict_generator w sImageFeatureDir sModelImageBest oClasses
               nBatchSize_default
  | 1%nat => predict_generator w sImageFeatureDir sModelImageLast oClasses
               nBatchSize_default
  | 2%nat => predict_generator w sOflowFeatureDir sModelOflowBest oClasses
               nBatchSize_default
  | _ => predict_generator w sOflowFeatureDir sModelOflowLast oClasses
           nBatchSize_default
  end.

(** The captions of the accuracies printed along a trace, in order. *)
Definition accuracy_caption (ev : event) : list string :=
  match ev with EvPrint (MsgAccuracy caption _) => [caption] | _ => [] end.

Definition accuracy_captions (tr : list event) : list string :=
  flat_map accuracy_caption tr.

(** A world whose image models have two classes and whose optical-flow
    models have three. *)
Definition demo_proba_oflow3 : ndarray2 := [[1; 0; 0]; [1; 0; 0]].

Definition demo_world_counts : World :=
  {| getcwd := "/work";
     read_VideoClasses := fun _ => demo_classes3;
     load_model := fun sModelPath =>
       if is_image_model sModelPath
       then demo_model "lstm" demo_proba_image
       else demo_model "lstm" demo_proba_oflow3;
     new_FeaturesGenerator := fun _ _ _ _ _ => demo_gen ["A"; "B"]%string |}.

(** * Proofs *)

(** ** The monad *)

Lemma bind_Ok {A B} (m : M A) (f : A -> M B) t a :
  m = (t, Ok a) -> bind m f = (t ++ fst (f a), snd (f a)).
Proof. intros ->. unfold bind. destruct (f a); reflexivity. Qed.

Lemma bind_inv_Ok {A B} (m : M A) (f : A -> M B) tr b :
  bind m f = (tr, Ok b) ->
  exists t1 a t2, m = (t1, Ok a) /\ f a = (t2, Ok b) /\ tr = t1 ++ t2.
Proof.
  destruct m as [t1 [a | e]]; simpl; [| discriminate].
  destruct (f a) as [t2 r] eqn:Hf. intros H. inversion H; subst.
  exists t1, a, t2. auto.
Qed.

Lemma lift_inv_Ok {A} (r : result A) tr a :
  lift r = (tr, Ok a) -> r = Ok a /\ tr = [].
Proof. unfold lift. intros H. inversion H. auto. Qed.

Lemma mapM_length {A B} (f : A -> result B) l ys :
  mapM f l = Ok ys -> length ys = length l.
Proof.
  revert ys. induction l as [| x t IH]; simpl; intros ys H.
  - inversion H. reflexivity.
  - destruct (f x) as [y | e]; simpl in H; [| discriminate].
    destruct (mapM f t) as [ys' | e]; simpl in H; [| discriminate].
    inversion H. simpl. f_equal. now apply IH.
Qed.

Lemma mapM_nth_error {A B} (f : A -> result B) l ys i x :
  mapM f l = Ok ys -> nth_error l i = Some x ->
  exists y, f x = Ok y /\ nth_error ys i = Some y.
Proof.
  revert ys i. induction l as [| x0 t IH]; simpl; intros ys i H Hi.
  - destruct i; discriminate.
  - destruct (f x0) as [y0 | e] eqn:Hf; simpl in H; [| discriminate].
    destruct (mapM f t) as [ys' | e]; simpl in H; [| discriminate].
    inversion H; subst. destruct i; simpl in *.
    + inversion Hi; subst. eauto.
    + eapply IH; eauto.
Qed.

Lemma mapM_total {A B} (f : A -> result B) l :
  (forall x, In x l -> exists y, f x = Ok y) ->
  exists ys, mapM f l = Ok ys.
Proof.
  induction l as [| x t IH]; simpl; intros H.
  - eauto.
  - destruct (H x) as [y Hy]; [now left |].
    destruct IH as [ys Hys]; [intros; apply H; now right |].
    rewrite Hy, Hys. simpl. eauto.
Qed.

(** ** argmax *)

Lemma argmax_from_spec (t pre : list R) (bi : nat) (b : R) :
  (bi < length pre)%nat ->
  nth bi pre 0 = b ->
  (forall j, (j < length pre)%nat -> nth j pre 0 <= b) ->
  (forall j, (j < bi)%nat -> nth j pre 0 < b) ->
  is_first_max (pre ++ t) (argmax_from bi b (length pre) t).
Proof.
  revert pre bi b. induction t as [| x t IH]; intros pre bi b Hbi Hb Hmax Hfst.
  - simpl. rewrite app_nil_r. unfold is_first_max. rewrite Hb. auto.
  - simpl. replace (pre ++ x :: t) with ((pre ++ [x]) ++ t)
      by (rewrite <- app_assoc; reflexivity).
    assert (Hlen : length (pre ++ [x]) = S (length pre))
      by (rewrite length_app; simpl; lia).
    rewrite <- Hlen.
    destruct (Rlt_dec b x) as [Hlt | Hge].
    + apply IH.
      * lia.
      * rewrite app_nth2 by lia. rewrite Nat.sub_diag. reflexivity.
      * intros j Hj. rewrite Hlen in Hj.
        destruct (Nat.eq_dec j (length pre)) as [-> | Hne].
        -- rewrite app_nth2 by lia. rewrite Nat.sub_diag. simpl. lra.
        -- rewrite app_nth1 by lia. specialize (Hmax j). assert (nth j pre 0 <= b) by (apply Hmax; lia). lra.
      * intros j Hj. rewrite app_nth1 by lia.
        assert (nth j pre 0 <= b) by (apply Hmax; lia). lra.
    + apply IH.
      * lia.
      * rewrite app_nth1 by lia. exact Hb.
      * intros j Hj. rewrite Hlen in Hj.
        destruct (Nat.eq_dec j (length pre)) as [-> | Hne].
        -- rewrite app_nth2 by lia. rewrite Nat.sub_diag. simpl. lra.
        -- rewrite app_nth1 by lia. apply Hmax. lia.
      * intros j Hj. rewrite app_nth1 by lia. now apply Hfst.
Qed.

Lemma np_argmax_spec (a : list R) (k : nat) :
  np_argmax a = Ok k -> is_first_max a k.
Proof.
  destruct a as [| x t]; simpl; [discriminate |].
  intros H. inversion H; subst.
  apply (argmax_from_spec t [x] 0 x); simpl; try lia; try reflexivity.
  - intros j Hj. assert (j = 0)%nat as -> by lia. simpl. lra.
Qed.

Lemma np_argmax_nonempty (a : list R) :
  a <> [] -> exists k, np_argmax a = Ok k.
Proof. destruct a; [congruence | simpl; eauto]. Qed.

Lemma is_first_max_unique (l : list R) (k1 k2 : nat) :
  is_first_max l k1 -> is_first_max l k2 -> k1 = k2.
Proof.
  intros (H1 & M1 & F1) (H2 & M2 & F2).
  destruct (Nat.lt_trichotomy k1 k2) as [Hlt | [Heq | Hgt]]; [| exact Heq |].
  - specialize (F2 k1 Hlt). specialize (M1 k2 H2). lra.
  - specialize (F1 k2 Hgt). specialize (M2 k1 H1). lra.
Qed.

(** ** argmax on float32 arrays *)

Lemma f32_leb_notnan (x y : f32) :
  f32_leb x y = true -> f32_isnan x = false /\ f32_isnan y = false.
Proof. f32_cases. Qed.

Lemma f32_leb_refl (x : f32) : f32_isnan x = false -> f32_leb x x = true.
Proof. f32_cases. Qed.

Lemma f32_leb_total (x y : f32) :
  f32_isnan x = false -> f32_isnan y = false ->
  f32_leb x y = false -> f32_leb y x = true.
Proof. f32_cases. Qed.

Lemma f32_leb_trans (x y z : f32) :
  f32_leb x y = true -> f32_leb y z = true -> f32_leb x z = true.
Proof. f32_cases. Qed.

Lemma np_le_F32 (a b : R) : np_le (F32 a) (F32 b) <-> a <= b.
Proof.
  unfold np_le. simpl. destruct (Rle_dec a b) as [Hle | Hnle]; split.
  - intros _. exact Hle.
  - intros _. now right.
  - intros [H | H]; discriminate.
  - intros H. contradiction.
Qed.

Lemma argmax32_from_spec (t pre : list f32) (bi : nat) (b : f32) :
  (bi < length pre)%nat ->
  nth bi pre (F32 0) = b ->
  (forall j, (j < length pre)%nat -> f32_leb (nth j pre (F32 0)) b = true) ->
  (forall j, (j < bi)%nat -> f32_leb b (nth j pre (F32 0)) = false) ->
  is_first_max32 (pre ++ t) (argmax32_from bi b (length pre) t).
Proof.
  revert pre bi b. induction t as [| x t IH]; intros pre bi b Hbi Hb Hmax Hfst.
  - simpl. rewrite app_nil_r. unfold is_first_max32. rewrite Hb.
    split; [exact Hbi |]. split.
    + intros j Hj. right. now apply Hmax.
    + intros j Hj [Hnan | Hle].
      * assert (H : (j < length pre)%nat) by lia.
        destruct (f32_leb_notnan _ _ (Hmax j H)). congruence.
      * rewrite (Hfst j Hj) in Hle. discriminate.
  - simpl.
    assert (Hlen : length (pre ++ [x]) = S (length pre))
      by (rewrite length_app; simpl; lia).
    assert (Hbn : f32_isnan b = false)
      by (destruct (f32_leb_notnan _ _ (Hmax bi Hbi)); assumption).
    destruct (f32_leb x b) eqn:Hxb.
    + replace (pre ++ x :: t) with ((pre ++ [x]) ++ t)
        by (rewrite <- app_assoc; reflexivity).
      rewrite <- Hlen. apply IH.
      * lia.
      * rewrite app_nth1 by lia. exact Hb.
      * intros j Hj. rewrite Hlen in Hj.
        destruct (Nat.eq_dec j (length pre)) as [-> | Hne].
        -- rewrite app_nth2 by lia. rewrite Nat.sub_diag. exact Hxb.
        -- rewrite app_nth1 by lia. apply Hmax. lia.
      * intros j Hj. rewrite app_nth1 by lia. now apply Hfst.
    + destruct (f32_isnan x) eqn:Hxn.
      * unfold is_first_max32. rewrite length_app. simpl.
        rewrite app_nth2 by lia. rewrite Nat.sub_diag. simpl.
        split; [lia |]. split.
        -- intros j Hj. left. exact Hxn.
        -- intros j Hj [Hnan | Hle].
           ++ rewrite app_nth1 in Hnan by lia.
              destruct (f32_leb_notnan _ _ (Hmax j Hj)). congruence.
           ++ destruct (f32_leb_notnan _ _ Hle). congruence.
      * replace (pre ++ x :: t) with ((pre ++ [x]) ++ t)
          by (rewrite <- app_assoc; reflexivity).
        rewrite <- Hlen.
        assert (Hbx : f32_leb b x = true) by now apply f32_leb_total.
        apply IH.
        -- lia.
        -- rewrite app_nth2 by lia. rewrite Nat.sub_diag. reflexivity.
        -- intros j Hj. rewrite Hlen in Hj.
           destruct (Nat.eq_dec j (length pre)) as [-> | Hne].
           ++ rewrite app_nth2 by lia. rewrite Nat.sub_diag. simpl.
              now apply f32_leb_refl.
           ++ rewrite app_nth1 by lia.
              apply f32_leb_trans with (y := b); [apply Hmax; lia | exact Hbx].
        -- intros j Hj. rewrite app_nth1 by lia.
           destruct (f32_leb x (nth j pre (F32 0))) eqn:E; [| reflexivity].
           rewrite (f32_leb_trans _ _ _ E (Hmax j Hj)) in Hxb. discriminate.
Qed.

Lemma np_argmax32_spec (a : list f32) (k : nat) :
  np_argmax32 a = Ok k -> is_first_max32 a k.
Proof.
  destruct a as [| x t]; simpl; [discriminate |].
  destruct (f32_isnan x) eqn:Hx; intros H; inversion H; subst.
  - unfold is_first_max32. simpl. split; [lia |]. split.
    + intros j _. left. exact Hx.
    + intros j Hj. lia.
  - apply (argmax32_from_spec t [x] 0 x); simpl; try lia; try reflexivity.
    intros j Hj. assert (j = 0)%nat as -> by lia. simpl.
    now apply f32_leb_refl.
Qed.

Lemma np_argmax32_nonempty (a : list f32) :
  a <> [] -> exists k, np_argmax32 a = Ok k.
Proof.
  destruct a as [| x t]; [congruence |]. intros _. simpl.
  destruct (f32_isnan x); eauto.
Qed.

Lemma is_first_max32_unique (l : list f32) (k1 k2 : nat) :
  is_first_max32 l k1 -> is_first_max32 l k2 -> k1 = k2.
Proof.
  intros (H1 & M1 & F1) (H2 & M2 & F2).
  destruct (Nat.lt_trichotomy k1 k2) as [Hlt | [Heq | Hgt]]; [| exact Heq |].
  - exfalso. apply (F2 k1 Hlt). now apply M1.
  - exfalso. apply (F1 k2 Hgt). now apply M2.
Qed.

(** On finite values the two embeddings of [argmax] agree. *)
Lemma argmax32_from_finite (t : list R) (bi : nat) (b : R) (i : nat) :
  argmax32_from bi (F32 b) i (map F32 t) = argmax_from bi b i t.
Proof.
  revert bi b i. induction t as [| x t IH]; intros bi b i; simpl.
  - reflexivity.
  - destruct (Rle_dec x b) as [H1 | H1], (Rlt_dec b x) as [H2 | H2];
      try lra; apply IH.
Qed.

Lemma np_argmax32_finite (a : list R) :
  np_argmax32 (map F32 a) = np_argmax a.
Proof.
  destruct a as [| x t]; simpl; [reflexivity |].
  now rewrite argmax32_from_finite.
Qed.

Lemma nth_map_in {A B} (f : A -> B) (l : list A) (j : nat) (d : A) (d' : B) :
  (j < length l)%nat -> nth j (map f l) d' = f (nth j l d).
Proof.
  intros Hj. rewrite nth_indep with (d' := f d) by (now rewrite length_map).
  apply map_nth.
Qed.

(** A map of the values that keeps their order does not move the argmax. *)
Lemma np_argmax32_map (g : f32 -> f32) (row : list f32) :
  (forall x y, In x row -> In y row -> (np_le (g x) (g y) <-> np_le x y)) ->
  np_argmax32 (map g row) = np_argmax32 row.
Proof.
  intros Hg.
  destruct row as [| x t] eqn:E; [reflexivity |]. rewrite <- E in *.
  assert (Hne : row <> []) by (subst; discriminate).
  destruct (np_argmax32_nonempty row Hne) as [k Hk].
  destruct (np_argmax32_nonempty (map g row)) as [k' Hk'].
  { subst row. discriminate. }
  rewrite Hk, Hk'. f_equal.
  apply np_argmax32_spec in Hk, Hk'.
  apply (is_first_max32_unique row); [| exact Hk].
  destruct Hk' as (Hl & Hmax & Hfst). rewrite length_map in Hl, Hmax.
  split; [exact Hl |]. split.
  - intros j Hj. specialize (Hmax j Hj).
    rewrite (nth_map_in g row j (F32 0)) in Hmax by exact Hj.
    rewrite (nth_map_in g row k' (F32 0)) in Hmax by exact Hl.
    apply Hg; [apply nth_In; lia | apply nth_In; lia | exact Hmax].
  - intros j Hj Hle. apply (Hfst j Hj).
    rewrite (nth_map_in g row j (F32 0)) by lia.
    rewrite (nth_map_in g row k' (F32 0)) by exact Hl.
    apply Hg; [apply nth_In; lia | apply nth_In; lia | exact Hle].
Qed.


Lemma mapM_map {A B C} (f : B -> result C) (g : A -> B) (l : list A) :
  mapM f (map g l) = mapM (fun x => f (g x)) l.
Proof.
  induction l as [| x t IH]; simpl; [reflexivity |]. now rewrite IH.
Qed.

Lemma mapM_ext {A B} (f g : A -> result B) (l : list A) :
  (forall x, f x = g x) -> mapM f l = mapM g l.
Proof.
  intros H. induction l as [| x t IH]; simpl; [reflexivity |].
  now rewrite H, IH.
Qed.

Lemma mapM_ext_in {A B} (f g : A -> result B) (l : list A) :
  (forall x, In x l -> f x = g x) -> mapM f l = mapM g l.
Proof.
  intros H. induction l as [| x t IH]; simpl; [reflexivity |].
  rewrite H by (now left). rewrite IH; [reflexivity |].
  intros y Hy. apply H. now right.
Qed.

Lemma argmax32_axis1_finite (a : ndarray2) :
  argmax32_axis1 (as_f32 a) = argmax_axis1 a.
Proof.
  unfold argmax32_axis1, argmax_axis1, as_f32. rewrite mapM_map.
  apply mapM_ext. apply np_argmax32_finite.
Qed.

Lemma argmax_axis1_spec (a : ndarray2) (arPred : list nat) :
  argmax_axis1 a = Ok arPred ->
  length arPred = length a /\
  forall i, (i < length a)%nat -> is_first_max (nth i a []) (nth i arPred 0%nat).
Proof.
  intros H. split; [now apply mapM_length in H |].
  intros i Hi.
  destruct (nth_error a i) as [row |] eqn:Hrow;
    [| apply nth_error_None in Hrow; lia].
  destruct (mapM_nth_error _ _ _ _ _ H Hrow) as (k & Hk & Hnk).
  rewrite (nth_error_nth _ _ _ Hrow), (nth_error_nth _ _ _ Hnk).
  now apply np_argmax_spec.
Qed.

Lemma argmax32_axis1_spec (a : ndarray32) (arPred : list nat) :
  argmax32_axis1 a = Ok arPred ->
  length arPred = length a /\
  forall i, (i < length a)%nat ->
    is_first_max32 (nth i a []) (nth i arPred 0%nat).
Proof.
  intros H. split; [now apply mapM_length in H |].
  intros i Hi.
  destruct (nth_error a i) as [row |] eqn:Hrow;
    [| apply nth_error_None in Hrow; lia].
  destruct (mapM_nth_error _ _ _ _ _ H Hrow) as (k & Hk & Hnk).
  rewrite (nth_error_nth _ _ _ Hrow), (nth_error_nth _ _ _ Hnk).
  now apply np_argmax32_spec.
Qed.

(** ** softmax *)

Lemma softmax_row_length {ar : Float32Arith} (row : list f32) :
  length (softmax_row row) = length row.
Proof. unfold softmax_row. now rewrite !length_map. Qed.

Lemma softmax_row_map {ar : Float32Arith} (row : list f32) :
  softmax_row row =
  map (fun v => f32_div (np_exp v) (np_sum (map np_exp row))) row.
Proof. unfold softmax_row. now rewrite map_map. Qed.

Lemma softmax_row_nth {ar : Float32Arith} (row : list f32) (j : nat) :
  (j < length row)%nat ->
  nth j (softmax_row row) (F32 0) =
  f32_div (np_exp (nth j row (F32 0))) (np_sum (map np_exp row)).
Proof.
  intros Hj. rewrite softmax_row_map.
  now rewrite (nth_map_in _ row j (F32 0)).
Qed.

(** ** Accuracy *)

Lemma count_true_map {A} (f : A -> bool) (l : list A) :
  count_true (map f l) = length (filter f l).
Proof.
  unfold count_true. induction l as [| x t IH]; simpl; [reflexivity |].
  destruct (f x); simpl; now rewrite IH.
Qed.

Lemma list_eq_series_correct_at (oClasses : VideoClasses)
    (liLabels : list string) (arPred : list nat) (sePred : list string) :
  loc_sClass oClasses arPred = Ok sePred ->
  length liLabels = length sePred ->
  map (fun p => String.eqb (fst p) (snd p)) (combine liLabels sePred) =
  map (correct_at oClasses liLabels arPred) (seq 0 (length liLabels)).
Proof.
  unfold loc_sClass. revert arPred sePred.
  induction liLabels as [| lab ls IH]; intros arPred sePred Hloc Hlen.
  - reflexivity.
  - destruct sePred as [| s ss]; [discriminate |].
    destruct arPred as [| k ps]; [discriminate |].
    simpl in Hloc.
    destruct (series_get oClasses sClass k) as [s' |] eqn:Hk; [| discriminate].
    destruct (mapM (series_get oClasses sClass) ps) as [ss' |] eqn:Hps;
      [| discriminate].
    simpl in Hloc. inversion Hloc; subst s' ss'. clear Hloc.
    simpl. f_equal.
    + unfold correct_at. simpl. unfold series_get in Hk.
      destruct (nth_error (dfClass oClasses) k); inversion Hk. reflexivity.
    + rewrite <- seq_shift, map_map.
      rewrite (IH ps ss Hps) by (simpl in Hlen; lia).
      apply map_ext. intros i. reflexivity.
Qed.

Lemma accuracy_correct (oClasses : VideoClasses)
    (liLabels : list string) (arPred : list nat) (sePred : list string)
    (arEq : list bool) :
  loc_sClass oClasses arPred = Ok sePred ->
  list_eq_series liLabels sePred = Ok arEq ->
  liLabels <> [] ->
  length arPred = length liLabels /\
  np_mean arEq =
    Fin (accuracy_spec oClasses liLabels arPred (length liLabels)).
Proof.
  intros Hloc Heq Hne. unfold list_eq_series in Heq.
  destruct (Nat.eqb (length liLabels) (length sePred)) eqn:Hlen;
    [| discriminate].
  apply Nat.eqb_eq in Hlen. inversion Heq as [E]. clear Heq.
  split.
  - unfold loc_sClass in Hloc. apply mapM_length in Hloc. lia.
  - rewrite (list_eq_series_correct_at _ _ _ _ Hloc Hlen).
    destruct liLabels as [| lab ls]; [congruence |].
    unfold accuracy_spec.
    set (f := correct_at oClasses (lab :: ls) arPred).
    set (n := length (lab :: ls)).
    assert (Hn : seq 0 n <> []) by (subst n; simpl; discriminate).
    unfold np_mean. destruct (map f (seq 0 n)) as [| b bs] eqn:Hm.
    + destruct (seq 0 n); [congruence | discriminate].
    + rewrite <- Hm. rewrite count_true_map, length_map, length_seq.
      reflexivity.
Qed.

(** ** Sums of score arrays *)



Lemma as_f32_has_shape (n c : nat) (a : ndarray2) :
  has_shape n c a -> has_shape n c (as_f32 a).
Proof.
  intros [Hl Hc]. split; unfold as_f32.
  - now rewrite length_map.
  - rewrite Forall_map. eapply Forall_impl; [| exact Hc].
    intros r Hr. simpl. now rewrite length_map.
Qed.


Lemma softmax_is_softmax_of {ar : Float32Arith} (a : ndarray32) :
  is_softmax_of a (softmax a).
Proof.
  unfold is_softmax_of, softmax. split; [apply length_map |].
  intros i Hi. unfold entry32.
  rewrite (nth_map_in softmax_row a i []) by exact Hi.
  split; [apply softmax_row_length |].
  intros j Hj. now apply softmax_row_nth.
Qed.

Lemma fuse_inv {ar : Float32Arith} (arSoftmax : ndarray32)
    (liLabels : list string) (oClasses : VideoClasses) arProba arPred fAcc :
  fuse arSoftmax liLabels oClasses = Ok (arProba, arPred, fAcc) ->
  arProba = softmax arSoftmax /\
  argmax32_axis1 arProba = Ok arPred /\
  exists sePred arEq,
    loc_sClass oClasses arPred = Ok sePred /\
    list_eq_series liLabels sePred = Ok arEq /\
    fAcc = np_mean arEq.
Proof.
  unfold fuse. intros H.
  destruct (argmax32_axis1 (softmax arSoftmax)) as [p |] eqn:Hp;
    [| discriminate].
  simpl in H.
  destruct (loc_sClass oClasses p) as [se |] eqn:Hse; [| discriminate].
  simpl in H.
  destruct (list_eq_series liLabels se) as [eq |] eqn:Heq; [| discriminate].
  simpl in H. inversion H; subst. eauto 10.
Qed.

Lemma fuse_spec {ar : Float32Arith} (arSoftmax : ndarray32)
    (liLabels : list string) (oClasses : VideoClasses) arProba arPred fAcc :
  fuse arSoftmax liLabels oClasses = Ok (arProba, arPred, fAcc) ->
  liLabels <> [] ->
  ensemble_spec arSoftmax arProba arPred fAcc liLabels oClasses.
Proof.
  intros H Hne.
  destruct (fuse_inv _ _ _ _ _ _ H) as (-> & Hp & se & eq & Hse & Heq & ->).
  destruct (argmax32_axis1_spec _ _ Hp) as [Hl Hmax].
  destruct (accuracy_correct _ _ _ _ _ Hse Heq Hne) as [_ Hacc].
  unfold ensemble_spec. split; [apply softmax_is_softmax_of |].
  split; [exact Hl |]. split; [exact Hmax | exact Hacc].
Qed.


Lemma argmax_axis1_total (n c : nat) (m : ndarray2) :
  has_shape n c m -> (0 < c)%nat ->
  exists arPred, argmax_axis1 m = Ok arPred /\
                 length arPred = n /\ Forall (fun k => (k < c)%nat) arPred.
Proof.
  intros [Hl Hc] Hpos.
  destruct (mapM_total np_argmax m) as [p Hp].
  { intros r Hr. apply np_argmax_nonempty. rewrite Forall_forall in Hc.
    specialize (Hc r Hr). destruct r; simpl in *; [lia | discriminate]. }
  exists p. split; [exact Hp |]. split.
  - apply mapM_length in Hp. lia.
  - apply Forall_forall. intros k Hk.
    destruct (In_nth_error _ _ Hk) as [i Hi].
    assert (Hil : (i < length m)%nat).
    { apply mapM_length in Hp. rewrite <- Hp. apply nth_error_Some. congruence. }
    destruct (nth_error m i) as [row |] eqn:Hrow;
      [| apply nth_error_None in Hrow; lia].
    destruct (mapM_nth_error _ _ _ _ _ Hp Hrow) as (k' & Hk' & Hnk).
    assert (k' = k) by congruence. subst k'.
    apply np_argmax_spec in Hk'. destruct Hk' as [Hlt _].
    rewrite Forall_forall in Hc. rewrite <- (Hc row); [exact Hlt |].
    eapply nth_error_In; eauto.
Qed.


Lemma loc_sClass_total (oClasses : VideoClasses) (arPred : list nat) (c : nat) :
  Forall (fun k => (k < c)%nat) arPred -> (c <= length (dfClass oClasses))%nat ->
  exists sePred, loc_sClass oClasses arPred = Ok sePred.
Proof.
  intros Hp Hc. apply mapM_total. intros k Hk.
  rewrite Forall_forall in Hp. specialize (Hp k Hk).
  unfold series_get.
  destruct (nth_error (dfClass oClasses) k) eqn:E; [eauto |].
  apply nth_error_None in E. lia.
Qed.


(** ** Running the script *)

Lemma bind_eval {A B} (m : M A) (f : A -> M B) t a t' r :
  m = (t, Ok a) -> f a = (t', r) -> bind m f = (t ++ t', r).
Proof. intros -> Hf. unfold bind. now rewrite Hf. Qed.

Lemma bind_lift_Ok {A B} (r : result A) (f : A -> M B) a :
  r = Ok a -> bind (lift r) f = f a.
Proof. intros ->. unfold bind, lift. now destruct (f a). Qed.

Lemma bind_emit {B} (ev : event) (f : unit -> M B) :
  bind (emit ev) f = (ev :: fst (f tt), snd (f tt)).
Proof. unfold bind, emit. now destruct (f tt). Qed.

Lemma predict_generator_run (w : World) (sFeatureDir sModelPath : string)
    (oClasses : VideoClasses) (nBatchSize : nat) :
  let keModel := load_model w sModelPath in
  let genFeatures :=
    new_FeaturesGenerator w sFeatureDir nBatchSize
      (skipn 1 (input_shape keModel)) (liClasses oClasses) false in
  let arProba := km_predict_generator keModel genFeatures in
  predict_generator w sFeatureDir sModelPath oClasses nBatchSize =
  if Nat.eqb (nSamples genFeatures) 0
  then (pg_trace_load sModelPath,
        Raise (ValueError "No feature files detected, prediction stopped"))
  else if negb (Nat.eqb (length arProba) (nSamples genFeatures))
  then (pg_trace_load sModelPath ++ pg_trace_infer sFeatureDir keModel genFeatures,
        Raise (ValueError "Unexpected number of predictions"))
  else (pg_trace_load sModelPath ++ pg_trace_infer sFeatureDir keModel genFeatures,
        pg_result oClasses arProba (dfSamples_sLabel genFeatures)).
Proof.
  intros keModel genFeatures arProba. unfold predict_generator.
  fold keModel. fold genFeatures. fold arProba.
  unfold print. rewrite !bind_emit. cbv beta.
  destruct (Nat.eqb (nSamples genFeatures) 0); [reflexivity |].
  rewrite ?bind_emit. cbv beta.
  destruct (negb (Nat.eqb (length arProba) (nSamples genFeatures)));
    [reflexivity |].
  unfold pg_result.
  destruct (argmax_axis1 arProba) as [p |]; [| reflexivity].
  rewrite (bind_lift_Ok _ _ p eq_refl). cbn [rbind].
  destruct (loc_sClass oClasses p) as [se |]; [| reflexivity].
  rewrite (bind_lift_Ok _ _ se eq_refl). cbn [rbind].
  destruct (list_eq_series (dfSamples_sLabel genFeatures) se) as [eq |];
    reflexivity.
Qed.

Lemma pg_result_inv (oClasses : VideoClasses) (arProba : ndarray2)
    (liLabels : list string) fAcc arPred arProba' liLabels' :
  pg_result oClasses arProba liLabels = Ok (fAcc, arPred, arProba', liLabels') ->
  arProba' = arProba /\ liLabels' = liLabels /\
  argmax_axis1 arProba = Ok arPred /\
  exists sePred arEq,
    loc_sClass oClasses arPred = Ok sePred /\
    list_eq_series liLabels sePred = Ok arEq /\
    fAcc = np_mean arEq.
Proof.
  unfold pg_result. intros H.
  destruct (argmax_axis1 arProba) as [p |] eqn:Hp; [| discriminate].
  simpl in H.
  destruct (loc_sClass oClasses p) as [se |] eqn:Hse; [| discriminate].
  simpl in H.
  destruct (list_eq_series liLabels se) as [eq |] eqn:Heq; [| discriminate].
  simpl in H. inversion H; subst. eauto 10.
Qed.

Lemma predict_generator_inv (w : World) (sFeatureDir sModelPath : string)
    (oClasses : VideoClasses) (nBatchSize : nat) tr fAcc arPred arProba liLabels :
  predict_generator w sFeatureDir sModelPath oClasses nBatchSize =
    (tr, Ok (fAcc, arPred, arProba, liLabels)) ->
  let keModel := load_model w sModelPath in
  let genFeatures :=
    new_FeaturesGenerator w sFeatureDir nBatchSize
      (skipn 1 (input_shape keModel)) (liClasses oClasses) false in
  nSamples genFeatures <> 0%nat /\
  length arProba = nSamples genFeatures /\
  tr = pg_trace_load sModelPath ++ pg_trace_infer sFeatureDir keModel genFeatures /\
  pg_result oClasses (km_predict_generator keModel genFeatures)
    (dfSamples_sLabel genFeatures) = Ok (fAcc, arPred, arProba, liLabels).
Proof.
  intros H keModel genFeatures. rewrite predict_generator_run in H.
  fold keModel in H. fold genFeatures in H.
  destruct (Nat.eqb (nSamples genFeatures) 0) eqn:E0; [discriminate |].
  destruct (Nat.eqb (length (km_predict_generator keModel genFeatures))
                    (nSamples genFeatures)) eqn:E1; simpl in H; [| discriminate].
  apply Nat.eqb_neq in E0. apply Nat.eqb_eq in E1.
  inversion H as [[Ht Hr]].
  destruct (pg_result_inv _ _ _ _ _ _ _ Hr) as (-> & _).
  auto.
Qed.

Lemma bind_assoc {A B C} (m : M A) (f : A -> M B) (g : B -> M C) :
  bind (bind m f) g = bind m (fun x => bind (f x) g).
Proof.
  destruct m as [t [a | e]]; simpl; [| reflexivity].
  destruct (f a) as [t' [b | e]]; simpl; [| reflexivity].
  destruct (g b) as [t'' r]. now rewrite app_assoc.
Qed.

Lemma bind_ext {A B} (m : M A) (f g : A -> M B) :
  (forall a, f a = g a) -> bind m f = bind m g.
Proof. intros H. destruct m as [t [a | e]]; simpl; [now rewrite H | reflexivity]. Qed.

Lemma bind_ret_l {A B} (a : A) (f : A -> M B) : bind (ret a) f = f a.
Proof. unfold bind, ret. now destruct (f a). Qed.

Lemma main_split {ar : Float32Arith} (w : World) :
  main w =
  bind (main_models w) (fun x =>
    match x with
    | (ib, il, ob, ol, l_ib, l_ob) =>
        main_fusion (read_VideoClasses w sClassFile) ib il ob ol l_ib l_ob
    end).
Proof.
  unfold main, main_models.
  repeat (rewrite bind_assoc; apply bind_ext; intros).
  repeat match goal with x : (_ * _)%type |- _ => destruct x end.
  repeat (rewrite bind_assoc; apply bind_ext; intros).
  repeat match goal with x : (_ * _)%type |- _ => destruct x end.
  repeat (rewrite bind_assoc; apply bind_ext; intros).
  repeat match goal with x : (_ * _)%type |- _ => destruct x end.
  repeat (rewrite bind_assoc; apply bind_ext; intros).
  repeat match goal with x : (_ * _)%type |- _ => destruct x end.
  repeat (rewrite bind_assoc; apply bind_ext; intros).
  rewrite bind_ret_l. reflexivity.
Qed.

Lemma bind_Forall {A B} (P : event -> Prop) (m : M A) (f : A -> M B) :
  Forall P (fst m) -> (forall a, Forall P (fst (f a))) ->
  Forall P (fst (bind m f)).
Proof.
  intros Hm Hf. destruct m as [t [a | e]]; simpl in *; [| exact Hm].
  specialize (Hf a). destruct (f a) as [t' r]. simpl in *.
  apply Forall_app. auto.
Qed.

Lemma predict_generator_no_fused (w : World) (sFeatureDir sModelPath : string)
    (oClasses : VideoClasses) (nBatchSize : nat) :
  no_fused (fst (predict_generator w sFeatureDir sModelPath oClasses nBatchSize)).
Proof.
  rewrite predict_generator_run.
  repeat match goal with |- context [if ?b then _ else _] => destruct b end;
    simpl; repeat constructor.
Qed.

Lemma print_no_fused (m : message) :
  is_fused_accuracy (EvPrint m) = false -> no_fused (fst (print m)).
Proof. intros H. simpl. constructor; [exact H | constructor]. Qed.

Lemma main_models_no_fused (w : World) : no_fused (fst (main_models w)).
Proof.
  unfold main_models, no_fused.
  repeat first
    [ apply predict_generator_no_fused
    | apply print_no_fused; reflexivity
    | match goal with x : (_ * _)%type |- _ => destruct x end
    | match goal with x : unit |- _ => destruct x end
    | apply bind_Forall; [| intros]
    | constructor ].
Qed.

Section MainRuns.

Context {ar : Float32Arith}.

Variable w : World.
Let oClasses := read_VideoClasses w sClassFile.

Variables (t1 t2 t3 t4 : list event) (a1 a2 a3 a4 : npfloat).
Variables (p1 p2 p3 p4 : list nat) (ib il ob ol : ndarray2).
Variables (l1 l2 l3 l4 : list string).

Hypothesis H1 :
  predict_generator w sImageFeatureDir sModelImageBest oClasses
    nBatchSize_default = (t1, Ok (a1, p1, ib, l1)).
Hypothesis H2 :
  predict_generator w sImageFeatureDir sModelImageLast oClasses
    nBatchSize_default = (t2, Ok (a2, p2, il, l2)).
Hypothesis H3 :
  predict_generator w sOflowFeatureDir sModelOflowBest oClasses
    nBatchSize_default = (t3, Ok (a3, p3, ob, l3)).
Hypothesis H4 :
  predict_generator w sOflowFeatureDir sModelOflowLast oClasses
    nBatchSize_default = (t4, Ok (a4, p4, ol, l4)).

Lemma main_models_run :
  main_models w =
  (models_trace w t1 a1 t2 a2 t3 a3 t4 a4, Ok (ib, il, ob, ol, l1, l3)).
Proof.
  unfold main_models, models_trace. fold oClasses.
  eapply bind_eval; [reflexivity |].
  eapply bind_eval; [reflexivity |].
  eapply bind_eval; [exact H1 | cbv beta iota].
  eapply bind_eval; [reflexivity |].
  eapply bind_eval; [exact H2 | cbv beta iota].
  eapply bind_eval; [reflexivity |].
  eapply bind_eval; [exact H3 | cbv beta iota].
  eapply bind_eval; [reflexivity |].
  eapply bind_eval; [exact H4 | cbv beta iota].
  unfold print. rewrite bind_emit. reflexivity.
Qed.

Lemma main_run :
  main w =
  (models_trace w t1 a1 t2 a2 t3 a3 t4 a4
     ++ fst (main_fusion oClasses ib il ob ol l1 l3),
   snd (main_fusion oClasses ib il ob ol l1 l3)).
Proof.
  rewrite main_split, (bind_Ok _ _ _ _ main_models_run). reflexivity.
Qed.


End MainRuns.

Lemma labels_neqb_true (l1 l2 : list string) :
  labels_neqb l1 l2 = true <-> l1 <> l2.
Proof.
  unfold labels_neqb. destruct (list_eq_dec string_dec l1 l2); split;
    congruence.
Qed.

Lemma labels_neqb_false (l1 l2 : list string) :
  labels_neqb l1 l2 = false <-> l1 = l2.
Proof.
  unfold labels_neqb. destruct (list_eq_dec string_dec l1 l2); split;
    congruence.
Qed.

Lemma main_fusion_mismatch {ar : Float32Arith} (oClasses : VideoClasses)
    (ib il ob ol : ndarray2)
    (l_ib l_ob : list string) :
  l_ib <> l_ob ->
  main_fusion oClasses ib il ob ol l_ib l_ob =
  ([], Raise (ValueError "The rgb and flwo labels do not match")).
Proof.
  intros H. unfold main_fusion.
  now rewrite (proj2 (labels_neqb_true _ _) H).
Qed.



Lemma main_fusion_run {ar : Float32Arith} (oClasses : VideoClasses)
    (ib il ob ol : ndarray2)
    (liLabels : list string) (s1 s2 s3 p1 p2 p3 : ndarray32)
    (d1 d2 d3 : list nat) (f1 f2 f3 : npfloat) :
  sum_last il ol = Ok s1 -> fuse s1 liLabels oClasses = Ok (p1, d1, f1) ->
  sum_oflow ob ol = Ok s2 -> fuse s2 liLabels oClasses = Ok (p2, d2, f2) ->
  sum_all ib il ob ol = Ok s3 -> fuse s3 liLabels oClasses = Ok (p3, d3, f3) ->
  main_fusion oClasses ib il ob ol liLabels liLabels =
  ([EvPrint (MsgAccuracy caption_last (percent f1));
    EvPrint (MsgAccuracy caption_oflow (percent f2));
    EvPrint (MsgAccuracy caption_all (percent f3))], Ok tt).
Proof.
  intros E1 F1 E2 F2 E3 F3. unfold main_fusion.
  rewrite (proj2 (labels_neqb_false liLabels liLabels) eq_refl).
  rewrite (bind_lift_Ok _ _ _ E1), (bind_lift_Ok _ _ _ F1). cbv beta iota.
  unfold print. rewrite bind_emit.
  rewrite (bind_lift_Ok _ _ _ E2), (bind_lift_Ok _ _ _ F2). cbv beta iota.
  rewrite bind_emit.
  rewrite (bind_lift_Ok _ _ _ E3), (bind_lift_Ok _ _ _ F3). cbv beta iota.
  rewrite bind_emit. reflexivity.
Qed.

(** ** predict *)

Lemma shape_eqb_spec (s : list (option nat)) (t : list nat) :
  shape_eqb s t = true <-> s = map Some t.
Proof.
  revert t. induction s as [| d s IH]; intros [| n t]; simpl;
    try (split; [discriminate | discriminate]); [tauto |].
  rewrite andb_true_iff, IH. destruct d as [m |]; simpl.
  - rewrite Nat.eqb_eq. split; [intros [-> ->]; reflexivity |].
    intros H. inversion H. auto.
  - split; [intros [H _]; discriminate | discriminate].
Qed.

Lemma bind_no_ValueError {A B} (m : M A) (f : A -> M B) :
  no_ValueError (snd m) -> (forall a, no_ValueError (snd (f a))) ->
  no_ValueError (snd (bind m f)).
Proof.
  intros Hm Hf. destruct m as [t [a | e]]; simpl in *; [| exact Hm].
  specialize (Hf a). now destruct (f a).
Qed.

Lemma getitem_no_ValueError {A} (a : list A) (i : nat) :
  no_ValueError (getitem a i).
Proof. unfold getitem. now destruct (nth_error a i). Qed.

Lemma series_get_no_ValueError (oClasses : VideoClasses) col (k : nat) :
  no_ValueError (series_get oClasses col k).
Proof. unfold series_get. now destruct (nth_error (dfClass oClasses) k). Qed.

Lemma mapM_no_ValueError {A B} (f : A -> result B) (l : list A) :
  (forall x, no_ValueError (f x)) -> no_ValueError (mapM f l).
Proof.
  intros Hf. induction l as [| x t IH]; simpl; [exact I |].
  specialize (Hf x). destruct (f x) as [y | e]; simpl; [| exact Hf].
  destruct (mapM f t) as [ys | e]; simpl; [exact I | exact IH].
Qed.

Lemma for_no_ValueError {A} (l : list A) (body : A -> M unit) :
  (forall x, no_ValueError (snd (body x))) ->
  no_ValueError (snd (for_ l body)).
Proof.
  intros Hb. induction l as [| x t IH]; simpl; [exact I |].
  apply bind_no_ValueError; auto.
Qed.

Lemma for_total {A} (l : list A) (body : A -> M unit) :
  (forall x, In x l -> exists t, body x = (t, Ok tt)) ->
  exists t, for_ l body = (t, Ok tt).
Proof.
  induction l as [| x l IH]; intros H; simpl.
  - eexists. reflexivity.
  - destruct (H x) as [t1 H1]; [now left |].
    destruct IH as [t2 H2]; [intros; apply H; now right |].
    exists (t1 ++ t2). eapply bind_eval; eauto.
Qed.

Lemma StronglySorted_last {A} (R : A -> A -> Prop) (l : list A) (k : A) :
  StronglySorted R (l ++ [k]) -> Forall (fun x => R x k) l.
Proof.
  induction l as [| x l IH]; simpl; intros H; [constructor |].
  inversion H as [| ? ? Hs Hf]; subst. constructor.
  - apply Forall_app in Hf. destruct Hf as [_ Hk]. now inversion Hk.
  - now apply IH.
Qed.

Lemma py_slice_from_skipn {A} (k : Z) (a : list A) :
  exists m, py_slice_from k a = skipn m a.
Proof. unfold py_slice_from. destruct (k <? 0)%Z; eauto. Qed.

Lemma rev_head_last {A} (l : list A) (k : A) :
  nth_error (rev l) 0 = Some k -> exists l0, l = l0 ++ [k].
Proof.
  intros H. destruct (rev l) as [| x r] eqn:E; [discriminate |].
  simpl in H. inversion H; subst x. exists (rev r).
  rewrite <- (rev_involutive l), E. reflexivity.
Qed.

(** The last index listed by [argsort] is an index of a largest value. *)
Lemma argsort_last_max (argsort : list R -> list nat) (a : list R)
    (pre : list nat) (k : nat) :
  argsort_spec argsort -> argsort a = pre ++ [k] ->
  (k < length a)%nat /\
  forall j, (j < length a)%nat -> nth j a 0 <= nth k a 0.
Proof.
  intros Hspec E. destruct (Hspec a) as [Hperm Hsort]. rewrite E in *.
  split.
  - assert (In k (seq 0 (length a))).
    { eapply Permutation_in; [exact Hperm |]. apply in_or_app. right. now left. }
    apply in_seq in H. lia.
  - intros j Hj.
    assert (Hin : In j (pre ++ [k])).
    { eapply Permutation_in; [apply Permutation_sym; exact Hperm |].
      apply in_seq. lia. }
    apply in_app_or in Hin. destruct Hin as [Hin | [-> | []]]; [| lra].
    apply StronglySorted_last in Hsort. rewrite Forall_forall in Hsort.
    now apply Hsort.
Qed.

Lemma take_nth_error {A} (a : list A) (idx : list nat) (out : list A)
    (i k : nat) :
  take a idx = Ok out -> nth_error idx i = Some k ->
  exists x, nth_error a k = Some x /\ nth_error out i = Some x.
Proof.
  intros Ht Hi. unfold take in Ht.
  destruct (mapM_nth_error _ _ _ _ _ Ht Hi) as (x & Hx & Ho).
  exists x. split; [| exact Ho]. unfold getitem in Hx.
  destruct (nth_error a k); inversion Hx. reflexivity.
Qed.

Lemma getitem_Ok {A} (a : list A) (i : nat) (x : A) :
  getitem a i = Ok x <-> nth_error a i = Some x.
Proof.
  unfold getitem. destruct (nth_error a i); split; intros H; inversion H;
    reflexivity.
Qed.

Lemma predict_inv (argsort : list R -> list nat) (arFeatures : ndarray)
    (keModel : KerasModel) (oClasses : VideoClasses) (nTop : Z)
    tr nLabel sLabel fProba :
  predict argsort arFeatures keModel oClasses nTop =
    (tr, Ok (nLabel, sLabel, fProba)) ->
  let arProbas := km_predict keModel arFeatures in
  let arTopLabels := rev (py_slice_from (- nTop) (argsort arProbas)) in
  skipn 1 (input_shape keModel) = map Some (shape arFeatures) /\
  nth_error arTopLabels 0 = Some nLabel /\
  nth_error arProbas nLabel = Some fProba /\
  exists c d,
    series_get oClasses sClass nLabel = Ok c /\
    series_get oClasses sDetail nLabel = Ok d /\
    sLabel = (c ++ " " ++ d)%string.
Proof.
  intros H arProbas arTopLabels. unfold predict in H.
  fold arProbas in H. fold arTopLabels in H.
  destruct (shape_eqb (skipn 1 (input_shape keModel)) (shape arFeatures))
    eqn:Hs; simpl negb in H; cbv iota in H; [| discriminate].
  apply shape_eqb_spec in Hs. split; [exact Hs |].
  repeat match type of H with
  | bind _ _ = (_, Ok _) =>
      apply bind_inv_Ok in H;
      let t1 := fresh "t" in let a := fresh "a" in let t2 := fresh "t" in
      let Hm := fresh "Hm" in
      destruct H as (t1 & a & t2 & Hm & H & _)
  end.
  inversion H; subst. clear H.
  repeat match goal with
  | Hm : lift _ = (_, Ok _) |- _ => apply lift_inv_Ok in Hm; destruct Hm as [Hm _]
  end.
  match goal with Hk : getitem arTopLabels 0 = Ok _ |- _ =>
    apply getitem_Ok in Hk; rename Hk into HK end.
  match goal with Ht : take arProbas arTopLabels = Ok _ |- _ =>
    destruct (take_nth_error _ _ _ _ _ Ht HK) as (x & Hx & Ho) end.
  match goal with Hp : getitem _ 0 = Ok fProba |- _ =>
    apply getitem_Ok in Hp; rewrite Ho in Hp; inversion Hp; subst x end.
  eauto 10.
Qed.

Lemma series_get_total (oClasses : VideoClasses) col (k : nat) :
  (k < length (dfClass oClasses))%nat ->
  exists s, series_get oClasses col k = Ok s.
Proof.
  intros Hk. unfold series_get.
  destruct (nth_error (dfClass oClasses) k) eqn:E; [eauto |].
  apply nth_error_None in E. lia.
Qed.

Lemma getitem_total {A} (a : list A) (i : nat) :
  (i < length a)%nat -> exists x, getitem a i = Ok x.
Proof.
  intros Hi. unfold getitem. destruct (nth_error a i) eqn:E; [eauto |].
  apply nth_error_None in E. lia.
Qed.

Lemma predict_print_top_total (oClasses : VideoClasses)
    (arTopLabels : list nat) (arTopProbas : list R) (i : nat) :
  (i < length arTopLabels)%nat ->
  Forall (fun k => (k < length (dfClass oClasses))%nat) arTopLabels ->
  (i < length arTopProbas)%nat ->
  exists t, predict_print_top oClasses arTopLabels arTopProbas i = (t, Ok tt).
Proof.
  intros Hi Hall Hp. unfold predict_print_top.
  destruct (getitem_total arTopLabels i Hi) as [k Hk].
  assert (Hkc : (k < length (dfClass oClasses))%nat).
  { rewrite Forall_forall in Hall. apply Hall.
    apply getitem_Ok in Hk. eapply nth_error_In; eauto. }
  destruct (series_get_total oClasses sClass k Hkc) as [c Hc].
  destruct (series_get_total oClasses sDetail k Hkc) as [d Hd].
  destruct (getitem_total arTopProbas i Hp) as [p Hpp].
  rewrite (bind_lift_Ok _ _ _ Hk), (bind_lift_Ok _ _ _ Hc),
    (bind_lift_Ok _ _ _ Hd), (bind_lift_Ok _ _ _ Hpp).
  eexists. reflexivity.
Qed.

Lemma predict_total (argsort : list R -> list nat) (arFeatures : ndarray)
    (keModel : KerasModel) (oClasses : VideoClasses) (nTop : Z) :
  argsort_spec argsort ->
  skipn 1 (input_shape keModel) = map Some (shape arFeatures) ->
  (1 <= nTop <= Z.of_nat (length (km_predict keModel arFeatures)))%Z ->
  (length (km_predict keModel arFeatures) <= length (dfClass oClasses))%nat ->
  exists tr nLabel sLabel fProba,
    predict argsort arFeatures keModel oClasses nTop =
    (tr, Ok (nLabel, sLabel, fProba)).
Proof.
  intros Hspec Hshape HnTop Hcls. unfold predict.
  rewrite (proj2 (shape_eqb_spec _ _) Hshape). simpl negb. cbv iota.
  set (a := km_predict keModel arFeatures) in *.
  destruct (Hspec a) as [Hperm _].
  assert (Hlen : length (argsort a) = length a).
  { apply Permutation_length in Hperm. now rewrite length_seq in Hperm. }
  assert (Hrange : Forall (fun k => (k < length a)%nat) (argsort a)).
  { apply Forall_forall. intros k Hk.
    apply (Permutation_in _ Hperm) in Hk. apply in_seq in Hk. lia. }
  set (top := rev (py_slice_from (- nTop) (argsort a))).
  assert (Htop_len : length top = Z.to_nat nTop).
  { unfold top, py_slice_from. rewrite length_rev.
    replace (- nTop <? 0)%Z with true by (symmetry; apply Z.ltb_lt; lia).
    rewrite length_skipn. lia. }
  assert (Htop_range : Forall (fun k => (k < length a)%nat) top).
  { unfold top. apply Forall_rev.
    destruct (py_slice_from_skipn (- nTop) (argsort a)) as [m ->].
    rewrite <- (firstn_skipn m (argsort a)) in Hrange.
    apply Forall_app in Hrange. tauto. }
  destruct (mapM_total (getitem a) top) as [q Hq].
  { intros k Hk. apply getitem_total. rewrite Forall_forall in Htop_range.
    now apply Htop_range. }
  assert (Hq_len : length q = length top) by now apply mapM_length in Hq.
  assert (Htop_cls : Forall (fun k => (k < length (dfClass oClasses))%nat) top).
  { eapply Forall_impl; [| exact Htop_range]. simpl. intros. lia. }
  destruct (for_total (range nTop) (predict_print_top oClasses top q))
    as [tl Hloop].
  { intros i Hi. unfold range in Hi. apply in_seq in Hi.
    apply predict_print_top_total; auto; lia. }
  destruct (getitem_total top 0) as [k Hk]; [lia |].
  assert (Hkc : (k < length (dfClass oClasses))%nat).
  { rewrite Forall_forall in Htop_cls. apply Htop_cls.
    apply getitem_Ok in Hk. eapply nth_error_In; eauto. }
  destruct (series_get_total oClasses sClass k Hkc) as [c Hc].
  destruct (series_get_total oClasses sDetail k Hkc) as [d Hd].
  destruct (getitem_total q 0) as [p Hp]; [lia |].
  unfold print. rewrite !bind_emit. cbv beta.
  unfold take. rewrite (bind_lift_Ok _ _ _ Hq).
  fold top. rewrite (bind_Ok _ _ _ _ Hloop). cbv beta.
  rewrite (bind_lift_Ok _ _ _ Hk), (bind_lift_Ok _ _ _ Hc),
    (bind_lift_Ok _ _ _ Hd), (bind_lift_Ok _ _ _ Hp).
  eexists _, k, (c ++ " " ++ d)%string, p. reflexivity.
Qed.

(** ** insertion_argsort meets the contract of argsort *)

Lemma insert_index_perm (a : list R) (i : nat) (l : list nat) :
  Permutation (insert_index a i l) (i :: l).
Proof.
  induction l as [| j t IH]; simpl; [apply Permutation_refl |].
  destruct (Rle_dec (nth i a 0) (nth j a 0)); [apply Permutation_refl |].
  eapply perm_trans; [apply perm_skip; exact IH | apply perm_swap].
Qed.

Lemma insert_index_sorted (a : list R) (i : nat) (l : list nat) :
  StronglySorted (fun x y => nth x a 0 <= nth y a 0) l ->
  StronglySorted (fun x y => nth x a 0 <= nth y a 0) (insert_index a i l).
Proof.
  induction l as [| j t IH]; simpl; intros Hs.
  - constructor; constructor.
  - inversion Hs as [| ? ? Ht Hj]; subst.
    destruct (Rle_dec (nth i a 0) (nth j a 0)) as [Hle | Hgt].
    + constructor; [exact Hs |]. constructor; [exact Hle |].
      eapply Forall_impl; [| exact Hj]. simpl. intros x Hx. lra.
    + constructor; [now apply IH |].
      apply Forall_forall. intros x Hx.
      apply (Permutation_in _ (insert_index_perm a i t)) in Hx.
      destruct Hx as [<- | Hx]; [lra |].
      rewrite Forall_forall in Hj. now apply Hj.
Qed.

Lemma insertion_argsort_spec : argsort_spec insertion_argsort.
Proof.
  intros a. unfold insertion_argsort. generalize (seq 0 (length a)) as l.
  induction l as [| i l [IHp IHs]]; simpl.
  - split; constructor.
  - split.
    + eapply perm_trans; [apply insert_index_perm | now apply perm_skip].
    + now apply insert_index_sorted.
Qed.

Lemma demo_argmax_image : argmax_axis1 demo_proba_image = Ok [0%nat; 1%nat].
Proof. unfold argmax_axis1, demo_proba_image. simpl. decide_R. reflexivity. Qed.

Lemma demo_argmax_oflow : argmax_axis1 demo_proba_oflow = Ok [0%nat; 0%nat].
Proof. unfold argmax_axis1, demo_proba_oflow. simpl. decide_R. reflexivity. Qed.

Lemma demo_pg_image (sCwd sName sFeatureDir sModelPath : string) :
  is_image_model sModelPath = true ->
  predict_generator (demo_world sCwd sName) sFeatureDir sModelPath
    demo_classes nBatchSize_default =
  (pg_trace_load sModelPath ++
   pg_trace_infer sFeatureDir (demo_model sName demo_proba_image)
     (demo_gen ["A"; "B"]%string),
   Ok (np_mean [true; true], [0%nat; 1%nat], demo_proba_image,
       ["A"; "B"]%string)).
Proof.
  intros H. rewrite predict_generator_run. cbn [load_model demo_world].
  rewrite H. cbn [new_FeaturesGenerator demo_world nSamples demo_gen
                  km_predict_generator demo_model dfSamples_sLabel].
  unfold pg_result. rewrite demo_argmax_image. reflexivity.
Qed.

Lemma demo_pg_oflow (sCwd sName sFeatureDir sModelPath : string) :
  is_image_model sModelPath = false ->
  predict_generator (demo_world sCwd sName) sFeatureDir sModelPath
    demo_classes nBatchSize_default =
  (pg_trace_load sModelPath ++
   pg_trace_infer sFeatureDir (demo_model sName demo_proba_oflow)
     (demo_gen ["A"; "B"]%string),
   Ok (np_mean [true; false], [0%nat; 0%nat], demo_proba_oflow,
       ["A"; "B"]%string)).
Proof.
  intros H. rewrite predict_generator_run. cbn [load_model demo_world].
  rewrite H. cbn [new_FeaturesGenerator demo_world nSamples demo_gen
                  km_predict_generator demo_model dfSamples_sLabel].
  unfold pg_result. rewrite demo_argmax_oflow. reflexivity.
Qed.

Lemma main_models_inv (w : World) tr ib il ob ol l_ib l_ob :
  main_models w = (tr, Ok (ib, il, ob, ol, l_ib, l_ob)) ->
  let oClasses := read_VideoClasses w sClassFile in
  exists t1 a1 p1 t2 a2 p2 l2 t3 a3 p3 t4 a4 p4 l4,
    predict_generator w sImageFeatureDir sModelImageBest oClasses
      nBatchSize_default = (t1, Ok (a1, p1, ib, l_ib)) /\
    predict_generator w sImageFeatureDir sModelImageLast oClasses
      nBatchSize_default = (t2, Ok (a2, p2, il, l2)) /\
    predict_generator w sOflowFeatureDir sModelOflowBest oClasses
      nBatchSize_default = (t3, Ok (a3, p3, ob, l_ob)) /\
    predict_generator w sOflowFeatureDir sModelOflowLast oClasses
      nBatchSize_default = (t4, Ok (a4, p4, ol, l4)).
Proof.
  intros H oClasses. unfold main_models in H. fold oClasses in H.
  repeat match type of H with
  | bind _ _ = (_, Ok _) =>
      apply bind_inv_Ok in H;
      let t1 := fresh "t" in let a := fresh "a" in let t2 := fresh "t" in
      let Hm := fresh "Hm" in
      destruct H as (t1 & a & t2 & Hm & H & _);
      repeat match goal with x : (_ * _)%type |- _ => destruct x end
  end.
  inversion H; subst. eauto 20.
Qed.

Lemma stream_labels_inv (w : World) (sFeatureDir sModelPath : string)
    tr fAcc arPred arProba liLabels :
  predict_generator w sFeatureDir sModelPath (read_VideoClasses w sClassFile)
    nBatchSize_default = (tr, Ok (fAcc, arPred, arProba, liLabels)) ->
  liLabels = stream_labels w sFeatureDir sModelPath.
Proof.
  intros H. destruct (predict_generator_inv _ _ _ _ _ _ _ _ _ _ H)
    as (_ & _ & _ & Hr).
  destruct (pg_result_inv _ _ _ _ _ _ _ Hr) as (_ & E & _). exact E.
Qed.

(** ** The arithmetic of the concrete runs *)

Lemma exact_np_exp (v : R) :
  v < 89 -> np_exp (ar := exact_arith) (F32 v) = F32 (exp v).
Proof.
  intros Hv. unfold np_exp. destruct (Rle_dec 89 v); [lra | reflexivity].
Qed.

Lemma exact_map_np_exp (row : list R) :
  Forall (fun v => v < 89) row ->
  map (np_exp (ar := exact_arith)) (map F32 row) = map F32 (map exp row).
Proof.
  induction 1 as [| v t Hv _ IH]; cbn [map]; [reflexivity |].
  rewrite IH. now rewrite exact_np_exp.
Qed.

Lemma exact_np_sum_from (l : list R) (acc : R) :
  fold_left (f32_add_by F32) (map F32 l) (F32 acc) =
  F32 (fold_left Rplus l acc).
Proof.
  revert acc. induction l as [| x t IH]; intros acc; simpl; [reflexivity |].
  apply IH.
Qed.

Lemma exact_np_sum (l : list R) :
  @np_sum exact_arith (map F32 l) = F32 (fold_left Rplus l 0).
Proof. apply exact_np_sum_from. Qed.

Lemma fold_left_Rplus_acc (l : list R) (acc : R) :
  fold_left Rplus l acc = acc + real_sum l.
Proof.
  revert acc. induction l as [| x t IH]; intros acc; simpl; [lra |].
  rewrite IH. lra.
Qed.

Lemma real_sum_exp_pos (row : list R) :
  row <> [] -> 0 < real_sum (map exp row).
Proof.
  assert (Hnn : forall l, 0 <= real_sum (map exp l)).
  { induction l as [| x t IH]; simpl; [lra |]. pose proof (exp_pos x). lra. }
  destruct row as [| x t]; [congruence |]. intros _. simpl.
  pose proof (exp_pos x). pose proof (Hnn t). lra.
Qed.

Lemma exact_f32_div (a s : R) :
  s <> 0 -> f32_div (ar := exact_arith) (F32 a) (F32 s) = F32 (a / s).
Proof.
  intros Hs. unfold f32_div. destruct (Req_dec_T s 0); [contradiction |].
  reflexivity.
Qed.

Lemma exact_softmax_entry (row : list R) (v : R) :
  Forall (fun x => x < 89) row -> row <> [] -> v < 89 ->
  softmax_entry (ar := exact_arith) (map F32 row) (F32 v) =
  F32 (exp v / real_sum (map exp row)).
Proof.
  intros Hrow Hne Hv. unfold softmax_entry.
  rewrite (exact_map_np_exp row Hrow), exact_np_sum, exact_np_exp by exact Hv.
  rewrite fold_left_Rplus_acc, Rplus_0_l.
  apply exact_f32_div. pose proof (real_sum_exp_pos row Hne). lra.
Qed.

Lemma exact_keeps_order (row : list R) :
  Forall (fun x => x < 89) row ->
  keeps_order (ar := exact_arith) (map F32 row).
Proof.
  intros Hrow a b Ha Hb.
  apply in_map_iff in Ha, Hb.
  destruct Ha as (x & <- & Hx), Hb as (y & <- & Hy).
  assert (Hne : row <> []) by (intros ->; contradiction).
  rewrite Forall_forall in Hrow.
  rewrite !exact_softmax_entry
    by (try apply Forall_forall; auto).
  rewrite !np_le_F32.
  pose proof (real_sum_exp_pos row Hne) as Hs.
  assert (Hi : 0 < / real_sum (map exp row)) by now apply Rinv_0_lt_compat.
  unfold Rdiv. split; intros H.
  - destruct (Rle_dec x y) as [Hle | Hnle]; [exact Hle |].
    exfalso. assert (Hlt : exp y < exp x) by (apply exp_increasing; lra).
    assert (exp y * / real_sum (map exp row) < exp x * / real_sum (map exp row))
      by (apply Rmult_lt_compat_r; assumption).
    lra.
  - apply Rmult_le_compat_r; [lra |].
    destruct H as [Hlt | ->]; [left; now apply exp_increasing | right; reflexivity].
Qed.

Lemma softmax_row_entries {ar : Float32Arith} (row : list f32) :
  softmax_row row = map (softmax_entry row) row.
Proof. apply softmax_row_map. Qed.

Lemma np_argmax32_softmax_row {ar : Float32Arith} (row : list f32) :
  keeps_order row -> np_argmax32 (softmax_row row) = np_argmax32 row.
Proof.
  intros H. rewrite softmax_row_entries. apply np_argmax32_map. exact H.
Qed.

Lemma argmax32_axis1_softmax {ar : Float32Arith} (a : ndarray32) :
  Forall keeps_order a -> argmax32_axis1 (softmax a) = argmax32_axis1 a.
Proof.
  intros H. unfold argmax32_axis1, softmax. rewrite mapM_map.
  apply mapM_ext_in. intros row Hrow. apply np_argmax32_softmax_row.
  rewrite Forall_forall in H. now apply H.
Qed.

Lemma exact_argmax_axis1_softmax (a : ndarray2) :
  Forall (Forall (fun x => x < 89)) a ->
  argmax32_axis1 (softmax (ar := exact_arith) (as_f32 a)) = argmax_axis1 a.
Proof.
  intros H. rewrite argmax32_axis1_softmax.
  - apply argmax32_axis1_finite.
  - unfold as_f32. rewrite Forall_map.
    eapply Forall_impl; [| exact H]. intros row. apply exact_keeps_order.
Qed.

(** The softmax of two scores that both overflow [np.exp]. *)
Lemma softmax_row_overflow {ar : Float32Arith} (x y : R) :
  89 <= x -> 89 <= y ->
  np_sum [F32_inf false; F32_inf false] = F32_inf false ->
  softmax_row [F32 x; F32 y] = [F32_nan; F32_nan].
Proof.
  intros Hx Hy Hs. unfold softmax_row. simpl.
  destruct (Rle_dec 89 x); [| lra]. destruct (Rle_dec 89 y); [| lra].
  rewrite Hs. reflexivity.
Qed.

(** ** The claims *)



(** C4.  [main] raises an error when the label list of the RGB-image
    stream differs from that of the optical-flow stream, and no fused
    accuracy has been computed (printed) by then; when the four per-model
    runs return, the error is the mismatch error of line 138.  A fused
    accuracy appears in the trace of [main] only if the two label lists
    are equal. *)
Theorem main_label_guard {ar : Float32Arith} (w : World) :
  let oClasses := read_VideoClasses w sClassFile in
  let labels_image := stream_labels w sImageFeatureDir sModelImageBest in
  let labels_oflow := stream_labels w sOflowFeatureDir sModelOflowBest in
  (labels_image <> labels_oflow ->
   exists tr e, main w = (tr, Raise e) /\ no_fused tr) /\
  (labels_image <> labels_oflow ->
   forall t1 t2 t3 t4 a1 a2 a3 a4 p1 p2 p3 p4 ib il ob ol l1 l2 l3 l4,
     predict_generator w sImageFeatureDir sModelImageBest oClasses
       nBatchSize_default = (t1, Ok (a1, p1, ib, l1)) ->
     predict_generator w sImageFeatureDir sModelImageLast oClasses
       nBatchSize_default = (t2, Ok (a2, p2, il, l2)) ->
     predict_generator w sOflowFeatureDir sModelOflowBest oClasses
       nBatchSize_default = (t3, Ok (a3, p3, ob, l3)) ->
     predict_generator w sOflowFeatureDir sModelOflowLast oClasses
       nBatchSize_default = (t4, Ok (a4, p4, ol, l4)) ->
     main w = (models_trace w t1 a1 t2 a2 t3 a3 t4 a4,
               Raise (ValueError "The rgb and flwo labels do not match"))) /\
  (forall ev, In ev (fst (main w)) -> is_fused_accuracy ev = true ->
              labels_image = labels_oflow).
Proof.
  intros oClasses labels_image labels_oflow.
  assert (Hcases :
    (exists tr e, main w = (tr, Raise e) /\ no_fused tr) \/
    labels_image = labels_oflow).
  { rewrite main_split. pose proof (main_models_no_fused w) as Hnf.
    destruct (main_models w) as [tm [[[[[[ib il] ob] ol] l1] l3] | e]] eqn:Hm.
    - destruct (main_models_inv _ _ _ _ _ _ _ _ Hm)
        as (t1 & a1 & p1 & t2 & a2 & p2 & l2 & t3 & a3 & p3 & t4 & a4 & p4
            & l4 & H1 & H2 & H3 & H4).
      apply stream_labels_inv in H1. apply stream_labels_inv in H3.
      destruct (list_eq_dec string_dec l1 l3) as [E | N].
      + right. unfold labels_image, labels_oflow. congruence.
      + left. exists tm, (ValueError "The rgb and flwo labels do not match").
        simpl. rewrite (main_fusion_mismatch _ _ _ _ _ _ _ N).
        rewrite app_nil_r. split; [reflexivity | exact Hnf].
    - left. exists tm, e. split; [reflexivity | exact Hnf]. }
  split; [| split].
  - intros Hne. destruct Hcases as [H | H]; [exact H | contradiction].
  - intros Hne t1 t2 t3 t4 a1 a2 a3 a4 p1 p2 p3 p4 ib il ob ol l1 l2 l3 l4
      H1 H2 H3 H4.
    rewrite (main_run w _ _ _ _ _ _ _ _ _ _ _ _ _ _ _ _ _ _ _ _ H1 H2 H3 H4).
    fold oClasses. rewrite main_fusion_mismatch.
    + simpl. now rewrite app_nil_r.
    + apply stream_labels_inv in H1. apply stream_labels_inv in H3.
      unfold labels_image, labels_oflow in Hne. congruence.
  - intros ev Hin Hev. destruct Hcases as [(tr & e & Hm & Hnf) | H];
      [| exact H].
    rewrite Hm in Hin. simpl in Hin. unfold no_fused in Hnf.
    rewrite Forall_forall in Hnf. specialize (Hnf ev Hin). congruence.
Qed.

Lemma demo_pg_mismatch (sFeatureDir sModelPath : string) (b : bool) :
  String.eqb sFeatureDir sImageFeatureDir = b ->
  predict_generator demo_world_mismatch sFeatureDir sModelPath
    demo_classes nBatchSize_default =
  (pg_trace_load sModelPath ++
   pg_trace_infer sFeatureDir (demo_model "lstm" demo_proba_image)
     (demo_gen (if b then ["A"; "B"]%string else ["B"; "A"]%string)),
   Ok (np_mean (if b then [true; true] else [false; false]),
       [0%nat; 1%nat], demo_proba_image,
       if b then ["A"; "B"]%string else ["B"; "A"]%string)).
Proof.
  intros Hb. rewrite predict_generator_run.
  cbn [load_model demo_world_mismatch new_FeaturesGenerator
       km_predict_generator demo_model input_shape name].
  rewrite Hb. destruct b;
    cbn [nSamples demo_gen dfSamples_sLabel]; unfold pg_result;
    rewrite demo_argmax_image; reflexivity.
Qed.

Lemma main_label_guard_witness :
  exists tr,
    main (ar := exact_arith) demo_world_mismatch =
    (tr, Raise (ValueError "The rgb and flwo labels do not match")).
Proof.
  assert (Hne : stream_labels demo_world_mismatch sImageFeatureDir sModelImageBest
                <> stream_labels demo_world_mismatch sOflowFeatureDir sModelOflowBest)
    by (vm_compute; discriminate).
  destruct (main_label_guard (ar := exact_arith) demo_world_mismatch)
    as (_ & H & _).
  eexists.
  exact (H Hne _ _ _ _ _ _ _ _ _ _ _ _ _ _ _ _ _ _ _ _
           (demo_pg_mismatch sImageFeatureDir sModelImageBest true eq_refl)
           (demo_pg_mismatch sImageFeatureDir sModelImageLast true eq_refl)
           (demo_pg_mismatch sOflowFeatureDir sModelOflowBest false eq_refl)
           (demo_pg_mismatch sOflowFeatureDir sModelOflowLast false eq_refl)).
Defined.

(** C5.  When the feature generator detects no feature file,
    [predict_generator] raises [ValueError] (and so returns no result)
    having only loaded the model; an inference call appears in its trace
    only if at least one feature file was detected. *)
Theorem predict_generator_no_files (w : World) (sFeatureDir sModelPath : string)
    (oClasses : VideoClasses) (nBatchSize : nat) :
  let keModel := load_model w sModelPath in
  let genFeatures :=
    new_FeaturesGenerator w sFeatureDir nBatchSize
      (skipn 1 (input_shape keModel)) (liClasses oClasses) false in
  (nSamples genFeatures = 0%nat ->
   predict_generator w sFeatureDir sModelPath oClasses nBatchSize =
   ([EvPrint (MsgText ("Load model " ++ sModelPath ++ " ...")%string);
     EvLoadModel sModelPath],
    Raise (ValueError "No feature files detected, prediction stopped"))) /\
  (forall ev,
     In ev (fst (predict_generator w sFeatureDir sModelPath oClasses nBatchSize)) ->
     is_inference ev = true -> (1 <= nSamples genFeatures)%nat).
Proof.
  intros keModel genFeatures. rewrite predict_generator_run.
  fold keModel. fold genFeatures.
  destruct (Nat.eqb (nSamples genFeatures) 0) eqn:E.
  - split; [reflexivity |]. intros ev Hin Hev. simpl in Hin.
    destruct Hin as [<- | [<- | []]]; discriminate.
  - apply Nat.eqb_neq in E. split; [intros; contradiction | intros; lia].
Qed.

Lemma predict_generator_no_files_witness :
  predict_generator demo_world_empty sImageFeatureDir sModelImageBest
    demo_classes nBatchSize_default =
  ([EvPrint (MsgText ("Load model " ++ sModelImageBest ++ " ...")%string);
    EvLoadModel sModelImageBest],
   Raise (ValueError "No feature files detected, prediction stopped")).
Proof.
  apply (predict_generator_no_files demo_world_empty sImageFeatureDir
           sModelImageBest demo_classes nBatchSize_default).
  reflexivity.
Defined.

(** C6.  [predict_generator] raises an error when the number of rows of
    the predicted probability array differs from the number of detected
    samples ([ValueError "Unexpected number of predictions"] once the
    sample count is not zero).  Whatever it returns is a prediction array
    of length [nSamples], a probability array with [nSamples] rows and a
    label list of length [nSamples]; and it does return on a well-shaped
    input: [nSamples > 0] rows of [c > 0] columns, one label per sample and
    a class table with a row for each of the [c] classes. *)
Theorem predict_generator_count_guard (w : World)
    (sFeatureDir sModelPath : string) (oClasses : VideoClasses)
    (nBatchSize : nat) :
  let keModel := load_model w sModelPath in
  let genFeatures :=
    new_FeaturesGenerator w sFeatureDir nBatchSize
      (skipn 1 (input_shape keModel)) (liClasses oClasses) false in
  let arProba := km_predict_generator keModel genFeatures in
  let run := predict_generator w sFeatureDir sModelPath oClasses nBatchSize in
  (length arProba <> nSamples genFeatures ->
   exists e, snd run = Raise e) /\
  (length arProba <> nSamples genFeatures -> nSamples genFeatures <> 0%nat ->
   snd run = Raise (ValueError "Unexpected number of predictions")) /\
  (forall tr fAcc arPred arProba' liLabels,
     run = (tr, Ok (fAcc, arPred, arProba', liLabels)) ->
     length arPred = nSamples genFeatures /\
     length arProba' = nSamples genFeatures /\
     length liLabels = nSamples genFeatures) /\
  (forall c,
     nSamples genFeatures <> 0%nat ->
     has_shape (nSamples genFeatures) c arProba -> (0 < c)%nat ->
     (c <= length (dfClass oClasses))%nat ->
     length (dfSamples_sLabel genFeatures) = nSamples genFeatures ->
     exists tr fAcc arPred,
       run = (tr, Ok (fAcc, arPred, arProba, dfSamples_sLabel genFeatures))).
Proof.
  intros keModel genFeatures arProba run.
  assert (Hrun := predict_generator_run w sFeatureDir sModelPath oClasses
                    nBatchSize).
  cbv zeta in Hrun. fold keModel genFeatures arProba run in Hrun.
  split; [| split; [| split]].
  - intros Hne. rewrite Hrun.
    destruct (Nat.eqb (nSamples genFeatures) 0); [simpl; eauto |].
    rewrite (proj2 (Nat.eqb_neq _ _) Hne). simpl. eauto.
  - intros Hne H0. rewrite Hrun.
    rewrite (proj2 (Nat.eqb_neq _ _) H0), (proj2 (Nat.eqb_neq _ _) Hne).
    reflexivity.
  - intros tr fAcc arPred arProba' liLabels H.
    destruct (predict_generator_inv _ _ _ _ _ _ _ _ _ _ H)
      as (Hn & Hl & _ & Hr).
    fold keModel genFeatures in Hn, Hl, Hr.
    destruct (pg_result_inv _ _ _ _ _ _ _ Hr)
      as (E1 & E2 & Hp & se & eq & Hse & Heq & _).
    apply mapM_length in Hp. unfold loc_sClass in Hse.
    apply mapM_length in Hse. unfold list_eq_series in Heq.
    destruct (Nat.eqb (length (dfSamples_sLabel genFeatures)) (length se))
      eqn:E; [| discriminate].
    apply Nat.eqb_eq in E. subst. repeat split; lia.
  - intros c H0 Hshape Hc Hcls Hlab. rewrite Hrun.
    rewrite (proj2 (Nat.eqb_neq _ _) H0).
    destruct Hshape as [Hrows Hcols].
    rewrite (proj2 (Nat.eqb_eq _ _) Hrows). simpl negb. cbv iota.
    unfold pg_result.
    destruct (argmax_axis1_total (nSamples genFeatures) c arProba)
      as (p & Hp & Hlp & Hpc); [now split | exact Hc |].
    rewrite Hp. simpl.
    destruct (loc_sClass_total oClasses p c Hpc Hcls) as [se Hse].
    rewrite Hse. simpl.
    assert (Hlse : length se = nSamples genFeatures).
    { unfold loc_sClass in Hse. apply mapM_length in Hse. lia. }
    unfold list_eq_series.
    rewrite (proj2 (Nat.eqb_eq (length (dfSamples_sLabel genFeatures))
                      (length se))) by lia.
    simpl. eauto.
Qed.

Lemma predict_generator_count_guard_witness :
  snd (predict_generator demo_world_short sImageFeatureDir sModelImageBest
         demo_classes nBatchSize_default) =
  Raise (ValueError "Unexpected number of predictions").
Proof.
  apply (predict_generator_count_guard demo_world_short sImageFeatureDir
           sModelImageBest demo_classes nBatchSize_default);
    simpl; lia.
Defined.

Lemma demo_argsort : insertion_argsort [0; 1; 0] = [0%nat; 2%nat; 1%nat].
Proof.
  unfold insertion_argsort. simpl. decide_R. simpl. decide_R. reflexivity.
Qed.

Lemma demo_predict_run :
  predict insertion_argsort demo_features (demo_model "lstm" []) demo_classes3 3 =
  ([EvPrint (MsgText "Predict video category with lstm ...");
    EvPredict "lstm" (expand_dims demo_features);
    EvPrint (MsgTop 1 1 "B beta" (1 * 100));
    EvPrint (MsgTop 2 2 "C gamma" (0 * 100));
    EvPrint (MsgTop 3 0 "A alpha" (0 * 100))],
   Ok (1%nat, "B beta", 1)).
Proof.
  unfold predict. cbn [km_predict demo_model]. rewrite demo_argsort.
  reflexivity.
Qed.

(** C3.  [predict] raises its shape error exactly when the input shape the
    model expects ([input_shape] without the batch dimension) differs from
    the shape of the feature array; in that case nothing has happened
    before, in particular no inference call.  When the shapes are equal
    no [ValueError] is raised (the only errors left are failed lookups)
    and the inference call is made. *)
Theorem predict_shape_guard (np_argsort : list R -> list nat)
    (arFeatures : ndarray) (keModel : KerasModel) (oClasses : VideoClasses)
    (nTop : Z) :
  let expected := skipn 1 (input_shape keModel) in
  let run := predict np_argsort arFeatures keModel oClasses nTop in
  (snd run = Raise (ValueError "Incorrect shapes") <->
   expected <> map Some (shape arFeatures)) /\
  (expected <> map Some (shape arFeatures) ->
   run = ([], Raise (ValueError "Incorrect shapes"))) /\
  (expected = map Some (shape arFeatures) ->
   no_ValueError (snd run) /\
   exists tr,
     fst run =
     EvPrint (MsgText ("Predict video category with " ++ name keModel ++ " ...")%string)
     :: EvPredict (name keModel) (expand_dims arFeatures) :: tr).
Proof.
  intros expected run. subst run. unfold predict. fold expected.
  destruct (shape_eqb expected (shape arFeatures)) eqn:E;
    simpl negb; cbv iota.
  - apply shape_eqb_spec in E.
    match goal with |- (snd ?m = _ <-> _) /\ _ =>
      assert (Hno : no_ValueError (snd m)) end.
    { repeat first
        [ apply bind_no_ValueError; [| intros]
        | apply for_no_ValueError; intros; unfold predict_print_top
        | apply mapM_no_ValueError; intros
        | apply getitem_no_ValueError
        | apply series_get_no_ValueError
        | exact I ]. }
    split; [| split].
    + split; [| intros; contradiction]. intros H. exfalso.
      rewrite H in Hno. exact Hno.
    + intros; contradiction.
    + intros _. split; [exact Hno |].
      unfold print. rewrite !bind_emit. simpl fst.
      eexists. reflexivity.
  - assert (Hne : expected <> map Some (shape arFeatures)).
    { intros H. apply shape_eqb_spec in H. congruence. }
    split; [| split].
    + split; [intros _; exact Hne | reflexivity].
    + reflexivity.
    + intros; contradiction.
Qed.

Lemma predict_shape_guard_witness :
  predict insertion_argsort demo_features_bad (demo_model "lstm" [])
    demo_classes3 3 =
  ([], Raise (ValueError "Incorrect shapes")).
Proof.
  apply (predict_shape_guard insertion_argsort demo_features_bad
           (demo_model "lstm" []) demo_classes3 3).
  simpl. discriminate.
Defined.

(** C9.  For every probability vector and every [nTop >= 1], the first
    component of the 3-tuple that [predict] returns is the index of a
    largest entry of the probability vector that the model outputs, and
    the third component is the value of that entry. *)
Theorem predict_returns_argmax (np_argsort : list R -> list nat)
    (arFeatures : ndarray) (keModel : KerasModel) (oClasses : VideoClasses)
    (nTop : Z) (tr : list event) (nLabel : nat) (sLabel : string)
    (fProba : R) :
  argsort_spec np_argsort ->
  (1 <= nTop)%Z ->
  predict np_argsort arFeatures keModel oClasses nTop =
    (tr, Ok (nLabel, sLabel, fProba)) ->
  let arProbas := km_predict keModel arFeatures in
  (nLabel < length arProbas)%nat /\
  nth nLabel arProbas 0 = fProba /\
  forall j, (j < length arProbas)%nat -> nth j arProbas 0 <= fProba.
Proof.
  intros Hspec _ H arProbas.
  destruct (predict_inv _ _ _ _ _ _ _ _ _ H) as (_ & Hk & Hp & _).
  fold arProbas in Hk, Hp.
  apply rev_head_last in Hk. destruct Hk as [l0 Hk].
  destruct (py_slice_from_skipn (- nTop) (np_argsort arProbas)) as [m Hm].
  rewrite Hm in Hk.
  assert (E : np_argsort arProbas =
              (firstn m (np_argsort arProbas) ++ l0) ++ [nLabel]).
  { rewrite <- app_assoc, <- Hk. symmetry. apply firstn_skipn. }
  destruct (argsort_last_max np_argsort arProbas _ _ Hspec E) as [Hlt Hmax].
  rewrite <- (nth_error_nth _ _ 0 Hp). auto.
Qed.

Lemma predict_returns_argmax_witness :
  (1 < length [0; 1; 0])%nat /\
  nth 1 [0; 1; 0] 0 = 1 /\
  forall j, (j < length [0; 1; 0])%nat -> nth j [0; 1; 0] 0 <= 1.
Proof.
  assert (H : (1 <= 3)%Z) by lia.
  exact (predict_returns_argmax insertion_argsort demo_features
           (demo_model "lstm" []) demo_classes3 3 _ 1%nat "B beta" 1
           insertion_argsort_spec H demo_predict_run).
Defined.

(** C10.  Once the shape guard of [predict] is passed, no index error is
    reachable: if [1 <= nTop <= length] of the probability vector that the
    model outputs and the class table has a row for every class index
    [0 .. length-1], then all the lookups in the top-label array, in the
    probability array and in the class table succeed and [predict]
    returns its 3-tuple. *)
Theorem predict_indexing_in_bounds (np_argsort : list R -> list nat)
    (arFeatures : ndarray) (keModel : KerasModel) (oClasses : VideoClasses)
    (nTop : Z) :
  argsort_spec np_argsort ->
  skipn 1 (input_shape keModel) = map Some (shape arFeatures) ->
  (1 <= nTop <= Z.of_nat (length (km_predict keModel arFeatures)))%Z ->
  (length (km_predict keModel arFeatures) <= length (dfClass oClasses))%nat ->
  exists tr nLabel sLabel fProba,
    predict np_argsort arFeatures keModel oClasses nTop =
    (tr, Ok (nLabel, sLabel, fProba)).
Proof. apply predict_total. Qed.

Lemma predict_indexing_in_bounds_witness :
  exists tr nLabel sLabel fProba,
    predict insertion_argsort demo_features (demo_model "lstm" [])
      demo_classes3 2 =
    (tr, Ok (nLabel, sLabel, fProba)).
Proof.
  apply (predict_indexing_in_bounds insertion_argsort demo_features
           (demo_model "lstm" []) demo_classes3 2 insertion_argsort_spec).
  - reflexivity.
  - simpl. lia.
  - simpl. lia.
Defined.

(** Two models that both give the scores 500 and 1000 to the two classes
    of one sample, whose label is the second class.  The summed scores
    are 1000 and 2000, [np.exp] overflows on both, and the probabilities
    are nan: the ensemble predicts the first class, where the summed
    scores point to the second.  This holds in every float32 arithmetic
    that adds 500 to 500 and 1000 to 1000 exactly and in which the sum of
    two infinities is infinite. *)
Lemma overflow_run {ar : Float32Arith} :
  f32_round (500 + 500) = F32 1000 ->
  f32_round (1000 + 1000) = F32 2000 ->
  np_sum [F32_inf false; F32_inf false] = F32_inf false ->
  sum_last [[500; 1000]] [[500; 1000]] = Ok [[F32 1000; F32 2000]] /\
  softmax [[F32 1000; F32 2000]] = [[F32_nan; F32_nan]] /\
  fuse [[F32 1000; F32 2000]] ["B"]%string demo_classes =
    Ok ([[F32_nan; F32_nan]], [0%nat], np_mean [false]) /\
  fuse_without_softmax [[F32 1000; F32 2000]] ["B"]%string demo_classes =
    Ok ([1%nat], np_mean [true]).
Proof.
  intros H1 H2 Hs.
  assert (E : softmax [[F32 1000; F32 2000]] = [[F32_nan; F32_nan]]).
  { unfold softmax. cbn [map].
    rewrite (softmax_row_overflow 1000 2000); [reflexivity | lra | lra | exact Hs]. }
  split; [| split; [exact E | split]].
  - unfold sum_last, np_add, np_broadcast, row_add, np_broadcast, as_f32.
    cbn [map length Nat.eqb mapM2 f32_add f32_add_by].
    unfold f32_add, f32_add_by. now rewrite H1, H2.
  - unfold fuse. rewrite E. reflexivity.
  - unfold fuse_without_softmax, argmax32_axis1.
    cbn [mapM np_argmax32 f32_isnan argmax32_from f32_leb].
    destruct (Rle_dec 2000 1000); [lra | reflexivity].
Qed.

Lemma exact_overflow_run :
  sum_last (ar := exact_arith) [[500; 1000]] [[500; 1000]] =
    Ok [[F32 1000; F32 2000]] /\
  softmax (ar := exact_arith) [[F32 1000; F32 2000]] =
    [[F32_nan; F32_nan]] /\
  fuse (ar := exact_arith) [[F32 1000; F32 2000]] ["B"]%string demo_classes =
    Ok ([[F32_nan; F32_nan]], [0%nat], np_mean [false]) /\
  fuse_without_softmax [[F32 1000; F32 2000]] ["B"]%string demo_classes =
    Ok ([1%nat], np_mean [true]).
Proof.
  apply (overflow_run (ar := exact_arith)).
  - cbn [f32_round exact_arith]. f_equal. lra.
  - cbn [f32_round exact_arith]. f_equal. lra.
  - reflexivity.
Qed.

(** C2, counterexample.  In float32 the rows of the fused probability
    array need not sum to 1: when [np.exp] overflows on a row, the row is
    nan.  Here the summed scores of the one sample are 1000 and 2000. *)
Lemma softmax_rows_sum_to_one_counterexample :
  exists arPred fAcc,
    rbind (sum_last (ar := exact_arith) [[500; 1000]] [[500; 1000]])
      (fun s => fuse (ar := exact_arith) s ["B"]%string demo_classes) =
    Ok ([[F32_nan; F32_nan]], arPred, fAcc) /\
    ~ sums_to_one [F32_nan; F32_nan] /\
    @np_sum exact_arith [F32_nan; F32_nan] <> F32 1.
Proof.
  destruct exact_overflow_run as (Hs & _ & Hf & _).
  exists [0%nat], (np_mean [false]). split; [| split].
  - rewrite Hs. exact Hf.
  - intros (ps & Hps & _). destruct ps; discriminate.
  - discriminate.
Qed.

Lemma Rabs_le_inv (a b : R) : Rabs a <= b -> - b <= a <= b.
Proof. unfold Rabs. destruct (Rcase_abs a); lra. Qed.

Lemma rounded_quotients (u eta s : R) (round : R -> f32) (a : list R) :
  (forall x, In x a ->
     exists p, round (x / s) = F32 p /\
               Rabs (p - x / s) <= u * (x / s) + eta) ->
  exists ps, map (fun x => round (x / s)) a = map F32 ps /\
             Rabs (real_sum ps - real_sum a / s) <=
             u * (real_sum a / s) + INR (length a) * eta.
Proof.
  induction a as [| x t IH]; intros H.
  - exists []. split; [reflexivity |]. simpl.
    unfold Rdiv. rewrite Rmult_0_l, Rminus_0_r, Rabs_R0. lra.
  - destruct IH as (ps & Eps & Hps); [intros y Hy; apply H; now right |].
    destruct (H x) as (p & Ep & Hp); [now left |].
    exists (p :: ps). split; [simpl; now rewrite Ep, Eps |].
    change (length (x :: t)) with (S (length t)). rewrite S_INR.
    simpl real_sum.
    replace (p + real_sum ps - (x + real_sum t) / s)
      with ((p - x / s) + (real_sum ps - real_sum t / s))
      by (unfold Rdiv; ring).
    eapply Rle_trans; [apply Rabs_triang |].
    replace (u * ((x + real_sum t) / s) + (INR (length t) + 1) * eta)
      with ((u * (x / s) + eta) + (u * (real_sum t / s) + INR (length t) * eta))
      by (unfold Rdiv; ring).
    now apply Rplus_le_compat.
Qed.

Lemma near_one (u gamma s A q : R) :
  0 <= u -> 0 <= gamma < 1 -> 0 < s -> 0 <= A ->
  Rabs (s - A) <= gamma * A ->
  Rabs (q - A / s) <= u * (A / s) ->
  Rabs (q - 1) <= (u + gamma) / (1 - gamma).
Proof.
  intros Hu Hg Hs HA Hsa Hq.
  assert (HsA := Rabs_le_inv _ _ Hsa).
  assert (Hqr := Rabs_le_inv _ _ Hq).
  set (r := A / s) in *.
  assert (Hr : r * s = A) by (unfold r; field; lra).
  set (t := / (1 - gamma)).
  assert (Ht : t * (1 - gamma) = 1) by (unfold t; field; lra).
  assert (Htpos : 0 < t) by (unfold t; apply Rinv_0_lt_compat; lra).
  assert (Hr0 : 0 <= r).
  { unfold r, Rdiv. apply Rmult_le_pos; [exact HA |].
    left. now apply Rinv_0_lt_compat. }
  assert (Hrt : r <= t).
  { assert (r * (1 - gamma) <= 1).
    { assert ((1 - gamma) * A <= s) by lra.
      assert (r * ((1 - gamma) * A) <= r * s)
        by (apply Rmult_le_compat_l; assumption).
      assert (E : r * ((1 - gamma) * A) = (r * (1 - gamma)) * A) by ring.
      rewrite E, Hr in *.
      destruct (Rle_dec (r * (1 - gamma)) 1) as [Hle | Hnle]; [exact Hle |].
      exfalso. assert (HA0 : A = 0 \/ 0 < A) by lra.
      destruct HA0 as [-> | HApos]; [lra | nra]. }
    nra. }
  assert (Hrl : 1 - gamma * t <= r).
  { assert (Hsr : s <= (1 + gamma) * A) by lra.
    assert (1 <= r * (1 + gamma)).
    { assert (r * s <= r * ((1 + gamma) * A))
        by (apply Rmult_le_compat_l; assumption).
      assert (E : r * ((1 + gamma) * A) = (r * (1 + gamma)) * A) by ring.
      rewrite E, Hr in *.
      assert (HApos : 0 < A) by nra.
      nra. }
    nra. }
  unfold Rdiv. fold t. apply Rabs_le. split; nra.
Qed.

(** C2, amended.  A row of the fused probability array sums to 1 only up
    to the rounding of its float32 operations (and not at all when
    [np.exp] overflows, see the counterexample).  On a row of finite
    scores whose exponentials [a] are finite and non-negative, whose row
    sum [s] is positive and within the relative error [gamma] of the exact
    sum of [a], and whose quotients are rounded with a relative error of
    at most [u] and an absolute error of at most [eta], the entries of
    the probability row that the code computes (by [softmax], and so by
    [fuse]) are finite, and their exact sum differs from 1 by at most
    [(u + gamma) / (1 - gamma) + c * eta], where [c] is the number of
    columns. *)
Theorem softmax_rows_sum_to_one_up_to_rounding {ar : Float32Arith}
    (arSoftmax : ndarray32) (i : nat) (row a : list R) (s u gamma eta : R) :
  nth_error arSoftmax i = Some (map F32 row) ->
  0 <= u -> 0 <= gamma < 1 -> 0 <= eta ->
  map np_exp (map F32 row) = map F32 a ->
  Forall (fun x => 0 <= x) a ->
  np_sum (map F32 a) = F32 s -> 0 < s ->
  Rabs (s - real_sum a) <= gamma * real_sum a ->
  (forall x, In x a ->
     exists p, f32_round (x / s) = F32 p /\
               Rabs (p - x / s) <= u * (x / s) + eta) ->
  exists ps,
    nth_error (softmax arSoftmax) i = Some (map F32 ps) /\
    Rabs (real_sum ps - 1) <=
      (u + gamma) / (1 - gamma) + INR (length row) * eta /\
    forall liLabels oClasses arProba arPred fAcc,
      fuse arSoftmax liLabels oClasses = Ok (arProba, arPred, fAcc) ->
      nth_error arProba i = Some (map F32 ps).
Proof.
  intros Hrow Hu Hg Heta Hexp Hpos Hsum Hs Hacc Hround.
  destruct (rounded_quotients u eta s f32_round a Hround) as (ps & Eps & Hps).
  assert (Hsoft : softmax_row (map F32 row) = map F32 ps).
  { unfold softmax_row. cbv zeta. rewrite Hexp, Hsum, map_map, <- Eps.
    apply map_ext. intros x. unfold f32_div.
    destruct (Req_dec_T s 0); [lra | reflexivity]. }
  assert (Hnth : nth_error (softmax arSoftmax) i = Some (map F32 ps)).
  { unfold softmax. rewrite nth_error_map, Hrow. simpl. now rewrite Hsoft. }
  exists ps. split; [exact Hnth |]. split.
  - assert (Hlen : length row = length a).
    { apply (f_equal (@length f32)) in Hexp.
      now rewrite !length_map in Hexp. }
    rewrite Hlen.
    assert (HA : 0 <= real_sum a).
    { clear -Hpos. induction Hpos as [| x t Hx _ IH]; simpl; lra. }
    set (A := real_sum a) in *. set (n := INR (length a)) in *.
    assert (Hn : 0 <= n) by (unfold n; apply pos_INR).
    assert (Hr0 : 0 <= A / s).
    { unfold Rdiv. apply Rmult_le_pos; [exact HA |].
      left. now apply Rinv_0_lt_compat. }
    set (q := real_sum ps) in *.
    assert (Hq := Rabs_le_inv _ _ Hps).
    assert (Hne : 0 <= n * eta) by now apply Rmult_le_pos.
    assert (Hlo := near_one u gamma s A (A / s - u * (A / s)) Hu Hg Hs HA Hacc).
    assert (Hhi := near_one u gamma s A (A / s + u * (A / s)) Hu Hg Hs HA Hacc).
    assert (Hlo' : Rabs (A / s - u * (A / s) - 1) <= (u + gamma) / (1 - gamma)).
    { apply Hlo. apply Rabs_le. assert (0 <= u * (A / s)) by now apply Rmult_le_pos. lra. }
    assert (Hhi' : Rabs (A / s + u * (A / s) - 1) <= (u + gamma) / (1 - gamma)).
    { apply Hhi. apply Rabs_le. assert (0 <= u * (A / s)) by now apply Rmult_le_pos. lra. }
    apply Rabs_le_inv in Hlo', Hhi'.
    apply Rabs_le. lra.
  - intros liLabels oClasses arProba arPred fAcc Hfuse.
    destruct (fuse_inv _ _ _ _ _ _ Hfuse) as (-> & _). exact Hnth.
Qed.

Lemma softmax_rows_sum_to_one_up_to_rounding_witness :
  exists ps,
    nth_error (softmax (ar := exact_arith) [[F32 2; F32 0]; [F32 1; F32 1]]) 0
      = Some (map F32 ps) /\
    Rabs (real_sum ps - 1) <=
      (/ 16777216 + / 1048576) / (1 - / 1048576) + INR 2 * 0.
Proof.
  destruct (softmax_rows_sum_to_one_up_to_rounding (ar := exact_arith)
              [[F32 2; F32 0]; [F32 1; F32 1]] 0 [2; 0] [exp 2; exp 0]
              (0 + exp 2 + exp 0) (/ 16777216) (/ 1048576) 0)
    as (ps & H1 & H2 & _).
  - reflexivity.
  - lra.
  - lra.
  - lra.
  - simpl. decide_R. reflexivity.
  - pose proof (exp_pos 2). pose proof (exp_pos 0).
    repeat constructor; lra.
  - reflexivity.
  - pose proof (exp_pos 2). pose proof (exp_pos 0). lra.
  - pose proof (exp_pos 2). pose proof (exp_pos 0). simpl.
    replace (0 + exp 2 + exp 0 - (exp 2 + (exp 0 + 0))) with 0 by ring.
    rewrite Rabs_R0. nra.
  - intros x Hx. exists (x / (0 + exp 2 + exp 0)). split; [reflexivity |].
    rewrite Rminus_diag, Rabs_R0.
    pose proof (exp_pos 2). pose proof (exp_pos 0).
    assert (0 <= x) by (simpl in Hx; destruct Hx as [<- | [<- | []]]; lra).
    assert (0 <= x / (0 + exp 2 + exp 0)).
    { unfold Rdiv. apply Rmult_le_pos; [assumption |].
      left. apply Rinv_0_lt_compat. lra. }
    nra.
  - exists ps. split; [exact H1 | exact H2].
Defined.





Lemma np_argmax_iff (row : list R) (k : nat) :
  np_argmax row = Ok k <-> is_first_max row k.
Proof.
  split; [apply np_argmax_spec |]. intros H.
  destruct (np_argmax_nonempty row) as [k' Hk'].
  { destruct H as [Hlt _]. intros ->. simpl in Hlt. lia. }
  rewrite Hk'. f_equal. apply np_argmax_spec in Hk'.
  eapply is_first_max_unique; eauto.
Qed.

Lemma no_fused_filter (tr : list event) :
  no_fused tr -> filter is_fused_accuracy tr = [].
Proof.
  induction 1 as [| ev tr Hev _ IH]; simpl; [reflexivity |].
  now rewrite Hev.
Qed.

(** C7.  The predictions are determined by the scores.  The argmax of a
    row is the one index that is the first position of its largest value;
    two runs of [predict_generator] that obtain the same probability
    array and labels, with the same class table, return the same
    prediction vector and the same accuracy; and two runs of [main] whose
    per-model runs return the same arrays and labels, with the same class
    table, print the same fused accuracies and end alike. *)
Theorem predictions_deterministic {ar : Float32Arith} :
  (forall (row : list R) (k : nat),
     np_argmax row = Ok k <-> is_first_max row k) /\
  (forall w w' sFeatureDir sFeatureDir' sModelPath sModelPath' oClasses
          nBatchSize nBatchSize' tr tr' fAcc fAcc' arPred arPred'
          arProba liLabels,
     predict_generator w sFeatureDir sModelPath oClasses nBatchSize =
       (tr, Ok (fAcc, arPred, arProba, liLabels)) ->
     predict_generator w' sFeatureDir' sModelPath' oClasses nBatchSize' =
       (tr', Ok (fAcc', arPred', arProba, liLabels)) ->
     arPred = arPred' /\ fAcc = fAcc') /\
  (forall w w' t1 t2 t3 t4 t1' t2' t3' t4' a1 a2 a3 a4 a1' a2' a3' a4'
          p1 p2 p3 p4 p1' p2' p3' p4' ib il ob ol l1 l2 l3 l4,
     read_VideoClasses w sClassFile = read_VideoClasses w' sClassFile ->
     predict_generator w sImageFeatureDir sModelImageBest
       (read_VideoClasses w sClassFile) nBatchSize_default =
       (t1, Ok (a1, p1, ib, l1)) ->
     predict_generator w sImageFeatureDir sModelImageLast
       (read_VideoClasses w sClassFile) nBatchSize_default =
       (t2, Ok (a2, p2, il, l2)) ->
     predict_generator w sOflowFeatureDir sModelOflowBest
       (read_VideoClasses w sClassFile) nBatchSize_default =
       (t3, Ok (a3, p3, ob, l3)) ->
     predict_generator w sOflowFeatureDir sModelOflowLast
       (read_VideoClasses w sClassFile) nBatchSize_default =
       (t4, Ok (a4, p4, ol, l4)) ->
     predict_generator w' sImageFeatureDir sModelImageBest
       (read_VideoClasses w' sClassFile) nBatchSize_default =
       (t1', Ok (a1', p1', ib, l1)) ->
     predict_generator w' sImageFeatureDir sModelImageLast
       (read_VideoClasses w' sClassFile) nBatchSize_default =
       (t2', Ok (a2', p2', il, l2)) ->
     predict_generator w' sOflowFeatureDir sModelOflowBest
       (read_VideoClasses w' sClassFile) nBatchSize_default =
       (t3', Ok (a3', p3', ob, l3)) ->
     predict_generator w' sOflowFeatureDir sModelOflowLast
       (read_VideoClasses w' sClassFile) nBatchSize_default =
       (t4', Ok (a4', p4', ol, l4)) ->
     filter is_fused_accuracy (fst (main w)) =
     filter is_fused_accuracy (fst (main w')) /\
     snd (main w) = snd (main w')).
Proof.
  split; [exact np_argmax_iff |]. split.
  - intros w w' d d' m m' oClasses b b' tr tr' fAcc fAcc' arPred arPred'
      arProba liLabels H H'.
    destruct (predict_generator_inv _ _ _ _ _ _ _ _ _ _ H) as (_ & _ & _ & Hr).
    destruct (predict_generator_inv _ _ _ _ _ _ _ _ _ _ H') as (_ & _ & _ & Hr').
    destruct (pg_result_inv _ _ _ _ _ _ _ Hr)
      as (E1 & E2 & Hp & se & eq & Hse & Heq & ->).
    destruct (pg_result_inv _ _ _ _ _ _ _ Hr')
      as (E1' & E2' & Hp' & se' & eq' & Hse' & Heq' & ->).
    rewrite <- E1 in Hp. rewrite <- E1' in Hp'.
    rewrite <- E2 in Heq. rewrite <- E2' in Heq'.
    assert (arPred = arPred') by congruence. subst arPred'.
    split; [reflexivity |].
    rewrite Hse in Hse'. inversion Hse'; subst se'.
    rewrite Heq in Heq'. inversion Heq'; reflexivity.
  - intros w w' t1 t2 t3 t4 t1' t2' t3' t4' a1 a2 a3 a4 a1' a2' a3' a4'
      p1 p2 p3 p4 p1' p2' p3' p4' ib il ob ol l1 l2 l3 l4
      Hcls H1 H2 H3 H4 H1' H2' H3' H4'.
    pose proof (main_models_no_fused w) as Hnf.
    pose proof (main_models_no_fused w') as Hnf'.
    rewrite (main_models_run w _ _ _ _ _ _ _ _ _ _ _ _ _ _ _ _ _ _ _ _
               H1 H2 H3 H4) in Hnf.
    rewrite (main_models_run w' _ _ _ _ _ _ _ _ _ _ _ _ _ _ _ _ _ _ _ _
               H1' H2' H3' H4') in Hnf'.
    cbn [fst] in Hnf, Hnf'.
    rewrite (main_run w _ _ _ _ _ _ _ _ _ _ _ _ _ _ _ _ _ _ _ _ H1 H2 H3 H4).
    rewrite (main_run w' _ _ _ _ _ _ _ _ _ _ _ _ _ _ _ _ _ _ _ _
               H1' H2' H3' H4').
    cbn [fst snd]. rewrite !filter_app.
    rewrite (no_fused_filter _ Hnf), (no_fused_filter _ Hnf'), Hcls.
    split; reflexivity.
Qed.

Lemma predictions_deterministic_witness :
  filter is_fused_accuracy
    (fst (main (ar := exact_arith) (demo_world "/work" "lstm"))) =
  filter is_fused_accuracy
    (fst (main (ar := exact_arith) (demo_world "/tmp" "other"))) /\
  snd (main (ar := exact_arith) (demo_world "/work" "lstm")) =
  snd (main (ar := exact_arith) (demo_world "/tmp" "other")).
Proof.
  destruct (predictions_deterministic (ar := exact_arith)) as (_ & _ & H).
  exact (H (demo_world "/work" "lstm") (demo_world "/tmp" "other")
           _ _ _ _ _ _ _ _ _ _ _ _ _ _ _ _ _ _ _ _ _ _ _ _ _ _ _ _ _ _ _ _
           eq_refl
           (demo_pg_image "/work" "lstm" sImageFeatureDir sModelImageBest eq_refl)
           (demo_pg_image "/work" "lstm" sImageFeatureDir sModelImageLast eq_refl)
           (demo_pg_oflow "/work" "lstm" sOflowFeatureDir sModelOflowBest eq_refl)
           (demo_pg_oflow "/work" "lstm" sOflowFeatureDir sModelOflowLast eq_refl)
           (demo_pg_image "/tmp" "other" sImageFeatureDir sModelImageBest eq_refl)
           (demo_pg_image "/tmp" "other" sImageFeatureDir sModelImageLast eq_refl)
           (demo_pg_oflow "/tmp" "other" sOflowFeatureDir sModelOflowBest eq_refl)
           (demo_pg_oflow "/tmp" "other" sOflowFeatureDir sModelOflowLast eq_refl)).
Defined.

(** ** A complete run *)

Lemma demo_fuse (arSoftmax : ndarray2) :
  Forall (Forall (fun x => x < 89)) arSoftmax ->
  argmax_axis1 arSoftmax = Ok [0%nat; 0%nat] ->
  fuse (ar := exact_arith) (as_f32 arSoftmax) ["A"; "B"]%string demo_classes =
  Ok (softmax (ar := exact_arith) (as_f32 arSoftmax), [0%nat; 0%nat],
      np_mean [true; false]).
Proof.
  intros Hb H. unfold fuse.
  rewrite (exact_argmax_axis1_softmax _ Hb), H. reflexivity.
Qed.

Example demo_main_run :
  main (ar := exact_arith) (demo_world "/work" "lstm") =
  (models_trace (demo_world "/work" "lstm")
     (pg_trace_load sModelImageBest ++
      pg_trace_infer sImageFeatureDir (demo_model "lstm" demo_proba_image)
        (demo_gen ["A"; "B"]%string))
     (np_mean [true; true])
     (pg_trace_load sModelImageLast ++
      pg_trace_infer sImageFeatureDir (demo_model "lstm" demo_proba_image)
        (demo_gen ["A"; "B"]%string))
     (np_mean [true; true])
     (pg_trace_load sModelOflowBest ++
      pg_trace_infer sOflowFeatureDir (demo_model "lstm" demo_proba_oflow)
        (demo_gen ["A"; "B"]%string))
     (np_mean [true; false])
     (pg_trace_load sModelOflowLast ++
      pg_trace_infer sOflowFeatureDir (demo_model "lstm" demo_proba_oflow)
        (demo_gen ["A"; "B"]%string))
     (np_mean [true; false])
   ++ [EvPrint (MsgAccuracy caption_last (percent (np_mean [true; false])));
       EvPrint (MsgAccuracy caption_oflow (percent (np_mean [true; false])));
       EvPrint (MsgAccuracy caption_all (percent (np_mean [true; false])))],
   Ok tt).
Proof.
  rewrite (main_run (demo_world "/work" "lstm") _ _ _ _ _ _ _ _ _ _ _ _ _ _ _ _
             _ _ _ _
             (demo_pg_image "/work" "lstm" sImageFeatureDir sModelImageBest eq_refl)
             (demo_pg_image "/work" "lstm" sImageFeatureDir sModelImageLast eq_refl)
             (demo_pg_oflow "/work" "lstm" sOflowFeatureDir sModelOflowBest eq_refl)
             (demo_pg_oflow "/work" "lstm" sOflowFeatureDir sModelOflowLast eq_refl)).
  cbn [read_VideoClasses demo_world].
  assert (F : forall a : ndarray2,
            Forall (Forall (fun x => x < 89)) a ->
            argmax_axis1 a = Ok [0%nat; 0%nat] ->
            fuse (ar := exact_arith) (as_f32 a) ["A"; "B"]%string demo_classes =
            Ok (softmax (ar := exact_arith) (as_f32 a), [0%nat; 0%nat],
                np_mean [true; false])) by exact demo_fuse.
  erewrite (main_fusion_run (ar := exact_arith) demo_classes
             demo_proba_image demo_proba_image demo_proba_oflow demo_proba_oflow
             ["A"; "B"]%string
             (as_f32 [[1 + 1; 0 + 0]; [0 + 1; 1 + 0]])
             (as_f32 [[1 + 1; 0 + 0]; [1 + 1; 0 + 0]])
             (as_f32 [[1 + 1 + 1 + 1; 0 + 0 + 0 + 0];
                      [0 + 0 + 1 + 1; 1 + 1 + 0 + 0]])
             _ _ _ [0%nat; 0%nat] [0%nat; 0%nat] [0%nat; 0%nat]
             (np_mean [true; false]) (np_mean [true; false])
             (np_mean [true; false])).
  - reflexivity.
  - reflexivity.
  - apply F; [repeat constructor; lra |].
    unfold argmax_axis1; simpl; decide_R; reflexivity.
  - reflexivity.
  - apply F; [repeat constructor; lra |].
    unfold argmax_axis1; simpl; decide_R; reflexivity.
  - reflexivity.
  - apply F; [repeat constructor; lra |].
    unfold argmax_axis1; simpl; decide_R; reflexivity.
Qed.


(** ** Boundary cases *)

(** An array without columns: the rows of its softmax are empty, and
    [argmax] raises on them. *)
Example softmax_no_columns {ar : Float32Arith} :
  softmax [[]; []] = [[]; []] /\
  argmax32_axis1 (softmax [[]; []]) =
  Raise (ValueError "attempt to get argmax of an empty sequence").
Proof. split; reflexivity. Qed.

(** More top labels asked for than there are classes: the shape guard is
    passed, three lines are printed and the fourth lookup in the top-label
    array is out of bounds. *)
Example demo_predict_nTop_too_large :
  predict insertion_argsort demo_features (demo_model "lstm" []) demo_classes3 4 =
  ([EvPrint (MsgText "Predict video category with lstm ...");
    EvPredict "lstm" (expand_dims demo_features);
    EvPrint (MsgTop 1 1 "B beta" (1 * 100));
    EvPrint (MsgTop 2 2 "C gamma" (0 * 100));
    EvPrint (MsgTop 3 0 "A alpha" (0 * 100))],
   Raise IndexError).
Proof.
  unfold predict. cbn [km_predict demo_model]. rewrite demo_argsort.
  reflexivity.
Qed.

(** [nTop = 0]: the slice [[-0:]] is the whole array, nothing is printed
    and the most probable label is still returned. *)
Example demo_predict_nTop_zero :
  predict insertion_argsort demo_features (demo_model "lstm" []) demo_classes3 0 =
  ([EvPrint (MsgText "Predict video category with lstm ...");
    EvPredict "lstm" (expand_dims demo_features)],
   Ok (1%nat, "B beta", 1)).
Proof.
  unfold predict. cbn [km_predict demo_model]. rewrite demo_argsort.
  reflexivity.
Qed.

(** A class table with fewer rows than the model has classes: the lookup
    of the predicted class of the second sample fails. *)
Example demo_pg_missing_class :
  snd (predict_generator (demo_world "/work" "lstm") sImageFeatureDir
         sModelImageBest
         {| dfClass := [mk_ClassRow "A" "alpha"]; liClasses := ["A"]%string |}
         nBatchSize_default) =
  Raise KeyError.
Proof.
  rewrite predict_generator_run. cbn [load_model demo_world].
  replace (is_image_model sModelImageBest) with true by reflexivity.
  cbn [new_FeaturesGenerator demo_world nSamples demo_gen
       km_predict_generator demo_model dfSamples_sLabel].
  unfold pg_result. cbn [Nat.eqb negb length snd demo_proba_image].
  fold demo_proba_image. rewrite demo_argmax_image. reflexivity.
Qed.

(** * Further properties of the script *)

(** ** predict: normal form *)

Lemma predict_print_top_run (oClasses : VideoClasses)
    (arTopLabels : list nat) (arTopProbas : list R) (i : nat) :
  predict_print_top oClasses arTopLabels arTopProbas i =
  match top_lookup oClasses arTopLabels arTopProbas i with
  | Ok (k, s, p) => ([EvPrint (MsgTop (i + 1) k s (p * 100))], Ok tt)
  | Raise e => ([], Raise e)
  end.
Proof.
  unfold predict_print_top, top_lookup.
  destruct (getitem arTopLabels i) as [k |]; [| reflexivity].
  rewrite (bind_lift_Ok _ _ k eq_refl). cbn [rbind].
  destruct (series_get oClasses sClass k) as [c |]; [| reflexivity].
  rewrite (bind_lift_Ok _ _ c eq_refl). cbn [rbind].
  destruct (series_get oClasses sDetail k) as [d |]; [| reflexivity].
  rewrite (bind_lift_Ok _ _ d eq_refl). cbn [rbind].
  destruct (getitem arTopProbas i) as [p |]; [| reflexivity].
  rewrite (bind_lift_Ok _ _ p eq_refl). reflexivity.
Qed.

Lemma predict_run (np_argsort : list R -> list nat) (arFeatures : ndarray)
    (keModel : KerasModel) (oClasses : VideoClasses) (nTop : Z) :
  skipn 1 (input_shape keModel) = map Some (shape arFeatures) ->
  let arProbas := km_predict keModel arFeatures in
  let arTopLabels := rev (py_slice_from (- nTop) (np_argsort arProbas)) in
  let head :=
    [EvPrint (MsgText ("Predict video category with " ++ name keModel ++ " ...")%string);
     EvPredict (name keModel) (expand_dims arFeatures)] in
  predict np_argsort arFeatures keModel oClasses nTop =
  match take arProbas arTopLabels with
  | Raise e => (head, Raise e)
  | Ok arTopProbas =>
      match for_ (range nTop) (predict_print_top oClasses arTopLabels arTopProbas) with
      | (tl, Raise e) => (head ++ tl, Raise e)
      | (tl, Ok _) => (head ++ tl, top_lookup oClasses arTopLabels arTopProbas 0)
      end
  end.
Proof.
  intros Hshape arProbas arTopLabels head. unfold predict.
  rewrite (proj2 (shape_eqb_spec _ _) Hshape). simpl negb. cbv iota.
  fold arProbas. fold arTopLabels.
  unfold print. rewrite !bind_emit. cbv beta.
  destruct (take arProbas arTopLabels) as [q |] eqn:Hq; [| reflexivity].
  rewrite (bind_lift_Ok _ _ q eq_refl).
  destruct (for_ (range nTop) (predict_print_top oClasses arTopLabels q))
    as [tl [[] | e]] eqn:Hloop.
  - rewrite (bind_Ok _ _ tl tt eq_refl). cbv beta. unfold top_lookup.
    destruct (getitem arTopLabels 0) as [k |]; cbn [rbind];
      [| simpl; now rewrite app_nil_r].
    rewrite (bind_lift_Ok _ _ k eq_refl).
    destruct (series_get oClasses sClass k) as [c |]; cbn [rbind];
      [| simpl; now rewrite app_nil_r].
    rewrite (bind_lift_Ok _ _ c eq_refl).
    destruct (series_get oClasses sDetail k) as [d |]; cbn [rbind];
      [| simpl; now rewrite app_nil_r].
    rewrite (bind_lift_Ok _ _ d eq_refl).
    destruct (getitem q 0) as [p |]; cbn [rbind];
      [| simpl; now rewrite app_nil_r].
    rewrite (bind_lift_Ok _ _ p eq_refl). simpl. now rewrite app_nil_r.
  - reflexivity.
Qed.

Lemma for_top_fail (oClasses : VideoClasses) (top : list nat) (q : list R)
    (l1 l2 : list nat) (i : nat) (rs : list (nat * string * R)) (e : exn) :
  mapM (top_lookup oClasses top q) l1 = Ok rs ->
  top_lookup oClasses top q i = Raise e ->
  for_ (l1 ++ i :: l2) (predict_print_top oClasses top q) =
  (map top_event (combine l1 rs), Raise e).
Proof.
  revert rs. induction l1 as [| j l1 IH]; intros rs H Hi; simpl in *.
  - inversion H. rewrite predict_print_top_run, Hi. reflexivity.
  - destruct (top_lookup oClasses top q j) as [[[k s] p] |] eqn:Hj;
      simpl in H; [| discriminate].
    destruct (mapM (top_lookup oClasses top q) l1) as [rs' |] eqn:Hl;
      simpl in H; [| discriminate].
    inversion H; subst rs. rewrite predict_print_top_run, Hj.
    simpl. rewrite (IH rs' eq_refl Hi). reflexivity.
Qed.

Lemma for_top_inv (oClasses : VideoClasses) (top : list nat) (q : list R)
    (l : list nat) (tl : list event) (u : unit) :
  for_ l (predict_print_top oClasses top q) = (tl, Ok u) ->
  exists rs, mapM (top_lookup oClasses top q) l = Ok rs /\
             tl = map top_event (combine l rs).
Proof.
  destruct u. revert tl. induction l as [| i l IH]; intros tl H; simpl in *.
  - inversion H. exists []. auto.
  - rewrite predict_print_top_run in H.
    destruct (top_lookup oClasses top q i) as [[[k s] p] |] eqn:Hi;
      [| discriminate].
    simpl in H.
    destruct (for_ l (predict_print_top oClasses top q)) as [tl' [[] | e]]
      eqn:Hl; [| discriminate].
    destruct (IH tl' eq_refl) as (rs & Hrs & ->).
    inversion H; subst. exists ((k, s, p) :: rs). rewrite Hrs. auto.
Qed.

Lemma for_top_no_inference (oClasses : VideoClasses) (top : list nat)
    (q : list R) (l : list nat) :
  filter is_inference (fst (for_ l (predict_print_top oClasses top q))) = [].
Proof.
  induction l as [| i l IH]; simpl; [reflexivity |].
  rewrite predict_print_top_run.
  destruct (top_lookup oClasses top q i) as [[[k s] p] |]; [| reflexivity].
  simpl. destruct (for_ l (predict_print_top oClasses top q)) as [tl r].
  simpl in *. exact IH.
Qed.

(** ** predict: the lookups *)

Lemma take_map (a : list R) (idx : list nat) :
  Forall (fun k => (k < length a)%nat) idx ->
  take a idx = Ok (map (fun k => nth k a 0) idx).
Proof.
  unfold take. induction 1 as [| k idx Hk _ IH]; simpl; [reflexivity |].
  unfold getitem at 1.
  destruct (nth_error a k) as [x |] eqn:E;
    [| apply nth_error_None in E; lia].
  simpl. rewrite IH. simpl. now rewrite (nth_error_nth _ _ 0 E).
Qed.

Lemma class_text_series (oClasses : VideoClasses) (k : nat) :
  (k < length (dfClass oClasses))%nat ->
  exists c d, series_get oClasses sClass k = Ok c /\
              series_get oClasses sDetail k = Ok d /\
              class_text oClasses k = (c ++ " " ++ d)%string.
Proof.
  intros Hk. unfold series_get, class_text.
  destruct (nth_error (dfClass oClasses) k) as [row |] eqn:E;
    [eauto | apply nth_error_None in E; lia].
Qed.

Lemma top_lookup_Ok (oClasses : VideoClasses) (top : list nat)
    (f : nat -> R) (i k : nat) :
  nth_error top i = Some k -> (k < length (dfClass oClasses))%nat ->
  top_lookup oClasses top (map f top) i = Ok (k, class_text oClasses k, f k).
Proof.
  intros Hi Hk. unfold top_lookup.
  rewrite (proj2 (getitem_Ok _ _ _) Hi). cbn [rbind].
  destruct (class_text_series oClasses k Hk) as (c & d & -> & -> & ->).
  cbn [rbind].
  rewrite (proj2 (getitem_Ok (map f top) i (f k))); [reflexivity |].
  rewrite nth_error_map, Hi. reflexivity.
Qed.

Lemma top_lookup_IndexError (oClasses : VideoClasses) (top : list nat)
    (q : list R) (i : nat) :
  (length top <= i)%nat -> top_lookup oClasses top q i = Raise IndexError.
Proof.
  intros Hi. unfold top_lookup, getitem.
  now rewrite (proj2 (nth_error_None top i) Hi).
Qed.

Lemma top_lookup_KeyError (oClasses : VideoClasses) (top : list nat)
    (q : list R) (i k : nat) :
  nth_error top i = Some k -> (length (dfClass oClasses) <= k)%nat ->
  top_lookup oClasses top q i = Raise KeyError.
Proof.
  intros Hi Hk. unfold top_lookup.
  rewrite (proj2 (getitem_Ok _ _ _) Hi). cbn [rbind]. unfold series_get.
  now rewrite (proj2 (nth_error_None (dfClass oClasses) k) Hk).
Qed.

Lemma top_lookup_inv (oClasses : VideoClasses) (top : list nat)
    (f : nat -> R) (i k : nat) (s : string) (p : R) :
  top_lookup oClasses top (map f top) i = Ok (k, s, p) ->
  nth_error top i = Some k /\ (k < length (dfClass oClasses))%nat /\
  s = class_text oClasses k /\ p = f k.
Proof.
  intros H.
  destruct (nth_error top i) as [k' |] eqn:Hi.
  - destruct (Nat.lt_ge_cases k' (length (dfClass oClasses))) as [Hk | Hk].
    + rewrite (top_lookup_Ok _ _ _ _ _ Hi Hk) in H. inversion H; subst. auto.
    + rewrite (top_lookup_KeyError _ _ _ _ _ Hi Hk) in H. discriminate.
  - rewrite top_lookup_IndexError in H; [discriminate |].
    now apply nth_error_None.
Qed.

Lemma mapM_top_lookup_seq (oClasses : VideoClasses) (top : list nat)
    (f : nat -> R) (n : nat) :
  (n <= length top)%nat ->
  Forall (fun k => (k < length (dfClass oClasses))%nat) top ->
  mapM (top_lookup oClasses top (map f top)) (seq 0 n) =
  Ok (map (fun k => (k, class_text oClasses k, f k)) (firstn n top)).
Proof.
  intros Hn Hcls.
  assert (G : forall m s, (s + m <= length top)%nat ->
    mapM (top_lookup oClasses top (map f top)) (seq s m) =
    Ok (map (fun k => (k, class_text oClasses k, f k))
          (firstn m (skipn s top)))).
  { induction m as [| m IH]; intros s Hs; simpl; [reflexivity |].
    destruct (nth_error top s) as [k |] eqn:Hk;
      [| apply nth_error_None in Hk; lia].
    rewrite (top_lookup_Ok oClasses top f s k Hk).
    - cbn [rbind]. rewrite IH by lia. cbn [rbind].
      destruct (nth_error_split _ _ Hk) as (l1 & l2 & E & Hl1).
      assert (E1 : skipn s top = k :: l2).
      { rewrite E, <- Hl1, skipn_app, skipn_all, Nat.sub_diag. reflexivity. }
      assert (E2 : skipn (S s) top = l2).
      { rewrite E. replace (S s) with (length (l1 ++ [k]))
          by (rewrite length_app; simpl; lia).
        replace (l1 ++ k :: l2) with ((l1 ++ [k]) ++ l2)
          by (rewrite <- app_assoc; reflexivity).
        rewrite skipn_app, skipn_all, Nat.sub_diag. reflexivity. }
      rewrite E1, E2. reflexivity.
    - rewrite Forall_forall in Hcls. apply Hcls.
      eapply nth_error_In; eauto. }
  rewrite (G n 0%nat) by lia. reflexivity.
Qed.

(** ** predict: the top labels *)

Lemma StronglySorted_app_inv {A} (R : A -> A -> Prop) (l1 l2 : list A) :
  StronglySorted R (l1 ++ l2) ->
  StronglySorted R l1 /\ StronglySorted R l2 /\
  forall x y, In x l1 -> In y l2 -> R x y.
Proof.
  induction l1 as [| a l1 IH]; simpl; intros H.
  - repeat split; [constructor | exact H | intros x y []].
  - inversion H as [| ? ? Hs Hf]; subst.
    destruct (IH Hs) as (H1 & H2 & H3).
    apply Forall_app in Hf. destruct Hf as [Hf1 Hf2].
    repeat split; [constructor; assumption | exact H2 |].
    intros x y [<- | Hx] Hy; [| now apply H3].
    rewrite Forall_forall in Hf2. now apply Hf2.
Qed.

Lemma StronglySorted_app {A} (R : A -> A -> Prop) (l1 l2 : list A) :
  StronglySorted R l1 -> StronglySorted R l2 ->
  (forall x y, In x l1 -> In y l2 -> R x y) ->
  StronglySorted R (l1 ++ l2).
Proof.
  induction 1 as [| a l1 Hs IH Hf]; simpl; intros H2 H; [exact H2 |].
  constructor.
  - apply IH; [exact H2 |]. intros x y Hx Hy. apply H; [now right | exact Hy].
  - apply Forall_app. split; [exact Hf |].
    apply Forall_forall. intros y Hy. apply H; [now left | exact Hy].
Qed.

Lemma StronglySorted_rev {A} (R : A -> A -> Prop) (l : list A) :
  StronglySorted R l -> StronglySorted (fun x y => R y x) (rev l).
Proof.
  induction 1 as [| a l Hs IH Hf]; simpl; [constructor |].
  apply StronglySorted_app; [exact IH | repeat constructor |].
  intros x y Hx [<- | []]. apply in_rev in Hx.
  rewrite Forall_forall in Hf. now apply Hf.
Qed.

Section TopLabels.

Variable np_argsort : list R -> list nat.
Hypothesis Hspec : argsort_spec np_argsort.
Variable a : list R.

Let top (nTop : Z) : list nat := rev (py_slice_from (- nTop) (np_argsort a)).

Lemma argsort_length : length (np_argsort a) = length a.
Proof.
  destruct (Hspec a) as [Hperm _]. apply Permutation_length in Hperm.
  now rewrite length_seq in Hperm.
Qed.

Lemma argsort_NoDup : NoDup (np_argsort a).
Proof.
  destruct (Hspec a) as [Hperm _].
  eapply Permutation_NoDup; [apply Permutation_sym; exact Hperm |].
  apply seq_NoDup.
Qed.

Lemma argsort_In (k : nat) : In k (np_argsort a) <-> (k < length a)%nat.
Proof.
  destruct (Hspec a) as [Hperm _]. split; intros H.
  - apply (Permutation_in _ Hperm) in H. apply in_seq in H. lia.
  - apply (Permutation_in _ (Permutation_sym Hperm)). apply in_seq. lia.
Qed.

Lemma top_split (nTop : Z) :
  exists m, rev (top nTop) = skipn m (np_argsort a) /\
            np_argsort a = firstn m (np_argsort a) ++ rev (top nTop).
Proof.
  unfold top. destruct (py_slice_from_skipn (- nTop) (np_argsort a)) as [m E].
  exists m. rewrite rev_involutive, E. split; [reflexivity |].
  symmetry. apply firstn_skipn.
Qed.

Lemma top_In (nTop : Z) (k : nat) : In k (top nTop) -> (k < length a)%nat.
Proof.
  intros H. apply argsort_In. destruct (top_split nTop) as (m & _ & E).
  rewrite E. apply in_or_app. right.
  exact (proj1 (in_rev (top nTop) k) H).
Qed.

Lemma top_range (nTop : Z) : Forall (fun k => (k < length a)%nat) (top nTop).
Proof. apply Forall_forall. intros k. apply top_In. Qed.

Lemma top_NoDup (nTop : Z) : NoDup (top nTop).
Proof.
  destruct (top_split nTop) as (m & _ & E). pose proof argsort_NoDup as H.
  rewrite E in H. apply NoDup_app_remove_l in H.
  apply NoDup_rev in H. now rewrite rev_involutive in H.
Qed.

Lemma top_sorted (nTop : Z) :
  StronglySorted (fun j k => nth k a 0 <= nth j a 0) (top nTop).
Proof.
  destruct (top_split nTop) as (m & _ & E). destruct (Hspec a) as [_ Hs].
  rewrite E in Hs. apply StronglySorted_app_inv in Hs.
  destruct Hs as (_ & Hs & _). apply StronglySorted_rev in Hs.
  now rewrite rev_involutive in Hs.
Qed.

(** A class that is not among the top labels is at most as probable as
    each of them. *)
Lemma top_dominates (nTop : Z) (j k : nat) :
  (j < length a)%nat -> ~ In j (top nTop) -> In k (top nTop) ->
  nth j a 0 <= nth k a 0.
Proof.
  intros Hj Hnot Hk. destruct (top_split nTop) as (m & _ & E).
  destruct (Hspec a) as [_ Hs]. rewrite E in Hs.
  apply StronglySorted_app_inv in Hs. destruct Hs as (_ & _ & Hs).
  apply Hs; [| exact (proj1 (in_rev (top nTop) k) Hk)].
  apply argsort_In in Hj. rewrite E in Hj. apply in_app_or in Hj.
  destruct Hj as [Hj | Hj]; [exact Hj |].
  exfalso. apply Hnot. exact (proj2 (in_rev (top nTop) j) Hj).
Qed.

Lemma top_length_pos (nTop : Z) :
  (1 <= nTop)%Z -> length (top nTop) = Nat.min (Z.to_nat nTop) (length a).
Proof.
  intros H. unfold top, py_slice_from. rewrite length_rev.
  replace (- nTop <? 0)%Z with true by (symmetry; apply Z.ltb_lt; lia).
  rewrite length_skipn, argsort_length. lia.
Qed.

Lemma top_length_nonpos (nTop : Z) :
  (nTop <= 0)%Z -> length (top nTop) = (length a - Z.to_nat (- nTop))%nat.
Proof.
  intros H. unfold top, py_slice_from. rewrite length_rev.
  replace (- nTop <? 0)%Z with false by (symmetry; apply Z.ltb_ge; lia).
  now rewrite length_skipn, argsort_length.
Qed.

(** The first top label is an index of a largest value. *)
Lemma top_head_max (nTop : Z) (k : nat) :
  nth_error (top nTop) 0 = Some k ->
  forall j, (j < length a)%nat -> nth j a 0 <= nth k a 0.
Proof.
  intros Hk. unfold top in Hk. apply rev_head_last in Hk.
  destruct Hk as [l0 Hk].
  destruct (py_slice_from_skipn (- nTop) (np_argsort a)) as [m Hm].
  rewrite Hm in Hk.
  assert (E : np_argsort a = (firstn m (np_argsort a) ++ l0) ++ [k]).
  { rewrite <- app_assoc, <- Hk. symmetry. apply firstn_skipn. }
  now destruct (argsort_last_max np_argsort a _ _ Hspec E).
Qed.

Lemma take_top (nTop : Z) :
  take a (top nTop) = Ok (map (fun k => nth k a 0) (top nTop)).
Proof. apply take_map. apply top_range. Qed.

End TopLabels.

(** ** predict: what is printed and returned *)

Lemma top_lines_app (t1 t2 : list event) :
  top_lines (t1 ++ t2) = top_lines t1 ++ top_lines t2.
Proof. apply flat_map_app. Qed.

Lemma top_lines_events (oClasses : VideoClasses) (a : list R)
    (l labels : list nat) :
  top_lines
    (map top_event
       (combine l (map (fun k => (k, class_text oClasses k, nth k a 0)) labels))) =
  map (fun p => top_line_of oClasses a (fst p) (snd p)) (combine l labels).
Proof.
  revert labels. induction l as [| i l IH]; intros [| k labels]; simpl;
    try reflexivity.
  now rewrite IH.
Qed.

Lemma top_lines_length (l : list (nat * (nat * string * R))) :
  length (top_lines (map top_event l)) = length l.
Proof.
  induction l as [| [i [[k s] p]] l IH]; simpl; [reflexivity |].
  now rewrite IH.
Qed.

Lemma predict_Ok_inv (np_argsort : list R -> list nat) (arFeatures : ndarray)
    (keModel : KerasModel) (oClasses : VideoClasses) (nTop : Z)
    (tr : list event) (res : nat * string * R) :
  argsort_spec np_argsort ->
  predict np_argsort arFeatures keModel oClasses nTop = (tr, Ok res) ->
  let a := km_predict keModel arFeatures in
  let top := rev (py_slice_from (- nTop) (np_argsort a)) in
  let q := map (fun k => nth k a 0) top in
  exists rs,
    mapM (top_lookup oClasses top q) (range nTop) = Ok rs /\
    top_lines tr = top_lines (map top_event (combine (range nTop) rs)) /\
    top_lookup oClasses top q 0 = Ok res.
Proof.
  intros Hspec H a top q. destruct res as [[k s] p].
  destruct (predict_inv _ _ _ _ _ _ _ _ _ H) as (Hshape & _).
  rewrite (predict_run _ _ _ _ _ Hshape) in H. fold a in H. fold top in H.
  unfold top in H. rewrite (take_top np_argsort Hspec a nTop) in H.
  fold top in H. fold q in H.
  destruct (for_ (range nTop) (predict_print_top oClasses top q))
    as [tl [u | e]] eqn:Hloop; [| discriminate].
  destruct (for_top_inv _ _ _ _ _ _ Hloop) as (rs & Hrs & ->).
  assert (Ht : tr = fst (tr, Ok (k, s, p))) by reflexivity.
  assert (Hr : Ok (k, s, p) = snd (tr, Ok (k, s, p))) by reflexivity.
  rewrite <- H in Ht, Hr. cbn [fst snd] in Ht, Hr.
  exists rs. split; [exact Hrs |].
  split; [rewrite Ht; reflexivity | symmetry; exact Hr].
Qed.

(** X1.  The lines "Top i" that [predict] prints before it returns are the
    [nTop] most probable labels: ranks 1, 2, ..., distinct labels with
    their class text and their probability times 100, in order of
    non-increasing probability, and no label that is left out is more
    probable than one that is listed. *)
Theorem predict_prints_top_ranking (np_argsort : list R -> list nat)
    (arFeatures : ndarray) (keModel : KerasModel) (oClasses : VideoClasses)
    (nTop : Z) (tr : list event) (res : nat * string * R) :
  argsort_spec np_argsort ->
  predict np_argsort arFeatures keModel oClasses nTop = (tr, Ok res) ->
  let a := km_predict keModel arFeatures in
  exists labels : list nat,
    length labels = Z.to_nat nTop /\
    top_lines tr =
      map (fun p => top_line_of oClasses a (fst p) (snd p))
          (combine (seq 0 (length labels)) labels) /\
    NoDup labels /\
    Forall (fun k => (k < length a)%nat /\
                     (k < length (dfClass oClasses))%nat) labels /\
    StronglySorted (fun j k => nth k a 0 <= nth j a 0) labels /\
    (forall j k, (j < length a)%nat -> ~ In j labels -> In k labels ->
                 nth j a 0 <= nth k a 0).
Proof.
  intros Hspec H a.
  destruct (predict_Ok_inv _ _ _ _ _ _ _ Hspec H) as (rs & Hrs & Htr & _).
  fold a in Hrs, Htr.
  set (top := rev (py_slice_from (- nTop) (np_argsort a))) in *.
  set (f := fun k => nth k a 0) in *.
  destruct (Z.le_gt_cases nTop 0) as [Hle | Hgt].
  - exists []. unfold range in *.
    replace (Z.to_nat nTop) with 0%nat in * by lia. simpl in Hrs.
    inversion Hrs; subst rs. simpl in Htr.
    split; [reflexivity |]. split; [exact Htr |].
    split; [constructor |]. split; [constructor |].
    split; [constructor |]. intros ? ? _ _ [].
  - set (n' := Z.to_nat nTop) in *. unfold range in Hrs, Htr.
    fold n' in Hrs, Htr.
    assert (Hn' : (1 <= n')%nat) by (unfold n'; lia).
    assert (Hat : forall i, (i < n')%nat ->
              exists k, nth_error top i = Some k /\
                        (k < length (dfClass oClasses))%nat).
    { intros i Hi.
      assert (Hs : nth_error (seq 0 n') i = Some i).
      { rewrite nth_error_nth' with (d := 0%nat) by (rewrite length_seq; lia).
        rewrite seq_nth by lia. reflexivity. }
      destruct (mapM_nth_error _ _ _ _ _ Hrs Hs) as ([[k s] p] & Hk & _).
      apply top_lookup_inv in Hk. exists k. tauto. }
    assert (Hlen : length top = n').
    { assert (L : length top = Nat.min n' (length a))
        by (apply (top_length_pos np_argsort Hspec a nTop); lia).
      destruct (Hat (n' - 1)%nat) as (k & Hk & _); [lia |].
      assert (n' - 1 < length top)%nat by (apply nth_error_Some; congruence).
      lia. }
    assert (Hcls : Forall (fun k => (k < length (dfClass oClasses))%nat) top).
    { apply Forall_forall. intros k Hk.
      destruct (In_nth_error _ _ Hk) as [i Hi].
      assert (Hi' : (i < n')%nat)
        by (rewrite <- Hlen; apply nth_error_Some; congruence).
      destruct (Hat i Hi') as (k' & Hk' & Hc). congruence. }
    rewrite (mapM_top_lookup_seq oClasses top f n') in Hrs by (auto; lia).
    inversion Hrs; subst rs. clear Hrs.
    rewrite <- Hlen, firstn_all in Htr.
    exists top. split; [exact Hlen |]. split.
    { rewrite Htr. apply top_lines_events. }
    split; [apply (top_NoDup np_argsort Hspec a nTop) |].
    split.
    { apply Forall_forall. intros k Hk. split.
      - apply (top_In np_argsort Hspec a nTop k Hk).
      - rewrite Forall_forall in Hcls. now apply Hcls. }
    split; [apply (top_sorted np_argsort Hspec a nTop) |].
    intros j k. apply (top_dominates np_argsort Hspec a nTop).
Qed.

Lemma predict_prints_top_ranking_witness :
  exists labels : list nat,
    length labels = 3%nat /\
    top_lines (fst (predict insertion_argsort demo_features
                      (demo_model "lstm" []) demo_classes3 3)) =
      map (fun p => top_line_of demo_classes3 [0; 1; 0] (fst p) (snd p))
          (combine (seq 0 (length labels)) labels).
Proof.
  destruct (predict_prints_top_ranking insertion_argsort demo_features
              (demo_model "lstm" []) demo_classes3 3 _ _
              insertion_argsort_spec demo_predict_run)
    as (labels & Hl & Ht & _).
  exists labels. split; [exact Hl |]. rewrite demo_predict_run. exact Ht.
Defined.

(** X2.  The second component of the 3-tuple that [predict] returns is the
    class text (short code, space, detail) of the returned label, and for
    [nTop >= 1] the returned tuple is what the line "Top 1" shows. *)
Theorem predict_returns_first_line (np_argsort : list R -> list nat)
    (arFeatures : ndarray) (keModel : KerasModel) (oClasses : VideoClasses)
    (nTop : Z) (tr : list event) (nLabel : nat) (sLabel : string)
    (fProba : R) :
  argsort_spec np_argsort ->
  predict np_argsort arFeatures keModel oClasses nTop =
    (tr, Ok (nLabel, sLabel, fProba)) ->
  nth_error (dfClass oClasses) nLabel <> None /\
  sLabel = class_text oClasses nLabel /\
  ((1 <= nTop)%Z ->
   exists rest, top_lines tr = (1%nat, nLabel, sLabel, fProba * 100) :: rest).
Proof.
  intros Hspec H.
  destruct (predict_Ok_inv _ _ _ _ _ _ _ Hspec H) as (rs & Hrs & Htr & H0).
  pose proof (top_lookup_inv _ _ _ _ _ _ _ H0) as (Hk & Hc & Hs & Hp).
  split; [apply nth_error_Some; exact Hc |]. split; [exact Hs |].
  intros HnTop. unfold range in Hrs, Htr.
  destruct (Z.to_nat nTop) as [| n'] eqn:E; [lia |].
  simpl in Hrs. rewrite H0 in Hrs. cbn [rbind] in Hrs.
  match type of Hrs with rbind ?m _ = _ => destruct m as [rs' |] end;
    [| discriminate].
  simpl in Hrs. inversion Hrs; subst rs. rewrite Htr. simpl.
  eexists. reflexivity.
Qed.

Lemma predict_returns_first_line_witness :
  nth_error (dfClass demo_classes3) 1 <> None /\
  "B beta" = class_text demo_classes3 1 /\
  ((1 <= 3)%Z ->
   exists rest,
     top_lines (fst (predict insertion_argsort demo_features
                       (demo_model "lstm" []) demo_classes3 3)) =
     (1%nat, 1%nat, "B beta", 1 * 100) :: rest).
Proof.
  rewrite demo_predict_run.
  exact (predict_returns_first_line insertion_argsort demo_features
           (demo_model "lstm" []) demo_classes3 3 _ 1%nat "B beta" 1
           insertion_argsort_spec demo_predict_run).
Defined.

(** X3.  More top labels than classes: when the shape guard is passed,
    the class table has a row for every class and [nTop] exceeds the
    number of classes of the model output, [predict] prints one "Top" line
    per class and then raises [IndexError]; it returns nothing. *)
Theorem predict_nTop_too_large (np_argsort : list R -> list nat)
    (arFeatures : ndarray) (keModel : KerasModel) (oClasses : VideoClasses)
    (nTop : Z) :
  argsort_spec np_argsort ->
  skipn 1 (input_shape keModel) = map Some (shape arFeatures) ->
  (Z.of_nat (length (km_predict keModel arFeatures)) < nTop)%Z ->
  (length (km_predict keModel arFeatures) <= length (dfClass oClasses))%nat ->
  exists tr,
    predict np_argsort arFeatures keModel oClasses nTop = (tr, Raise IndexError) /\
    length (top_lines tr) = length (km_predict keModel arFeatures).
Proof.
  intros Hspec Hshape HnTop Hcls.
  rewrite (predict_run _ _ _ _ _ Hshape).
  set (a := km_predict keModel arFeatures) in *.
  rewrite (take_top np_argsort Hspec a nTop).
  set (top := rev (py_slice_from (- nTop) (np_argsort a))).
  set (f := fun k => nth k a 0).
  assert (Hlen : length top = length a).
  { unfold top. rewrite (top_length_pos np_argsort Hspec a nTop) by lia. lia. }
  assert (Hcl : Forall (fun k => (k < length (dfClass oClasses))%nat) top).
  { eapply Forall_impl; [| apply (top_range np_argsort Hspec a nTop)].
    simpl. intros. lia. }
  assert (Hseq : range nTop =
                 seq 0 (length a) ++ length a
                   :: seq (S (length a)) (Z.to_nat nTop - length a - 1)).
  { unfold range.
    replace (Z.to_nat nTop)
      with (length a + S (Z.to_nat nTop - length a - 1))%nat at 1 by lia.
    rewrite seq_app. reflexivity. }
  rewrite Hseq.
  rewrite (for_top_fail oClasses top (map f top) _ _ _ _ IndexError
             (mapM_top_lookup_seq oClasses top f (length a) ltac:(lia) Hcl)
             (top_lookup_IndexError oClasses top (map f top) (length a)
                ltac:(lia))).
  eexists. split; [reflexivity |].
  rewrite top_lines_app, length_app, top_lines_length, length_combine,
    length_seq, length_map, length_firstn. simpl. lia.
Qed.

Lemma predict_nTop_too_large_witness :
  exists tr,
    predict insertion_argsort demo_features (demo_model "lstm" [])
      demo_classes3 4 = (tr, Raise IndexError) /\
    length (top_lines tr) = 3%nat.
Proof.
  apply (predict_nTop_too_large insertion_argsort demo_features
           (demo_model "lstm" []) demo_classes3 4 insertion_argsort_spec).
  - reflexivity.
  - simpl. lia.
  - simpl. lia.
Defined.

(** X4.  [nTop <= 0]: the loop does not run and the slice [[-nTop:]] drops
    the [-nTop] least probable labels, so nothing but the announcement is
    printed.  When fewer labels are dropped than there are classes (all
    are kept for [nTop = 0]), [predict] returns a most probable label with
    its text and probability; otherwise the top-label array is empty and
    [predict] raises [IndexError]. *)
Theorem predict_nTop_nonpositive (np_argsort : list R -> list nat)
    (arFeatures : ndarray) (keModel : KerasModel) (oClasses : VideoClasses)
    (nTop : Z) :
  argsort_spec np_argsort ->
  skipn 1 (input_shape keModel) = map Some (shape arFeatures) ->
  (nTop <= 0)%Z ->
  let a := km_predict keModel arFeatures in
  let head :=
    [EvPrint (MsgText ("Predict video category with " ++ name keModel ++ " ...")%string);
     EvPredict (name keModel) (expand_dims arFeatures)] in
  ((- nTop < Z.of_nat (length a))%Z ->
   (length a <= length (dfClass oClasses))%nat ->
   exists k,
     predict np_argsort arFeatures keModel oClasses nTop =
       (head, Ok (k, class_text oClasses k, nth k a 0)) /\
     (k < length a)%nat /\
     forall j, (j < length a)%nat -> nth j a 0 <= nth k a 0) /\
  ((Z.of_nat (length a) <= - nTop)%Z ->
   predict np_argsort arFeatures keModel oClasses nTop =
     (head, Raise IndexError)).
Proof.
  intros Hspec Hshape HnTop a head.
  rewrite (predict_run _ _ _ _ _ Hshape). fold a.
  rewrite (take_top np_argsort Hspec a nTop).
  set (top := rev (py_slice_from (- nTop) (np_argsort a))).
  set (f := fun k => nth k a 0).
  assert (Hlen : length top = (length a - Z.to_nat (- nTop))%nat)
    by (apply (top_length_nonpos np_argsort Hspec a nTop); lia).
  assert (Hr : range nTop = []).
  { unfold range. replace (Z.to_nat nTop) with 0%nat by lia. reflexivity. }
  rewrite Hr. cbn [for_ ret]. split.
  - intros Hkeep Hcls.
    destruct (nth_error top 0) as [k |] eqn:Hk;
      [| apply nth_error_None in Hk; lia].
    assert (Hka : (k < length a)%nat).
    { apply (top_In np_argsort Hspec a nTop). eapply nth_error_In; eauto. }
    exists k. rewrite (top_lookup_Ok oClasses top f 0 k Hk) by lia.
    split; [fold head; now rewrite app_nil_r |]. split; [exact Hka |].
    exact (top_head_max np_argsort Hspec a nTop k Hk).
  - intros Hdrop. rewrite top_lookup_IndexError by lia.
    fold head. now rewrite app_nil_r.
Qed.

Lemma predict_nTop_nonpositive_witness :
  exists k,
    predict insertion_argsort demo_features (demo_model "lstm" [])
      demo_classes3 0 =
    ([EvPrint (MsgText "Predict video category with lstm ...");
      EvPredict "lstm" (expand_dims demo_features)],
     Ok (k, class_text demo_classes3 k, nth k [0; 1; 0] 0)) /\
    (k < 3)%nat /\
    forall j, (j < 3)%nat -> nth j [0; 1; 0] 0 <= nth k [0; 1; 0] 0.
Proof.
  assert (H0 : (0 <= 0)%Z) by lia.
  destruct (predict_nTop_nonpositive insertion_argsort demo_features
              (demo_model "lstm" []) demo_classes3 0 insertion_argsort_spec
              eq_refl H0) as [H _].
  apply H; simpl; lia.
Defined.

(** X5.  A class table without a row for the most probable class: when
    the shape guard is passed, [nTop >= 1], the model output is not empty
    and no index of a largest probability has a row in the class table,
    [predict] raises [KeyError] right after the inference call, before it
    prints any "Top" line. *)
Theorem predict_missing_class (np_argsort : list R -> list nat)
    (arFeatures : ndarray) (keModel : KerasModel) (oClasses : VideoClasses)
    (nTop : Z) :
  argsort_spec np_argsort ->
  skipn 1 (input_shape keModel) = map Some (shape arFeatures) ->
  (1 <= nTop)%Z ->
  let a := km_predict keModel arFeatures in
  a <> [] ->
  (forall k, (k < length a)%nat ->
             (forall j, (j < length a)%nat -> nth j a 0 <= nth k a 0) ->
             (length (dfClass oClasses) <= k)%nat) ->
  predict np_argsort arFeatures keModel oClasses nTop =
  ([EvPrint (MsgText ("Predict video category with " ++ name keModel ++ " ...")%string);
    EvPredict (name keModel) (expand_dims arFeatures)],
   Raise KeyError).
Proof.
  intros Hspec Hshape HnTop a Hne Hmiss.
  rewrite (predict_run _ _ _ _ _ Hshape). fold a.
  rewrite (take_top np_argsort Hspec a nTop).
  set (top := rev (py_slice_from (- nTop) (np_argsort a))).
  set (f := fun k => nth k a 0).
  assert (Hlen : length top = Nat.min (Z.to_nat nTop) (length a))
    by (apply (top_length_pos np_argsort Hspec a nTop); lia).
  assert (Hpos : (0 < length a)%nat)
    by (destruct a; [congruence | simpl; lia]).
  destruct (nth_error top 0) as [k |] eqn:Hk;
    [| apply nth_error_None in Hk; lia].
  assert (Hka : (k < length a)%nat).
  { apply (top_In np_argsort Hspec a nTop). eapply nth_error_In; eauto. }
  assert (Hkc : (length (dfClass oClasses) <= k)%nat).
  { apply Hmiss; [exact Hka |].
    exact (top_head_max np_argsort Hspec a nTop k Hk). }
  assert (Hseq : range nTop = [] ++ 0%nat :: seq 1 (Z.to_nat nTop - 1)).
  { unfold range. replace (Z.to_nat nTop) with (S (Z.to_nat nTop - 1)) at 1
      by lia. reflexivity. }
  rewrite Hseq.
  rewrite (for_top_fail oClasses top (map f top) [] _ 0%nat [] KeyError
             eq_refl (top_lookup_KeyError oClasses top (map f top) 0 k Hk Hkc)).
  reflexivity.
Qed.

Lemma predict_missing_class_witness :
  predict insertion_argsort demo_features (demo_model "lstm" [])
    {| dfClass := [mk_ClassRow "A" "alpha"]; liClasses := ["A"]%string |} 3 =
  ([EvPrint (MsgText "Predict video category with lstm ...");
    EvPredict "lstm" (expand_dims demo_features)],
   Raise KeyError).
Proof.
  assert (H3 : (1 <= 3)%Z) by lia.
  apply (predict_missing_class insertion_argsort demo_features
           (demo_model "lstm" [])
           {| dfClass := [mk_ClassRow "A" "alpha"]; liClasses := ["A"]%string |}
           3 insertion_argsort_spec eq_refl H3).
  - discriminate.
  - simpl. intros k Hk Hmax.
    destruct k as [| k]; [| lia].
    specialize (Hmax 1%nat ltac:(lia)). simpl in Hmax. lra.
Defined.

(** X6.  [predict] calls the network exactly once when the shapes agree,
    whether it then returns or fails in a lookup, and not at all when
    they differ. *)
Theorem predict_one_inference (np_argsort : list R -> list nat)
    (arFeatures : ndarray) (keModel : KerasModel) (oClasses : VideoClasses)
    (nTop : Z) :
  let tr := fst (predict np_argsort arFeatures keModel oClasses nTop) in
  (skipn 1 (input_shape keModel) = map Some (shape arFeatures) ->
   count_inference tr = 1%nat) /\
  (skipn 1 (input_shape keModel) <> map Some (shape arFeatures) ->
   count_inference tr = 0%nat).
Proof.
  intros tr. subst tr. split.
  - intros Hshape. rewrite (predict_run _ _ _ _ _ Hshape).
    match goal with |- context [take ?a ?t] =>
      destruct (take a t) as [q |] end; [| reflexivity].
    match goal with |- context [for_ ?l (predict_print_top _ ?t ?q)] =>
      pose proof (for_top_no_inference oClasses t q l) as Hnone;
      destruct (for_ l (predict_print_top oClasses t q)) as [tl [u | e]]
    end; simpl in Hnone; unfold count_inference; cbn [fst];
      rewrite filter_app, Hnone; reflexivity.
  - intros Hne. unfold predict.
    destruct (shape_eqb (skipn 1 (input_shape keModel)) (shape arFeatures))
      eqn:E; [apply shape_eqb_spec in E; contradiction | reflexivity].
Qed.

Lemma predict_one_inference_witness :
  count_inference
    (fst (predict insertion_argsort demo_features (demo_model "lstm" [])
            demo_classes3 4)) = 1%nat.
Proof.
  apply (predict_one_inference insertion_argsort demo_features
           (demo_model "lstm" []) demo_classes3 4).
  reflexivity.
Defined.

(** ** predict_generator: what is returned *)

Lemma accuracy_spec_bounds (oClasses : VideoClasses) (liLabels : list string)
    (arPred : list nat) (n : nat) :
  (0 < n)%nat -> 0 <= accuracy_spec oClasses liLabels arPred n <= 1.
Proof.
  intros Hn. unfold accuracy_spec.
  set (m := length (filter (correct_at oClasses liLabels arPred) (seq 0 n))).
  assert (Hm : (m <= n)%nat).
  { unfold m. pose proof (filter_length_le (correct_at oClasses liLabels arPred)
                             (seq 0 n)) as L.
    now rewrite length_seq in L. }
  assert (H0 : 0 < INR n) by (apply lt_0_INR; lia).
  assert (H1 : 0 <= INR m) by apply pos_INR.
  assert (H2 : INR m <= INR n) by (apply le_INR; lia).
  split.
  - apply Rmult_le_pos; [exact H1 |]. left. now apply Rinv_0_lt_compat.
  - apply (Rmult_le_reg_r (INR n)); [exact H0 |].
    unfold Rdiv. rewrite Rmult_assoc, Rinv_l by lra. lra.
Qed.

Lemma predict_generator_Ok_spec (w : World) (sFeatureDir sModelPath : string)
    (oClasses : VideoClasses) (nBatchSize : nat) tr fAcc arPred arProba
    liLabels :
  predict_generator w sFeatureDir sModelPath oClasses nBatchSize =
    (tr, Ok (fAcc, arPred, arProba, liLabels)) ->
  liLabels <> [] /\ length liLabels = length arProba /\
  argmax_axis1 arProba = Ok arPred /\
  (exists sePred, loc_sClass oClasses arPred = Ok sePred) /\
  fAcc = Fin (accuracy_spec oClasses liLabels arPred (length liLabels)).
Proof.
  intros H.
  destruct (predict_generator_inv _ _ _ _ _ _ _ _ _ _ H) as (Hn & Hl & _ & Hr).
  destruct (pg_result_inv _ _ _ _ _ _ _ Hr)
    as (E1 & E2 & Hp & se & eq & Hse & Heq & ->).
  rewrite <- E1 in Hp. rewrite <- E2 in Heq.
  assert (Hlen : length liLabels = length arProba).
  { unfold list_eq_series in Heq.
    destruct (Nat.eqb (length liLabels) (length se)) eqn:E; [| discriminate].
    apply Nat.eqb_eq in E. unfold loc_sClass in Hse.
    apply mapM_length in Hse. apply mapM_length in Hp. lia. }
  assert (Hne : liLabels <> []).
  { intros ->. simpl in Hlen. lia. }
  destruct (accuracy_correct _ _ _ _ _ Hse Heq Hne) as [_ Hacc].
  repeat split; eauto.
Qed.

(** X7.  The accuracy that [predict_generator] returns is the fraction of
    the detected samples whose predicted class has the ground-truth label
    as short code; it is a number between 0 and 1, never [nan]. *)
Theorem predict_generator_accuracy (w : World) (sFeatureDir sModelPath : string)
    (oClasses : VideoClasses) (nBatchSize : nat) (tr : list event)
    (fAcc : npfloat) (arPred : list nat) (arProba : ndarray2)
    (liLabels : list string) :
  predict_generator w sFeatureDir sModelPath oClasses nBatchSize =
    (tr, Ok (fAcc, arPred, arProba, liLabels)) ->
  exists r,
    fAcc = Fin r /\
    r = accuracy_spec oClasses liLabels arPred (length arProba) /\
    0 <= r <= 1.
Proof.
  intros H.
  destruct (predict_generator_Ok_spec _ _ _ _ _ _ _ _ _ _ H)
    as (Hne & Hlen & _ & _ & ->).
  eexists. split; [reflexivity |]. rewrite Hlen. split; [reflexivity |].
  apply accuracy_spec_bounds. rewrite <- Hlen.
  destruct liLabels; [congruence | simpl; lia].
Qed.

Lemma predict_generator_accuracy_witness :
  exists r,
    np_mean [true; false] = Fin r /\
    r = accuracy_spec demo_classes ["A"; "B"]%string [0%nat; 0%nat]
          (length demo_proba_oflow) /\
    0 <= r <= 1.
Proof.
  exact (predict_generator_accuracy (demo_world "/work" "lstm")
           sOflowFeatureDir sModelOflowBest demo_classes nBatchSize_default
           _ _ _ _ _
           (demo_pg_oflow "/work" "lstm" sOflowFeatureDir sModelOflowBest
              eq_refl)).
Defined.

(** X8.  What [predict_generator] returns besides the accuracy: the
    probability array is the one the model produced, the labels are the
    generator's, in its order, and the prediction of every sample is the
    first index of the largest value of its probability row, a class that
    has a row in the class table. *)
Theorem predict_generator_predictions (w : World)
    (sFeatureDir sModelPath : string) (oClasses : VideoClasses)
    (nBatchSize : nat) (tr : list event) (fAcc : npfloat)
    (arPred : list nat) (arProba : ndarray2) (liLabels : list string) :
  predict_generator w sFeatureDir sModelPath oClasses nBatchSize =
    (tr, Ok (fAcc, arPred, arProba, liLabels)) ->
  let keModel := load_model w sModelPath in
  let genFeatures :=
    new_FeaturesGenerator w sFeatureDir nBatchSize
      (skipn 1 (input_shape keModel)) (liClasses oClasses) false in
  arProba = km_predict_generator keModel genFeatures /\
  liLabels = dfSamples_sLabel genFeatures /\
  forall i, (i < nSamples genFeatures)%nat ->
    is_first_max (nth i arProba []) (nth i arPred 0%nat) /\
    (nth i arPred 0%nat < length (dfClass oClasses))%nat.
Proof.
  intros H keModel genFeatures.
  destruct (predict_generator_inv _ _ _ _ _ _ _ _ _ _ H) as (Hn & Hl & _ & Hr).
  fold keModel genFeatures in Hn, Hl, Hr.
  destruct (pg_result_inv _ _ _ _ _ _ _ Hr) as (E1 & E2 & _).
  destruct (predict_generator_Ok_spec _ _ _ _ _ _ _ _ _ _ H)
    as (_ & _ & Hp & [se Hse] & _).
  split; [exact E1 |]. split; [exact E2 |].
  intros i Hi. destruct (argmax_axis1_spec _ _ Hp) as [Hlp Hmax].
  split; [apply Hmax; lia |].
  destruct (nth_error arPred i) as [k |] eqn:Hk;
    [| apply nth_error_None in Hk; lia].
  rewrite (nth_error_nth _ _ 0%nat Hk).
  unfold loc_sClass in Hse.
  destruct (mapM_nth_error _ _ _ _ _ Hse Hk) as (s & Hs & _).
  unfold series_get in Hs.
  destruct (nth_error (dfClass oClasses) k) eqn:E; [| discriminate].
  apply nth_error_Some. congruence.
Qed.

Lemma predict_generator_predictions_witness :
  is_first_max (nth 1 demo_proba_oflow []) (nth 1 [0%nat; 0%nat] 0%nat) /\
  (nth 1 [0%nat; 0%nat] 0%nat < length (dfClass demo_classes))%nat.
Proof.
  apply (predict_generator_predictions (demo_world "/work" "lstm")
           sOflowFeatureDir sModelOflowBest demo_classes nBatchSize_default
           _ _ _ _ _
           (demo_pg_oflow "/work" "lstm" sOflowFeatureDir sModelOflowBest
              eq_refl)).
  simpl. lia.
Defined.

Lemma argmax_axis1_empty_row (a : ndarray2) :
  In [] a ->
  argmax_axis1 a =
  Raise (ValueError "attempt to get argmax of an empty sequence").
Proof.
  unfold argmax_axis1. induction a as [| row a IH]; intros Hin; [destruct Hin |].
  simpl. destruct row as [| x t]; [reflexivity |].
  destruct Hin as [Hin | Hin]; [discriminate |].
  cbn [np_argmax rbind]. rewrite (IH Hin). reflexivity.
Qed.

(** X9.  A model output without columns (or with an empty row): when
    samples were detected and the row count matches, [predict_generator]
    raises the [ValueError] of [argmax] on an empty sequence, after the
    inference call. *)
Theorem predict_generator_empty_row (w : World)
    (sFeatureDir sModelPath : string) (oClasses : VideoClasses)
    (nBatchSize : nat) :
  let keModel := load_model w sModelPath in
  let genFeatures :=
    new_FeaturesGenerator w sFeatureDir nBatchSize
      (skipn 1 (input_shape keModel)) (liClasses oClasses) false in
  let arProba := km_predict_generator keModel genFeatures in
  nSamples genFeatures <> 0%nat ->
  length arProba = nSamples genFeatures ->
  In [] arProba ->
  predict_generator w sFeatureDir sModelPath oClasses nBatchSize =
  (pg_trace_load sModelPath ++ pg_trace_infer sFeatureDir keModel genFeatures,
   Raise (ValueError "attempt to get argmax of an empty sequence")).
Proof.
  intros keModel genFeatures arProba Hn Hl Hin.
  rewrite predict_generator_run. fold keModel genFeatures arProba.
  rewrite (proj2 (Nat.eqb_neq _ _) Hn), (proj2 (Nat.eqb_eq _ _) Hl).
  simpl negb. cbv iota. unfold pg_result.
  now rewrite (argmax_axis1_empty_row arProba Hin).
Qed.

Lemma predict_generator_empty_row_witness :
  snd (predict_generator
         {| getcwd := "/work";
            read_VideoClasses := fun _ => demo_classes;
            load_model := fun _ => demo_model "lstm" [[]; []];
            new_FeaturesGenerator := fun _ _ _ _ _ =>
              demo_gen ["A"; "B"]%string |}
         sImageFeatureDir sModelImageBest demo_classes nBatchSize_default) =
  Raise (ValueError "attempt to get argmax of an empty sequence").
Proof.
  rewrite predict_generator_empty_row; [reflexivity | | |]; simpl; auto.
Defined.

(** ** The fusion arithmetic *)

Lemma mapM2_comm {A B} (op : A -> A -> result B) (xs ys : list A) :
  (forall x y, op x y = op y x) -> mapM2 op xs ys = mapM2 op ys xs.
Proof.
  intros Hop. revert ys. induction xs as [| x xs IH]; intros [| y ys]; simpl;
    try reflexivity.
  now rewrite Hop, IH.
Qed.

Lemma np_broadcast_comm {A B} (op : A -> A -> result B) (xs ys : list A) :
  (forall x y, op x y = op y x) ->
  np_broadcast op xs ys = np_broadcast op ys xs.
Proof.
  intros Hop. unfold np_broadcast. rewrite (Nat.eqb_sym (length ys)).
  destruct (Nat.eqb (length xs) (length ys)) eqn:E;
    [now apply mapM2_comm |].
  apply Nat.eqb_neq in E.
  destruct xs as [| x [| x' xs]], ys as [| y [| y' ys]];
    simpl in E; try lia; try reflexivity;
    apply mapM_ext; intros; apply Hop.
Qed.

Lemma f32_add_comm {ar : Float32Arith} (x y : f32) :
  f32_add x y = f32_add y x.
Proof.
  unfold f32_add.
  destruct x as [a | [] |], y as [b | [] |]; simpl; try reflexivity.
  now rewrite Rplus_comm.
Qed.

Lemma row_add_comm {ar : Float32Arith} (r1 r2 : list f32) :
  row_add r1 r2 = row_add r2 r1.
Proof.
  apply np_broadcast_comm. intros x y. now rewrite f32_add_comm.
Qed.

(** X10.  The sum of two score arrays does not depend on the order of the
    summands, broadcasting and shape errors included; so the two-model
    ensembles of [main] give the same probabilities, predictions and
    accuracy whichever model is written first. *)
Theorem np_add_comm {ar : Float32Arith} (a b : ndarray2) :
  (forall x y : ndarray32, np_add x y = np_add y x) /\
  np_add (as_f32 a) (as_f32 b) = np_add (as_f32 b) (as_f32 a) /\
  forall liLabels oClasses,
    rbind (sum_last a b) (fun s => fuse s liLabels oClasses) =
    rbind (sum_last b a) (fun s => fuse s liLabels oClasses).
Proof.
  assert (H : forall x y : ndarray32, np_add x y = np_add y x)
    by (intros x y; apply np_broadcast_comm; exact row_add_comm).
  split; [exact H |]. split; [apply H |].
  intros. unfold sum_last. now rewrite H.
Qed.

(** ** main: the whole run *)

Lemma bind_fail {A B} (m : M A) (f : A -> M B) t e :
  m = (t, Raise e) -> bind m f = (t, Raise e).
Proof. intros ->. reflexivity. Qed.

Lemma bind_Forall_run {A B} (P : event -> Prop) (m : M A) (f : A -> M B) :
  Forall P (fst m) ->
  (forall t a, m = (t, Ok a) -> Forall P (fst (f a))) ->
  Forall P (fst (bind m f)).
Proof.
  intros Hm Hf. destruct m as [t [a | e]]; simpl in *; [| exact Hm].
  specialize (Hf t a eq_refl). destruct (f a) as [t' r]. simpl in *.
  apply Forall_app. auto.
Qed.

Lemma predict_generator_loaded (w : World) (sFeatureDir sModelPath : string)
    (oClasses : VideoClasses) (nBatchSize : nat) :
  loaded_models
    (fst (predict_generator w sFeatureDir sModelPath oClasses nBatchSize)) =
  [sModelPath].
Proof.
  rewrite predict_generator_run.
  repeat match goal with |- context [if ?b then _ else _] => destruct b end;
    reflexivity.
Qed.

Lemma pg_trace_accuracy_ok (w : World)
    (sFeatureDir sModelPath : string) (oClasses : VideoClasses)
    (nBatchSize : nat) :
  Forall accuracy_ok
    (fst (predict_generator w sFeatureDir sModelPath oClasses nBatchSize)).
Proof.
  rewrite predict_generator_run.
  repeat match goal with |- context [if ?b then _ else _] => destruct b end;
    simpl; repeat constructor.
Qed.

Lemma percent_of_fraction (r : R) : 0 <= r <= 1 -> is_percentage (percent (Fin r)).
Proof. simpl. intros. lra. Qed.

Lemma predict_generator_percentage (w : World)
    (sFeatureDir sModelPath : string) (oClasses : VideoClasses)
    (nBatchSize : nat) tr fAcc arPred arProba liLabels :
  predict_generator w sFeatureDir sModelPath oClasses nBatchSize =
    (tr, Ok (fAcc, arPred, arProba, liLabels)) ->
  is_percentage (percent fAcc).
Proof.
  intros H.
  destruct (predict_generator_Ok_spec _ _ _ _ _ _ _ _ _ _ H)
    as (Hne & _ & _ & _ & ->).
  apply percent_of_fraction, accuracy_spec_bounds.
  destruct liLabels; [congruence | simpl; lia].
Qed.

Lemma fuse_percentage {ar : Float32Arith} (arSoftmax : ndarray32)
    (liLabels : list string) (oClasses : VideoClasses) arProba arPred fAcc :
  fuse arSoftmax liLabels oClasses = Ok (arProba, arPred, fAcc) ->
  liLabels <> [] ->
  is_percentage (percent fAcc).
Proof.
  intros H Hne. destruct (fuse_spec _ _ _ _ _ _ H Hne) as (_ & _ & _ & ->).
  apply percent_of_fraction, accuracy_spec_bounds.
  destruct liLabels; [congruence | simpl; lia].
Qed.

Lemma main_models_accuracy_ok (w : World) :
  Forall accuracy_ok (fst (main_models w)).
Proof.
  unfold main_models.
  repeat first
    [ apply pg_trace_accuracy_ok
    | match goal with
      | Hm : predict_generator _ _ _ _ _ = (_, Ok (?a, _, _, _))
        |- Forall accuracy_ok (fst (bind (print (MsgAccuracy _ (percent ?a))) _)) =>
          apply bind_Forall_run;
          [ constructor;
            [ exact (predict_generator_percentage _ _ _ _ _ _ _ _ _ _ Hm)
            | constructor ]
          | intros ]
      end
    | match goal with x : (_ * _)%type |- _ => destruct x end
    | match goal with x : unit |- _ => destruct x end
    | apply bind_Forall_run; [| intros]
    | solve [repeat constructor] ].
Qed.

Lemma main_fusion_accuracy_ok {ar : Float32Arith} (oClasses : VideoClasses)
    (ib il ob ol : ndarray2) (l_ib l_ob : list string) :
  l_ib <> [] ->
  Forall accuracy_ok (fst (main_fusion oClasses ib il ob ol l_ib l_ob)).
Proof.
  intros Hne. unfold main_fusion.
  destruct (labels_neqb l_ib l_ob); [constructor |].
  repeat first
    [ match goal with
      | Hm : lift (fuse _ _ _) = (_, Ok (_, _, ?f))
        |- Forall accuracy_ok (fst (bind (print (MsgAccuracy _ (percent ?f))) _)) =>
          apply lift_inv_Ok in Hm; destruct Hm as [Hm _];
          apply bind_Forall_run;
          [ constructor;
            [ exact (fuse_percentage _ _ _ _ _ _ Hm Hne) | constructor ]
          | intros ]
      end
    | match goal with x : (_ * _)%type |- _ => destruct x end
    | match goal with x : unit |- _ => destruct x end
    | apply bind_Forall_run; [| intros]
    | solve [repeat constructor] ].
Qed.

(** X15.  Whatever [main] prints as an accuracy, per model or fused, in a
    run that completes or in one that fails, is a percentage: a number
    between 0 and 100, never [nan]. *)
Theorem main_prints_percentages {ar : Float32Arith} (w : World)
    (caption : string) (f : npfloat) :
  In (EvPrint (MsgAccuracy caption f)) (fst (main w)) -> is_percentage f.
Proof.
  assert (H : Forall accuracy_ok (fst (main w))).
  { rewrite main_split. apply bind_Forall_run.
    - apply main_models_accuracy_ok.
    - intros t [[[[[ib il] ob] ol] l1] l3] Hm.
      destruct (main_models_inv _ _ _ _ _ _ _ _ Hm)
        as (t1 & a1 & p1 & t2 & a2 & p2 & l2 & t3 & a3 & p3 & t4 & a4 & p4
            & l4 & H1 & _).
      destruct (predict_generator_Ok_spec _ _ _ _ _ _ _ _ _ _ H1) as (Hne & _).
      now apply main_fusion_accuracy_ok. }
  intros Hin. rewrite Forall_forall in H. exact (H _ Hin).
Qed.

Lemma main_prints_percentages_witness :
  is_percentage (percent (np_mean [true; false])).
Proof.
  apply (main_prints_percentages (ar := exact_arith)
           (demo_world "/work" "lstm") caption_all).
  rewrite demo_main_run. apply in_or_app. right. simpl. auto.
Defined.

Lemma loaded_models_app (t1 t2 : list event) :
  loaded_models (t1 ++ t2) = loaded_models t1 ++ loaded_models t2.
Proof. apply flat_map_app. Qed.

Lemma run_loaded (w : World) (sFeatureDir sModelPath : string)
    (oClasses : VideoClasses) (nBatchSize : nat) t r :
  predict_generator w sFeatureDir sModelPath oClasses nBatchSize = (t, r) ->
  loaded_models t = [sModelPath].
Proof.
  intros H.
  pose proof (predict_generator_loaded w sFeatureDir sModelPath oClasses
                nBatchSize) as L.
  now rewrite H in L.
Qed.

(** X16.  [main] stops at the first per-model run that fails: if run [k]
    (counted from 0) raises an error after the runs before it returned,
    [main] raises that error, and the models it has loaded by then are the
    first [k + 1] of its four model files: no later model is loaded. *)
Theorem main_stops_at_first_failure {ar : Float32Arith} (w : World)
    (k : nat) (e : exn) :
  (k < 4)%nat ->
  (forall j, (j < k)%nat -> exists t r, main_run_of w j = (t, Ok r)) ->
  snd (main_run_of w k) = Raise e ->
  snd (main w) = Raise e /\
  loaded_models (fst (main w)) = firstn (S k) main_model_paths.
Proof.
  intros Hk Hbefore Hfail.
  assert (Hm : exists tr, main_models w = (tr, Raise e) /\
                          loaded_models tr = firstn (S k) main_model_paths).
  { destruct (main_run_of w k) as [tk rk] eqn:Ek. simpl in Hfail. subst rk.
    unfold main_models.
    destruct k as [| [| [| [| k]]]]; [| | | | lia].
    - unfold main_run_of in Ek. eexists. split.
      + eapply bind_eval; [reflexivity |].
        eapply bind_eval; [reflexivity |].
        apply bind_fail. exact Ek.
      + rewrite !loaded_models_app, (run_loaded _ _ _ _ _ _ _ Ek). reflexivity.
    - destruct (Hbefore 0%nat ltac:(lia)) as (t0 & [[[a0 p0] x0] l0] & E0).
      unfold main_run_of in Ek, E0. eexists. split.
      + eapply bind_eval; [reflexivity |].
        eapply bind_eval; [reflexivity |].
        eapply bind_eval; [exact E0 | cbv beta iota].
        eapply bind_eval; [reflexivity |].
        apply bind_fail. exact Ek.
      + rewrite !loaded_models_app, (run_loaded _ _ _ _ _ _ _ Ek),
          (run_loaded _ _ _ _ _ _ _ E0). reflexivity.
    - destruct (Hbefore 0%nat ltac:(lia)) as (t0 & [[[a0 p0] x0] l0] & E0).
      destruct (Hbefore 1%nat ltac:(lia)) as (t1 & [[[a1 p1] x1] l1] & E1).
      unfold main_run_of in Ek, E0, E1. eexists. split.
      + eapply bind_eval; [reflexivity |].
        eapply bind_eval; [reflexivity |].
        eapply bind_eval; [exact E0 | cbv beta iota].
        eapply bind_eval; [reflexivity |].
        eapply bind_eval; [exact E1 | cbv beta iota].
        eapply bind_eval; [reflexivity |].
        apply bind_fail. exact Ek.
      + rewrite !loaded_models_app, (run_loaded _ _ _ _ _ _ _ Ek),
          (run_loaded _ _ _ _ _ _ _ E0), (run_loaded _ _ _ _ _ _ _ E1).
        reflexivity.
    - destruct (Hbefore 0%nat ltac:(lia)) as (t0 & [[[a0 p0] x0] l0] & E0).
      destruct (Hbefore 1%nat ltac:(lia)) as (t1 & [[[a1 p1] x1] l1] & E1).
      destruct (Hbefore 2%nat ltac:(lia)) as (t2 & [[[a2 p2] x2] l2] & E2).
      unfold main_run_of in Ek, E0, E1, E2. eexists. split.
      + eapply bind_eval; [reflexivity |].
        eapply bind_eval; [reflexivity |].
        eapply bind_eval; [exact E0 | cbv beta iota].
        eapply bind_eval; [reflexivity |].
        eapply bind_eval; [exact E1 | cbv beta iota].
        eapply bind_eval; [reflexivity |].
        eapply bind_eval; [exact E2 | cbv beta iota].
        eapply bind_eval; [reflexivity |].
        apply bind_fail. exact Ek.
      + rewrite !loaded_models_app, (run_loaded _ _ _ _ _ _ _ Ek),
          (run_loaded _ _ _ _ _ _ _ E0), (run_loaded _ _ _ _ _ _ _ E1),
          (run_loaded _ _ _ _ _ _ _ E2). reflexivity. }
  destruct Hm as (tr & Hm & Hl). rewrite main_split, (bind_fail _ _ _ _ Hm).
  split; [reflexivity | exact Hl].
Qed.

Lemma main_stops_at_first_failure_witness :
  snd (main (ar := exact_arith) demo_world_empty) =
    Raise (ValueError "No feature files detected, prediction stopped") /\
  loaded_models (fst (main (ar := exact_arith) demo_world_empty)) =
  [sModelImageBest].
Proof.
  apply (main_stops_at_first_failure (ar := exact_arith) demo_world_empty 0).
  - lia.
  - intros j Hj. lia.
  - reflexivity.
Defined.

Lemma main_fusion_inv {ar : Float32Arith} (oClasses : VideoClasses)
    (ib il ob ol : ndarray2)
    (l_ib l_ob : list string) (tr : list event) (u : unit) :
  main_fusion oClasses ib il ob ol l_ib l_ob = (tr, Ok u) ->
  l_ib = l_ob /\
  exists f1 f2 f3,
    tr = [EvPrint (MsgAccuracy caption_last (percent f1));
          EvPrint (MsgAccuracy caption_oflow (percent f2));
          EvPrint (MsgAccuracy caption_all (percent f3))].
Proof.
  unfold main_fusion. intros H.
  destruct (labels_neqb l_ib l_ob) eqn:E; [discriminate |].
  apply labels_neqb_false in E. split; [exact E |].
  destruct (sum_last il ol) as [s1 |]; [| discriminate].
  rewrite (bind_lift_Ok _ _ s1 eq_refl) in H.
  destruct (fuse s1 l_ib oClasses) as [[[q1 d1] f1] |]; [| discriminate].
  rewrite (bind_lift_Ok _ _ _ eq_refl) in H. cbv beta iota in H.
  unfold print in H. rewrite bind_emit in H.
  destruct (sum_oflow ob ol) as [s2 |]; [| discriminate].
  rewrite (bind_lift_Ok _ _ s2 eq_refl) in H.
  destruct (fuse s2 l_ib oClasses) as [[[q2 d2] f2] |]; [| discriminate].
  rewrite (bind_lift_Ok _ _ _ eq_refl) in H. cbv beta iota in H.
  rewrite bind_emit in H.
  destruct (sum_all ib il ob ol) as [s3 |]; [| discriminate].
  rewrite (bind_lift_Ok _ _ s3 eq_refl) in H.
  destruct (fuse s3 l_ib oClasses) as [[[q3 d3] f3] |]; [| discriminate].
  rewrite (bind_lift_Ok _ _ _ eq_refl) in H. cbv beta iota in H.
  rewrite bind_emit in H. cbn [fst snd ret] in H.
  exists f1, f2, f3. inversion H. reflexivity.
Qed.

(** X17.  A run of [main] that completes has loaded its four model files
    in the order image best, image last, flow best, flow last, has called
    the network exactly four times, and has printed exactly seven
    accuracies: the four per-model ones in that order, then the three
    fused ones. *)
Theorem main_complete_run {ar : Float32Arith} (w : World) (tr : list event) :
  main w = (tr, Ok tt) ->
  loaded_models tr = main_model_paths /\
  count_inference tr = 4%nat /\
  accuracy_captions tr =
    ["Image best model accuracy"; "Image last model accuracy";
     "Optical flow best model accuracy"; "Optical flow last model accuracy";
     caption_last; caption_oflow; caption_all]%string.
Proof.
  intros H. rewrite main_split in H. apply bind_inv_Ok in H.
  destruct H as (tm & [[[[[ib il] ob] ol] l1] l3] & tf & Hm & Hf & ->).
  destruct (main_models_inv _ _ _ _ _ _ _ _ Hm)
    as (t1 & a1 & p1 & t2 & a2 & p2 & l2 & t3 & a3 & p3 & t4 & a4 & p4
        & l4 & H1 & H2 & H3 & H4).
  rewrite (main_models_run w _ _ _ _ _ _ _ _ _ _ _ _ _ _ _ _ _ _ _ _
             H1 H2 H3 H4) in Hm.
  inversion Hm as [Htm]. clear Hm.
  destruct (main_fusion_inv _ _ _ _ _ _ _ _ _ Hf) as (_ & f1 & f2 & f3 & ->).
  destruct (predict_generator_inv _ _ _ _ _ _ _ _ _ _ H1) as (_ & _ & -> & _).
  destruct (predict_generator_inv _ _ _ _ _ _ _ _ _ _ H2) as (_ & _ & -> & _).
  destruct (predict_generator_inv _ _ _ _ _ _ _ _ _ _ H3) as (_ & _ & -> & _).
  destruct (predict_generator_inv _ _ _ _ _ _ _ _ _ _ H4) as (_ & _ & -> & _).
  repeat split; reflexivity.
Qed.

Lemma main_complete_run_witness :
  loaded_models (fst (main (ar := exact_arith) (demo_world "/work" "lstm")))
    = main_model_paths /\
  count_inference (fst (main (ar := exact_arith) (demo_world "/work" "lstm")))
    = 4%nat.
Proof.
  rewrite demo_main_run.
  destruct (main_complete_run (ar := exact_arith) (demo_world "/work" "lstm")
              _ demo_main_run)
    as (H1 & H2 & _).
  split; assumption.
Defined.

Lemma row_add_incompatible {ar : Float32Arith} (r1 r2 : list f32) :
  length r1 <> length r2 -> length r1 <> 1%nat -> length r2 <> 1%nat ->
  row_add r1 r2 = Raise (ValueError "operands could not be broadcast together").
Proof.
  intros Hne H1 H2. unfold row_add, np_broadcast.
  rewrite (proj2 (Nat.eqb_neq _ _) Hne).
  destruct r1 as [| x [| x' r1]], r2 as [| y [| y' r2]];
    simpl in *; try lia; reflexivity.
Qed.

Lemma np_add_incompatible {ar : Float32Arith} (n c1 c2 : nat)
    (a b : ndarray32) :
  has_shape n c1 a -> has_shape n c2 b -> n <> 0%nat ->
  c1 <> c2 -> c1 <> 1%nat -> c2 <> 1%nat ->
  np_add a b = Raise (ValueError "operands could not be broadcast together").
Proof.
  intros [La Fa] [Lb Fb] Hn Hc H1 H2. unfold np_add, np_broadcast.
  rewrite (proj2 (Nat.eqb_eq (length a) (length b))) by lia.
  destruct a as [| r1 a]; [simpl in La; lia |].
  destruct b as [| r2 b]; [simpl in Lb; lia |].
  inversion Fa; subst. inversion Fb; subst. simpl.
  rewrite row_add_incompatible by lia. reflexivity.
Qed.

(** X18.  Models with different numbers of classes: when the four runs
    return and the labels agree, but the last image model and the last
    flow model output different numbers of columns, neither of them 1,
    [main] fails in the first sum with the [ValueError] of numpy's
    broadcasting, after the four per-model accuracies and before any
    fused accuracy. *)
Theorem main_incompatible_class_counts {ar : Float32Arith} (w : World)
    (n c1 c2 : nat)
    (t1 t2 t3 t4 : list event) (a1 a2 a3 a4 : npfloat)
    (p1 p2 p3 p4 : list nat) (ib il ob ol : ndarray2)
    (liLabels l2 l4 : list string) :
  let oClasses := read_VideoClasses w sClassFile in
  predict_generator w sImageFeatureDir sModelImageBest oClasses
    nBatchSize_default = (t1, Ok (a1, p1, ib, liLabels)) ->
  predict_generator w sImageFeatureDir sModelImageLast oClasses
    nBatchSize_default = (t2, Ok (a2, p2, il, l2)) ->
  predict_generator w sOflowFeatureDir sModelOflowBest oClasses
    nBatchSize_default = (t3, Ok (a3, p3, ob, liLabels)) ->
  predict_generator w sOflowFeatureDir sModelOflowLast oClasses
    nBatchSize_default = (t4, Ok (a4, p4, ol, l4)) ->
  has_shape n c1 il -> has_shape n c2 ol ->
  c1 <> c2 -> c1 <> 1%nat -> c2 <> 1%nat ->
  main w =
  (models_trace w t1 a1 t2 a2 t3 a3 t4 a4,
   Raise (ValueError "operands could not be broadcast together")).
Proof.
  intros oClasses H1 H2 H3 H4 Hil Hol Hc Hc1 Hc2.
  assert (Hn : n <> 0%nat).
  { destruct (predict_generator_Ok_spec _ _ _ _ _ _ _ _ _ _ H2)
      as (Hne & Hlen & _).
    destruct Hil as [Ln _]. destruct l2; [congruence | simpl in Hlen; lia]. }
  rewrite (main_run w _ _ _ _ _ _ _ _ _ _ _ _ _ _ _ _ _ _ _ _ H1 H2 H3 H4).
  fold oClasses. unfold main_fusion.
  rewrite (proj2 (labels_neqb_false liLabels liLabels) eq_refl).
  unfold sum_last.
  rewrite (np_add_incompatible n c1 c2 (as_f32 il) (as_f32 ol)
             (as_f32_has_shape _ _ _ Hil) (as_f32_has_shape _ _ _ Hol)
             Hn Hc Hc1 Hc2).
  cbn [lift bind fst snd]. now rewrite app_nil_r.
Qed.

Lemma demo_counts_pg (sFeatureDir sModelPath : string) (b : bool) :
  is_image_model sModelPath = b ->
  predict_generator demo_world_counts sFeatureDir sModelPath
    demo_classes3 nBatchSize_default =
  (pg_trace_load sModelPath ++
   pg_trace_infer sFeatureDir
     (demo_model "lstm" (if b then demo_proba_image else demo_proba_oflow3))
     (demo_gen ["A"; "B"]%string),
   Ok (np_mean (if b then [true; true] else [true; false]),
       (if b then [0%nat; 1%nat] else [0%nat; 0%nat]),
       (if b then demo_proba_image else demo_proba_oflow3),
       ["A"; "B"]%string)).
Proof.
  intros H. rewrite predict_generator_run.
  cbn [load_model demo_world_counts]. rewrite H.
  assert (H3 : argmax_axis1 demo_proba_oflow3 = Ok [0%nat; 0%nat]).
  { unfold argmax_axis1, demo_proba_oflow3. simpl. decide_R. reflexivity. }
  destruct b;
    cbn [new_FeaturesGenerator demo_world_counts nSamples demo_gen
         km_predict_generator demo_model dfSamples_sLabel];
    unfold pg_result; [rewrite demo_argmax_image | rewrite H3]; reflexivity.
Qed.

Lemma main_incompatible_class_counts_witness :
  snd (main (ar := exact_arith) demo_world_counts) =
  Raise (ValueError "operands could not be broadcast together").
Proof.
  rewrite (main_incompatible_class_counts (ar := exact_arith)
             demo_world_counts 2 2 3
             _ _ _ _ _ _ _ _ _ _ _ _ _ _ _ _ _ _ _
             (demo_counts_pg sImageFeatureDir sModelImageBest true eq_refl)
             (demo_counts_pg sImageFeatureDir sModelImageLast true eq_refl)
             (demo_counts_pg sOflowFeatureDir sModelOflowBest false eq_refl)
             (demo_counts_pg sOflowFeatureDir sModelOflowLast false eq_refl)).
  - reflexivity.
  - split; [reflexivity | repeat constructor].
  - split; [reflexivity | repeat constructor].
  - lia.
  - lia.
  - lia.
Defined.
